(** * Player-card enrichment: a shallow embedding of the backend

    The development follows the TypeScript sources of the enrichment
    subsystem:

    - [src/lib/warcraft-logs-parser.ts]      (module [Parser])
    - [src/lib/wcl-class-map.ts]             (module [ClassMap])
    - [src/lib/warcraft-logs-client.ts]      (modules [Client], [ZoneProgression])
    - [src/lib/character-enrichment-cache.ts] (module [Cache])
    - [src/lib/api-response.ts], [src/lib/errors.ts] (module [Api])
    - [src/app/api/enrich-player-card/route.ts] (modules [BestKill], [Enrich])
    - [src/lib/season-config.ts]             (module [SeasonConfigService])

    Conventions.  A JavaScript string is a [string], a sequence of code
    units below 256.  The case mappings are the ASCII ones: they differ
    from the platform's only on code units above 127, which the parser's
    validations reject with or without the mapping.
    Timestamps are instants, integers in milliseconds since the epoch.
    A [DATETIME('now')] column of the cache table holds the UTC date and
    time to the second as text without a zone: it is kept as the instant
    that the text names in UTC, and [new Date] reads such a text as local
    time.  Hours are exact rationals.  A JavaScript number is a binary64
    value; a rank percentile of the upstream is kept as the exact value of
    its number, a rational, and the arithmetic on it is that of binary64.
    A function that may throw returns a [result].  The cache table is a
    finite map from the four-part unique key to rows; the season table is
    the list of its rows in row-id order.  What the sources read from
    outside (environment, clock, time zone, URL constructor, upstream
    answers) is an explicit argument. *)

From Stdlib Require Import ZArith QArith Qround Lqa String Ascii List Bool Lia DecimalString.
From Stdlib Require Import SpecFloat.
From stdpp Require Import base gmap strings sorting.
Import ListNotations.

Open Scope string_scope.

(** ** Results of code that may throw *)

Inductive result (A : Type) : Type :=
| Ok (a : A)
| Throw (message : string).
Arguments Ok {A} a.
Arguments Throw {A} message.

Definition is_ok {A} (r : result A) : bool :=
  match r with Ok _ => true | Throw _ => false end.

Definition is_throw {A} (r : result A) : bool := negb (is_ok r).

(** ** The fragment of the JavaScript string library the sources use *)

Module Js.

(** [!s] on a string: only the empty string is falsy. *)
Definition truthy (s : string) : bool :=
  match s with EmptyString => false | String _ _ => true end.

Definition in_range (lo hi : nat) (c : ascii) : bool :=
  (lo <=? nat_of_ascii c)%nat && (nat_of_ascii c <=? hi)%nat.

Definition isLower (c : ascii) : bool := in_range 97 122 c.
Definition isUpper (c : ascii) : bool := in_range 65 90 c.
Definition isDigit (c : ascii) : bool := in_range 48 57 c.
Definition isHyphen (c : ascii) : bool := (nat_of_ascii c =? 45)%nat.
Definition isSlash (c : ascii) : bool := (nat_of_ascii c =? 47)%nat.

(** White space and line terminators that [trim] strips, among the
    8-bit code units: TAB, LF, VT, FF, CR, SP and NBSP. *)
Definition isWhiteSpace (c : ascii) : bool :=
  let n := nat_of_ascii c in
  (n =? 9)%nat || (n =? 10)%nat || (n =? 11)%nat || (n =? 12)%nat
  || (n =? 13)%nat || (n =? 32)%nat || (n =? 160)%nat.

Definition lowerChar (c : ascii) : ascii :=
  if isUpper c then ascii_of_nat (nat_of_ascii c + 32) else c.

Definition upperChar (c : ascii) : ascii :=
  if isLower c then ascii_of_nat (nat_of_ascii c - 32) else c.

Fixpoint map_chars (f : ascii -> ascii) (s : string) : string :=
  match s with
  | EmptyString => EmptyString
  | String c s' => String (f c) (map_chars f s')
  end.

Definition toLowerCase : string -> string := map_chars lowerChar.
Definition toUpperCase : string -> string := map_chars upperChar.

Fixpoint all_chars (p : ascii -> bool) (s : string) : bool :=
  match s with
  | EmptyString => true
  | String c s' => p c && all_chars p s'
  end.

Fixpoint trimStart (s : string) : string :=
  match s with
  | EmptyString => EmptyString
  | String c s' => if isWhiteSpace c then trimStart s' else s
  end.

Fixpoint trimEnd (s : string) : string :=
  match s with
  | EmptyString => EmptyString
  | String c s' =>
      match trimEnd s' with
      | EmptyString => if isWhiteSpace c then EmptyString else String c EmptyString
      | t => String c t
      end
  end.

Definition trim (s : string) : string := trimEnd (trimStart s).

Definition startsWith (p s : string) : bool := String.prefix p s.

(** [s.includes(sub)] *)
Fixpoint includes (sub s : string) : bool :=
  String.prefix sub s
  || match s with
     | EmptyString => false
     | String _ s' => includes sub s'
     end.

(** [s.split(sep)] for a one-character separator. *)
Fixpoint split (sep : ascii) (s : string) : list string :=
  match s with
  | EmptyString => [EmptyString]
  | String c s' =>
      if Ascii.eqb c sep then EmptyString :: split sep s'
      else match split sep s' with
           | hd :: tl => String c hd :: tl
           | [] => [String c EmptyString]
           end
  end.

(** [s.charAt(0)] and [s.slice(1)] *)
Definition charAt0 (s : string) : string :=
  match s with
  | EmptyString => EmptyString
  | String c _ => String c EmptyString
  end.

Definition slice1 (s : string) : string :=
  match s with
  | EmptyString => EmptyString
  | String _ s' => s'
  end.

(** The three regular expressions of the parser, all anchored at both
    ends and of the shape [^[class]+$]. *)
Definition isRealmChar (c : ascii) : bool := isLower c || isDigit c || isHyphen c.
Definition isLetter (c : ascii) : bool := isLower c || isUpper c.

Definition test_realm (s : string) : bool := truthy s && all_chars isRealmChar s.
Definition test_letters (s : string) : bool := truthy s && all_chars isLetter s.
Definition test_digits (s : string) : bool := truthy s && all_chars isDigit s.

(** Template-literal rendering of an integer. *)
Definition string_of_Z (z : Z) : string := NilZero.string_of_int (Z.to_int z).

(** *** Numbers

    A number is a binary64 floating-point value; every arithmetic
    operation returns the number nearest to the exact result, ties to
    even. *)
Definition number : Type := spec_float.

Definition prec : Z := 53.
Definition emax : Z := 1024.

Definition number_of_Z (z : Z) : number := binary_normalize prec emax z 0 false.

(** The number whose value is [q]; when [q] is the value of no number,
    the number nearest to it, which is what [JSON.parse] makes of a
    decimal literal.  The quotient is rounded once: the numerator and the
    denominator of the reduced fraction are taken to be numbers
    themselves, as they are below 2^53. *)
Definition number_of_Q (q : Q) : number :=
  let r := Qred q in
  SFdiv prec emax (number_of_Z (Qnum r)) (number_of_Z (Z.pos (Qden r))).

Definition mul (x y : number) : number := SFmul prec emax x y.
Definition div (x y : number) : number := SFdiv prec emax x y.

(** [Math.round(x)]: the integer nearest to [x], a tie going up; the
    zeros, the infinities, [NaN] and the numbers without a fractional part
    are returned as they are, and a negative [x] that rounds to zero
    gives the negative zero. *)
Definition Math_round (x : number) : number :=
  match x with
  | S754_finite s m e =>
      if (0 <=? e)%Z then x
      else
        let n := if s then Z.neg m else Z.pos m in
        binary_normalize prec emax ((2 * n + 2 ^ (- e)) / 2 ^ (1 - e)) 0 s
  | _ => x
  end.

Definition number_eqb (x y : number) : bool :=
  match x, y with
  | S754_zero s, S754_zero s' => Bool.eqb s s'
  | S754_infinity s, S754_infinity s' => Bool.eqb s s'
  | S754_nan, S754_nan => true
  | S754_finite s m e, S754_finite s' m' e' =>
      Bool.eqb s s' && Pos.eqb m m' && Z.eqb e e'
  | _, _ => false
  end.

(** *** Dates

    [new Date(t).toISOString()] for a number of milliseconds [t]: a time
    value beyond 8.64e15 in either direction makes an invalid date, on
    which [toISOString] throws a [RangeError].  The text returned is kept
    as the instant it names. *)
Definition MAX_TIME_VALUE : Z := 8640000000000000.

Definition toISOString (t : Z) : result Z :=
  if (Z.abs t <=? MAX_TIME_VALUE)%Z then Ok t else Throw "Invalid time value".

End Js.

(** ** [src/lib/wcl-class-map.ts] *)

Module ClassMap.

(** The upstream numbers classes alphabetically, with the two latest
    classes appended. *)
Definition WCL_CLASS_ID_TO_NAME : gmap Z string :=
  list_to_map
    [ (1%Z, "Death Knight"); (2%Z, "Druid"); (3%Z, "Hunter"); (4%Z, "Mage");
      (5%Z, "Monk"); (6%Z, "Paladin"); (7%Z, "Priest"); (8%Z, "Rogue");
      (9%Z, "Shaman"); (10%Z, "Warlock"); (11%Z, "Warrior");
      (12%Z, "Demon Hunter"); (13%Z, "Evoker") ].

(** [WCL_CLASS_ID_TO_NAME[classID] || 'Unknown'] *)
Definition getWCLClassName (classID : Z) : string :=
  match WCL_CLASS_ID_TO_NAME !! classID with
  | Some name => if Js.truthy name then name else "Unknown"
  | None => "Unknown"
  end.

End ClassMap.

(** ** [src/lib/warcraft-logs-parser.ts] *)

Module Parser.

(** The two fields of a platform [URL] object that the parser reads. *)
Record URL : Type := mkURL { hostname : string; pathname : string }.

Inductive ParsedWarcraftLogsUrl : Type :=
| Slug (region realm characterName originalUrl : string)
| IdForm (characterId originalUrl : string).

Definition VALID_REGIONS : list string := ["us"; "eu"; "kr"; "tw"; "cn"].

Definition bind {A B} (r : result A) (k : A -> result B) : result B :=
  match r with
  | Ok a => k a
  | Throw m => Throw m
  end.

Notation "'let*' x ':=' r 'in' k" := (bind r (fun x => k))
  (at level 10, x name, r at level 100, k at level 200).

Definition normalizeRegion (region : string) : result string :=
  let normalized := Js.toLowerCase region in
  if negb (existsb (String.eqb normalized) VALID_REGIONS) then
    Throw ("Invalid region '" +:+ region +:+ "'. Must be one of: "
           +:+ Js.toUpperCase (String.concat ", " VALID_REGIONS))
  else Ok (Js.toUpperCase normalized).

Definition normalizeRealmSlug (realm : string) : result string :=
  if negb (Js.truthy realm) || String.eqb (Js.trim realm) "" then
    Throw "Realm cannot be empty"
  else
    let normalized := Js.trim (Js.toLowerCase realm) in
    if negb (Js.test_realm normalized) then
      Throw ("Invalid realm slug '" +:+ realm
             +:+ "'. Realm must contain only letters, numbers, and hyphens")
    else Ok normalized.

Definition normalizeCharacterName (name : string) : result string :=
  if negb (Js.truthy name) || String.eqb (Js.trim name) "" then
    Throw "Character name cannot be empty"
  else
    let normalized := Js.trim name in
    if (String.length normalized <? 2)%nat || (12 <? String.length normalized)%nat then
      Throw ("Invalid character name length '" +:+ name
             +:+ "'. Must be between 2 and 12 characters")
    else if negb (Js.test_letters normalized) then
      Throw ("Invalid character name '" +:+ name +:+ "'. Must contain only letters")
    else
      Ok (Js.toUpperCase (Js.charAt0 normalized)
          +:+ Js.toLowerCase (Js.slice1 normalized)).

Definition structure_message : string :=
  "Invalid URL structure. Expected format: https://www.warcraftlogs.com/character/{region}/{realm}/{characterName} or https://www.warcraftlogs.com/character/id/{characterId}".

Definition slug_structure_message : string :=
  "Invalid URL structure. Expected format: https://www.warcraftlogs.com/character/{region}/{realm}/{characterName}".

(** The [catch] of the slug branch: every validation error is re-thrown
    with a prefix. *)
Definition with_context {A} (r : result A) : result A :=
  match r with
  | Ok a => Ok a
  | Throw m => Throw ("URL validation failed: " +:+ m)
  end.

Section WithPlatform.

(** [new URL(s)] of the platform: [None] when the constructor throws. *)
Variable newURL : string -> option URL.

(** [url] is [None] for an argument that is not a string.  The
    destructuring [[section, secondPart, thirdPart, fourthPart]] is the
    list pattern below: [pathParts.length < 2] is its second case, and
    [pathParts.length < 4] is a missing third or fourth part. *)
Definition parseWarcraftLogsCharacterUrl (url : option string)
  : result ParsedWarcraftLogsUrl :=
  match url with
  | None => Throw "URL is required and must be a string"
  | Some url =>
    if negb (Js.truthy url) then Throw "URL is required and must be a string"
    else
    let trimmedUrl := Js.trim url in
    if String.eqb trimmedUrl "" then Throw "URL cannot be empty"
    else
    let urlToParse :=
      if Js.startsWith "http" trimmedUrl then trimmedUrl
      else "https://" +:+ trimmedUrl in
    match newURL urlToParse with
    | None => Throw ("Invalid URL format: " +:+ trimmedUrl)
    | Some parsedUrl =>
      if negb (Js.includes "warcraftlogs.com" (hostname parsedUrl)) then
        Throw ("Invalid domain. Expected warcraftlogs.com, got: "
               +:+ hostname parsedUrl)
      else
      let pathParts :=
        List.filter (fun part => negb (String.eqb part ""))
                    (Js.split "/" (pathname parsedUrl)) in
      match pathParts with
      | section :: secondPart :: rest =>
        let thirdPart := rest !! 0%nat in
        let fourthPart := rest !! 1%nat in
        if negb (String.eqb section "character") then
          Throw ("Invalid URL path. Expected '/character/...', got: '/"
                 +:+ section +:+ "/...'")
        else if String.eqb secondPart "id" then
          match thirdPart with
          | None => Throw "Character ID is missing from URL"
          | Some thirdPart =>
            if negb (Js.truthy thirdPart) then
              Throw "Character ID is missing from URL"
            else if negb (Js.test_digits thirdPart) then
              Throw ("Invalid character ID '" +:+ thirdPart
                     +:+ "'. Character ID must be numeric.")
            else Ok (IdForm thirdPart trimmedUrl)
          end
        else
          match thirdPart, fourthPart with
          | Some realm, Some characterName =>
            let region := secondPart in
            with_context
              (let* normalizedRegion := normalizeRegion region in
               let* normalizedRealm := normalizeRealmSlug realm in
               let* normalizedCharacterName := normalizeCharacterName characterName in
               Ok (Slug normalizedRegion normalizedRealm
                        normalizedCharacterName trimmedUrl))
          | _, _ => Throw slug_structure_message
          end
      | _ => Throw structure_message
      end
    end
  end.

End WithPlatform.

Definition buildWarcraftLogsCharacterUrl (region realm characterName : string)
  : result string :=
  let* normalizedRegion := normalizeRegion region in
  let* normalizedRealm := normalizeRealmSlug realm in
  let* normalizedCharacterName := normalizeCharacterName characterName in
  Ok ("https://www.warcraftlogs.com/character/"
      +:+ Js.toLowerCase normalizedRegion +:+ "/" +:+ normalizedRealm
      +:+ "/" +:+ Js.toLowerCase normalizedCharacterName).

(** [isWarcraftLogsCharacterUrl]; [url] is [None] for an argument that
    is not a string. *)
Definition isWarcraftLogsCharacterUrl (newURL : string -> option URL)
  (url : option string) : bool :=
  match url with
  | None => false
  | Some u =>
      if negb (Js.truthy u) then false
      else is_ok (parseWarcraftLogsCharacterUrl newURL url)
  end.

(** *** A reference instance of the URL constructor

    The instance is the platform constructor on plain absolute URLs:
    the scheme [http] or [https], a host of dot-separated non-empty
    labels of lower-case letters, and a path of letters, digits,
    hyphens, underscores and slashes.  On those the platform returns
    the host and the path as written (the path [/] when it is absent).
    Every other input is outside the instance, which answers [None]. *)

Fixpoint strip_prefix (p s : string) : option string :=
  match p, s with
  | EmptyString, _ => Some s
  | String a p', String b s' => if Ascii.eqb a b then strip_prefix p' s' else None
  | String _ _, EmptyString => None
  end.

Fixpoint break_slash (s : string) : string * string :=
  match s with
  | EmptyString => (EmptyString, EmptyString)
  | String c s' =>
      if Js.isSlash c then (EmptyString, s)
      else let '(h, p) := break_slash s' in (String c h, p)
  end.

Definition isPlainPathChar (c : ascii) : bool :=
  Js.isLetter c || Js.isDigit c || Js.isHyphen c || Js.isSlash c
  || (nat_of_ascii c =? 95)%nat.

Definition plain_host (h : string) : bool :=
  forallb (fun l => Js.truthy l && Js.all_chars Js.isLower l) (Js.split "." h).

Definition plain_path (p : string) : bool := Js.all_chars isPlainPathChar p.

Definition URL_plain (s : string) : option URL :=
  match
    match strip_prefix "https://" s with
    | Some rest => Some rest
    | None => strip_prefix "http://" s
    end
  with
  | None => None
  | Some rest =>
      let '(h, p) := break_slash rest in
      if plain_host h && plain_path p
      then Some (mkURL h (if Js.truthy p then p else "/"))
      else None
  end.

(** *** The hostname condition in the words of the documentation

    "Validates domain is [warcraftlogs.com]": the host is that domain or
    one of its subdomains. *)
Fixpoint endsWith (suffix s : string) : bool :=
  String.eqb suffix s
  || match s with
     | EmptyString => false
     | String _ s' => endsWith suffix s'
     end.

Definition in_upstream_domain (h : string) : bool :=
  String.eqb h "warcraftlogs.com" || endsWith ".warcraftlogs.com" h.

End Parser.

(** ** [src/lib/warcraft-logs-client.ts]: response normalisation *)

Module Client.

(** One entry of a [rankings] array.  A field is [None] when it is
    missing, [null] or (for numbers) [NaN].  [rk_rankPercent] is the exact
    value of the entry's number; [rk_killDate] is a whole number of
    milliseconds. *)
Record Ranking : Type := mkRanking {
  rk_spec : option string;
  rk_rankPercent : option Q;
  rk_encounter_name : option string;   (* [ranking.encounter?.name] *)
  rk_encounterName : option string;
  rk_difficulty : option Z;
  rk_killDate : option Z
}.

(** [character] of the upstream answer.  [zoneRankings] lists
    [Object.values(character.zoneRankings || {})] in enumeration order;
    a value is [Some rankings] when it is an object whose [rankings]
    member is an array. *)
Record Character : Type := mkCharacter {
  ch_id : option Z;
  ch_name : string;
  ch_server_name : string;
  ch_region_slug : string;
  ch_classID : Z;
  ch_zoneRankings : list (option (list Ranking))
}.

Record ReportedKill : Type := mkReportedKill {
  rep_encounterName : string;
  rep_difficulty : string;
  rep_killDate : option Z;
  rep_rankPercent : Js.number
}.

Record ParsedWarcraftLogsData : Type := mkParsed {
  characterId : option string;
  characterName : string;
  realm : string;
  region : string;
  class : option string;
  spec : option string;
  mostPlayedSpec : option string;
  bestKillLatestSeason : option ReportedKill;
  classSpec : option string;
  avatarUrl : option string
}.

(** [allRankings = allRankings.concat(zoneData.rankings)] over the zones
    that carry a rankings array. *)
Definition allRankingsOf (zones : list (option (list Ranking))) : list Ranking :=
  fold_left
    (fun allRankings zoneData =>
       match zoneData with
       | Some rankings => (allRankings ++ rankings)%list
       | None => allRankings
       end)
    zones [].

(** [if (ranking.spec)]: present and not the empty string. *)
Definition truthy_spec (r : Ranking) : option string :=
  match rk_spec r with
  | Some s => if Js.truthy s then Some s else None
  | None => None
  end.

(** The [Map] of occurrence counts, in insertion order. *)
Fixpoint map_get (spec : string) (m : list (string * nat)) : option nat :=
  match m with
  | [] => None
  | (k, n) :: m' => if String.eqb k spec then Some n else map_get spec m'
  end.

Fixpoint map_set (spec : string) (v : nat) (m : list (string * nat))
  : list (string * nat) :=
  match m with
  | [] => [(spec, v)]
  | (k, n) :: m' =>
      if String.eqb k spec then (k, v) :: m' else (k, n) :: map_set spec v m'
  end.

Definition countSpec (specCounts : list (string * nat)) (ranking : Ranking)
  : list (string * nat) :=
  match truthy_spec ranking with
  | Some spec =>
      map_set spec (match map_get spec specCounts with
                    | Some n => n
                    | None => 0
                    end + 1)%nat specCounts
  | None => specCounts
  end.

Definition specCountsOf (allRankings : list Ranking) : list (string * nat) :=
  fold_left countSpec allRankings [].

(** The [specCounts.forEach] loop; the state is [(mostPlayedSpec, maxCount)]. *)
Definition pickSpec (st : option string * nat) (entry : string * nat)
  : option string * nat :=
  let '(spec, count) := entry in
  if (snd st <? count)%nat then (Some spec, count) else st.

Definition mostPlayedSpecOf (allRankings : list Ranking) : option string :=
  fst (fold_left pickSpec (specCountsOf allRankings) (None, 0%nat)).

(** [if (ranking.rankPercent && ...)]: present and not zero. *)
Definition truthy_rankPercent (r : Ranking) : option Q :=
  match rk_rankPercent r with
  | Some q => if Qeq_bool q 0 then None else Some q
  | None => None
  end.

Definition pickKill (bestKill : option Ranking) (ranking : Ranking) : option Ranking :=
  match truthy_rankPercent ranking with
  | Some q =>
      match bestKill with
      | None => Some ranking
      | Some best =>
          match rk_rankPercent best with
          | Some qb => if Qle_bool q qb then bestKill else Some ranking
          | None => bestKill
          end
      end
  | None => bestKill
  end.

Definition bestKillOf (allRankings : list Ranking) : option Ranking :=
  fold_left pickKill allRankings None.

Definition difficultyMap (d : option Z) : option string :=
  match d with
  | Some 3%Z => Some "Normal"
  | Some 4%Z => Some "Heroic"
  | Some 5%Z => Some "Mythic"
  | _ => None
  end.

(** A configuration value that is set and not empty. *)
Definition nonEmptyString (v : option string) : option string :=
  match v with
  | Some s => if Js.truthy s then Some s else None
  | None => None
  end.

(** [a || b] on optional strings. *)
Definition or_else (a : option string) (b : string) : string :=
  match a with
  | Some s => if Js.truthy s then s else b
  | None => b
  end.

(** [Math.round(x * 100) / 100] on the number [x]. *)
Definition round2 (x : Q) : Js.number :=
  Js.div (Js.Math_round (Js.mul (Js.number_of_Q x) (Js.number_of_Z 100)))
         (Js.number_of_Z 100).

(** [bestKill.killDate ? new Date(bestKill.killDate).toISOString() : null] *)
Definition killDateOf (bestKill : Ranking) : result (option Z) :=
  match rk_killDate bestKill with
  | Some d =>
      if (d =? 0)%Z then Ok None
      else match Js.toISOString d with
           | Ok t => Ok (Some t)
           | Throw m => Throw m
           end
  | None => Ok None
  end.

(** The object literal of [bestKillLatestSeason]; it throws when the
    kill date is no valid date. *)
Definition reportKill (bestKill : Ranking) : result ReportedKill :=
  match killDateOf bestKill with
  | Ok killDate =>
      Ok {| rep_encounterName :=
              or_else (rk_encounter_name bestKill)
                      (or_else (rk_encounterName bestKill) "Unknown");
            rep_difficulty :=
              or_else (difficultyMap (rk_difficulty bestKill)) "Unknown";
            rep_killDate := killDate;
            rep_rankPercent :=
              match rk_rankPercent bestKill with
              | Some q => round2 q
              | None => S754_nan
              end |}
  | Throw m => Throw m
  end.

(** [bestKill ? {...} : null] *)
Definition reportBestKill (bestKill : option Ranking) : result (option ReportedKill) :=
  match bestKill with
  | Some best =>
      match reportKill best with
      | Ok reported => Ok (Some reported)
      | Throw m => Throw m
      end
  | None => Ok None
  end.

Definition parseWarcraftLogsResponse (character : Character)
  : result ParsedWarcraftLogsData :=
  let region := Js.toUpperCase (ch_region_slug character) in
  let className := ClassMap.getWCLClassName (ch_classID character) in
  let allRankings := allRankingsOf (ch_zoneRankings character) in
  let mostPlayedSpec := mostPlayedSpecOf allRankings in
  let bestKill := bestKillOf allRankings in
  match reportBestKill bestKill with
  | Ok reported =>
      Ok {| characterId :=
              match ch_id character with
              | Some i => if (i =? 0)%Z then None else Some (Js.string_of_Z i)
              | None => None
              end;
            characterName := ch_name character;
            realm := ch_server_name character;
            region := region;
            class := Some className;
            spec := mostPlayedSpec;
            mostPlayedSpec := mostPlayedSpec;
            bestKillLatestSeason := reported;
            classSpec :=
              match mostPlayedSpec with
              | Some s => Some (className +:+ " " +:+ s)
              | None => Some className
              end;
            avatarUrl := None |}
  | Throw m => Throw m
  end.

(** *** The fetch functions

    The network enters through what it answers: the outcome of the token
    exchange and the outcome of the query. *)

(** A value thrown by the client: [code] is its [code] member, [message]
    is [None] when the value is not an [Error]. *)
Record JsError : Type := mkJsError {
  code : option string;
  message : option string
}.

Inductive TokenOutcome : Type :=
| TokenNetworkFailure
| TokenResponse (ok : bool) (status : Z) (statusText : string) (access_token : string).

(** The answer to a character query: the transport failed (with the
    message of the thrown error), the status was not a success, or the
    body arrived with [data.characterData.character] and [errors]. *)
Inductive QueryOutcome : Type :=
| QueryNetworkFailure (reason : string)
| QueryHttpError (status : Z) (statusText : string)
| QueryAnswer (character : option Character) (errors : option (list string)).

Definition getWarcraftLogsToken (clientId clientSecret : option string)
  (exchange : TokenOutcome) : JsError + string :=
  match nonEmptyString clientId, nonEmptyString clientSecret with
  | Some _, Some _ =>
      match exchange with
      | TokenResponse true _ _ access_token => inr access_token
      | TokenResponse false status statusText _ =>
          inl (mkJsError (Some "WCL_OAUTH_FAILED")
                 (Some ("WCL OAuth failed: " +:+ Js.string_of_Z status
                        +:+ " " +:+ statusText)))
      | TokenNetworkFailure =>
          inl (mkJsError (Some "WCL_OAUTH_NETWORK_ERROR")
                 (Some "Network error connecting to Warcraft Logs OAuth"))
      end
  | _, _ =>
      inl (mkJsError (Some "WCL_CONFIG_MISSING")
             (Some "Warcraft Logs API credentials not configured"))
  end.

(** [fetchWarcraftLogsCharacter]: every failure leaves with a code; a
    thrown value without one, the [RangeError] of the normalisation
    included, is wrapped as a network error. *)
Definition fetchWarcraftLogsCharacter (clientId clientSecret : option string)
  (exchange : TokenOutcome) (answer : QueryOutcome)
  : JsError + ParsedWarcraftLogsData :=
  match getWarcraftLogsToken clientId clientSecret exchange with
  | inl e => inl e
  | inr token =>
      match answer with
      | QueryNetworkFailure _ =>
          inl (mkJsError (Some "WCL_GRAPHQL_NETWORK_ERROR")
                 (Some "Network error connecting to Warcraft Logs API"))
      | QueryHttpError status _ =>
          inl (mkJsError (Some "WCL_GRAPHQL_FAILED")
                 (Some ("WCL GraphQL request failed: " +:+ Js.string_of_Z status)))
      | QueryAnswer None (Some errors) =>
          inl (mkJsError (Some "WCL_GRAPHQL_ERROR")
                 (Some ("WCL API error: " +:+ String.concat ", " errors)))
      | QueryAnswer None None =>
          inl (mkJsError (Some "WCL_CHARACTER_NOT_FOUND")
                 (Some "Character not found on Warcraft Logs"))
      | QueryAnswer (Some character) _ =>
          match parseWarcraftLogsResponse character with
          | Ok wclData => inr wclData
          | Throw _ =>
              inl (mkJsError (Some "WCL_GRAPHQL_NETWORK_ERROR")
                     (Some "Network error connecting to Warcraft Logs API"))
          end
      end
  end.

(** [fetchWarcraftLogsCharacterById]: outside the token exchange the
    errors are plain [Error]s without a code, and nothing is caught: the
    [RangeError] of the normalisation leaves as it is. *)
Definition fetchWarcraftLogsCharacterById (clientId clientSecret : option string)
  (characterId' : string) (exchange : TokenOutcome) (answer : QueryOutcome)
  : JsError + ParsedWarcraftLogsData :=
  match getWarcraftLogsToken clientId clientSecret exchange with
  | inl e => inl e
  | inr token =>
      match answer with
      | QueryNetworkFailure reason => inl (mkJsError None (Some reason))
      | QueryHttpError status statusText =>
          inl (mkJsError None
                 (Some ("WCL API request failed: " +:+ Js.string_of_Z status
                        +:+ " " +:+ statusText)))
      | QueryAnswer None (Some errors) =>
          inl (mkJsError None (Some ("WCL API error: " +:+ String.concat ", " errors)))
      | QueryAnswer None None =>
          inl (mkJsError None
                 (Some ("Character with ID " +:+ characterId'
                        +:+ " not found on Warcraft Logs")))
      | QueryAnswer (Some character) _ =>
          match parseWarcraftLogsResponse character with
          | Ok wclData => inr wclData
          | Throw m => inl (mkJsError None (Some m))
          end
      end
  end.

End Client.

(** ** [src/app/api/enrich-player-card/route.ts]: the best-kill resolver *)

Module BestKill.

Inductive Difficulty : Type := Mythic | Heroic | Normal.

Definition Difficulty_eqb (a b : Difficulty) : bool :=
  match a, b with
  | Mythic, Mythic | Heroic, Heroic | Normal, Normal => true
  | _, _ => false
  end.

(** The upstream's numeric difficulty codes. *)
Definition DIFFICULTY_MAP (code : Z) : option Difficulty :=
  if (code =? 5)%Z then Some Mythic
  else if (code =? 4)%Z then Some Heroic
  else if (code =? 3)%Z then Some Normal
  else None.

Definition DIFFICULTY_RANK (d : Difficulty) : Z :=
  match d with
  | Mythic => 3
  | Heroic => 2
  | Normal => 1
  end.

Record Kill : Type := mkKill { difficulty : Z; killDate : option Z }.

Record Encounter : Type := mkEncounter {
  encounterId : Z;
  encounterName : string;
  kills : list Kill
}.

Record Progression : Type := mkProgression { encounters : list Encounter }.

Record EncounterInfo : Type := mkEncounterInfo { id : Z; name : string }.

Record BestKill : Type := mkBestKill {
  bossId : Z;
  bossName : string;
  bestDifficulty : Difficulty;
  orderIndex : nat
}.

(** One turn of [for (const kill of encounter.kills)]. *)
Definition harder (hardestDifficulty : option Difficulty) (kill : Kill)
  : option Difficulty :=
  match DIFFICULTY_MAP (difficulty kill) with
  | Some difficultyName =>
      match hardestDifficulty with
      | None => Some difficultyName
      | Some h =>
          if (DIFFICULTY_RANK h <? DIFFICULTY_RANK difficultyName)%Z
          then Some difficultyName
          else hardestDifficulty
      end
  | None => hardestDifficulty
  end.

Definition hardestOf (ks : list Kill) : option Difficulty :=
  fold_left harder ks None.

Definition findEncounter (progression : Progression) (encounterId' : Z)
  : option Encounter :=
  List.find (fun e => (encounterId e =? encounterId')%Z) (encounters progression).

Definition bossNameOf (encounterNames : list EncounterInfo) (encounterId' : Z)
  : string :=
  match List.find (fun e => (id e =? encounterId')%Z) encounterNames with
  | Some e => if Js.truthy (name e) then name e
              else "Boss " +:+ Js.string_of_Z encounterId'
  | None => "Boss " +:+ Js.string_of_Z encounterId'
  end.

(** The loop [for (orderIndex = encounterOrder.length - 1; orderIndex >= 0;
    orderIndex--)]: [deepestFirst] is the part of [encounterOrder] still to
    visit, deepest encounter first, so the index of its head is the
    length of its tail. *)
Fixpoint scan (progression : Progression) (encounterNames : list EncounterInfo)
  (deepestFirst : list Z) : option BestKill :=
  match deepestFirst with
  | [] => None
  | encounterId' :: shallower =>
      let orderIndex' := length shallower in
      match findEncounter progression encounterId' with
      | None => scan progression encounterNames shallower
      | Some encounter =>
          if (length (kills encounter) =? 0)%nat then
            scan progression encounterNames shallower
          else
            match hardestOf (kills encounter) with
            | Some hardestDifficulty =>
                Some {| bossId := encounterId';
                        bossName := bossNameOf encounterNames encounterId';
                        bestDifficulty := hardestDifficulty;
                        orderIndex := orderIndex' |}
            | None => scan progression encounterNames shallower
            end
      end
  end.

Definition computeBestBossKill (progression : Progression)
  (encounterOrder : list Z) (encounterNames : list EncounterInfo)
  : option BestKill :=
  if (length (encounters progression) =? 0)%nat then None
  else scan progression encounterNames (rev encounterOrder).

(** *** The resolver in the words of the specification *)

(** "at least one recorded kill" *)
Definition hasKill (progression : Progression) (encounterId' : Z) : bool :=
  match findEncounter progression encounterId' with
  | Some e => negb (length (kills e) =? 0)%nat
  | None => false
  end.

(** "at least one recorded kill" of a difficulty the rank knows. *)
Definition hasRankedKill (progression : Progression) (encounterId' : Z) : bool :=
  match findEncounter progression encounterId' with
  | Some e => existsb (fun k => match DIFFICULTY_MAP (difficulty k) with
                                | Some _ => true
                                | None => false
                                end)
                      (kills e)
  | None => false
  end.

(** [d] is the hardest difficulty among the kills [ks]. *)
Definition hardest_among (ks : list Kill) (d : Difficulty) : Prop :=
  (exists k, In k ks /\ DIFFICULTY_MAP (difficulty k) = Some d)
  /\ forall k d', In k ks -> DIFFICULTY_MAP (difficulty k) = Some d' ->
                  (DIFFICULTY_RANK d' <= DIFFICULTY_RANK d)%Z.

End BestKill.

(** ** [src/lib/warcraft-logs-client.ts]: the zone-progression fetch *)

Module ZoneProgression.

(** One entry of [zoneRankings.rankings]: [ranking.encounter?.id],
    [ranking.encounter?.name] and [ranking.totalKills]; a member is
    [None] when it is missing or [null]. *)
Record ZoneRanking : Type := mkZoneRanking {
  encounter_id : option Z;
  encounter_name : option string;
  totalKills : option Z
}.

(** [zoneRankings]: [difficulty] is the number the upstream sends with
    the object (the declared type of a kill's difficulty); [rankings] is
    [None] when the member is not an array. *)
Record ZoneRankings : Type := mkZoneRankings {
  difficulty : Z;
  rankings : option (list ZoneRanking)
}.

(** The answer to the zone query: the transport failed, the status was
    not a success, or the body arrived with [errors] ([None] when the
    member is not an array) and
    [data?.characterData?.character?.zoneRankings]. *)
Inductive ZoneOutcome : Type :=
| ZoneNetworkFailure
| ZoneHttpError (status : Z)
| ZoneAnswer (errors : option (list string)) (zoneRankings : option ZoneRankings).

(** The [Map] from encounter id to its record, in insertion order. *)
Definition has (encounters : list BestKill.Encounter) (encounterId : Z) : bool :=
  existsb (fun e => (BestKill.encounterId e =? encounterId)%Z) encounters.

(** [encounters.get(encounterId)!.kills.push(kill)] *)
Fixpoint pushKill (encounterId : Z) (kill : BestKill.Kill)
  (encounters : list BestKill.Encounter) : list BestKill.Encounter :=
  match encounters with
  | [] => []
  | e :: rest =>
      if (BestKill.encounterId e =? encounterId)%Z then
        BestKill.mkEncounter (BestKill.encounterId e) (BestKill.encounterName e)
                             (BestKill.kills e ++ [kill])%list :: rest
      else e :: pushKill encounterId kill rest
  end.

(** [if (encounterId && encounterName && totalKills > 0)], with
    [totalKills = ranking.totalKills || 0]. *)
Definition counted (ranking : ZoneRanking) : option (Z * string) :=
  match encounter_id ranking, encounter_name ranking with
  | Some encounterId, Some encounterName =>
      if negb (encounterId =? 0)%Z && Js.truthy encounterName
         && (0 <? default 0%Z (totalKills ranking))%Z
      then Some (encounterId, encounterName)
      else None
  | _, _ => None
  end.

(** One turn of [for (const ranking of zoneRankings.rankings)]. *)
Definition addRanking (zoneDifficulty : Z) (encounters : list BestKill.Encounter)
  (ranking : ZoneRanking) : list BestKill.Encounter :=
  match counted ranking with
  | Some (encounterId, encounterName) =>
      pushKill encounterId (BestKill.mkKill zoneDifficulty None)
        (if has encounters encounterId then encounters
         else (encounters ++ [BestKill.mkEncounter encounterId encounterName []])%list)
  | None => encounters
  end.

(** From [const zoneRankings = ...] to the [return]. *)
Definition progressionOf (zoneRankings : option ZoneRankings) : BestKill.Progression :=
  match zoneRankings with
  | None => BestKill.mkProgression []
  | Some zr =>
      BestKill.mkProgression
        (match rankings zr with
         | Some rs => fold_left (addRanking (difficulty zr)) rs []
         | None => []
         end)
  end.

(** [fetchCharacterZoneProgression]: the token is fetched outside the
    [try], so its errors leave as they are; inside, every failure leaves
    with a code. *)
Definition fetchCharacterZoneProgression (clientId clientSecret : option string)
  (exchange : Client.TokenOutcome) (answer : ZoneOutcome)
  : Client.JsError + BestKill.Progression :=
  match Client.getWarcraftLogsToken clientId clientSecret exchange with
  | inl e => inl e
  | inr token =>
      match answer with
      | ZoneNetworkFailure =>
          inl (Client.mkJsError (Some "WCL_GRAPHQL_NETWORK_ERROR")
                 (Some "Network error fetching zone progression"))
      | ZoneHttpError status =>
          inl (Client.mkJsError (Some "WCL_GRAPHQL_FAILED")
                 (Some ("WCL zone progression request failed: "
                        +:+ Js.string_of_Z status)))
      | ZoneAnswer (Some errors) _ =>
          inl (Client.mkJsError (Some "WCL_GRAPHQL_ERROR")
                 (Some ("WCL API error: " +:+ String.concat ", " errors)))
      | ZoneAnswer None zoneRankings => inr (progressionOf zoneRankings)
      end
  end.

(** *** The state of the loop

    What holds of the [Map] once the rankings [done'] have been visited:
    its keys are distinct, every record has at least one kill, each kill
    carries the zone's difficulty and no date, every record stems from a
    ranking that passed the guard, and every such ranking has a record. *)
Definition collected (zoneDifficulty : Z) (done' : list ZoneRanking)
  (encounters : list BestKill.Encounter) : Prop :=
  List.NoDup (map BestKill.encounterId encounters)
  /\ Forall (fun e =>
               BestKill.kills e <> []
               /\ Forall (fun k => BestKill.difficulty k = zoneDifficulty
                                   /\ BestKill.killDate k = None) (BestKill.kills e)
               /\ exists r name,
                    In r done' /\ counted r = Some (BestKill.encounterId e, name))
            encounters
  /\ (forall r encounterId name,
         In r done' -> counted r = Some (encounterId, name) ->
         In encounterId (map BestKill.encounterId encounters)).

End ZoneProgression.

(** ** [src/lib/character-enrichment-cache.ts] *)

Module Cache.

Inductive FetchStatus : Type := complete | partial | failed.

(** The JSON object kept in the [player_card] column; a member is [None]
    when it is absent or [null].  [JSON.stringify] followed by
    [JSON.parse] is the identity on these objects. *)
Record CardJson : Type := mkCardJson {
  pc_warcraftLogsUrl : option string;
  pc_characterName : option string;
  pc_realm : option string;
  pc_region : option string;
  pc_class : option string;
  pc_spec : option string;
  pc_avatarUrl : option string;
  pc_bestKillLatestSeason : option BestKill.BestKill;
  pc_classSpec : option string;
  pc_updatedAt : option Z;
  pc_fetchStatus : option FetchStatus;
  pc_errorMessage : option string;
  pc_seasonConfigUpdatedAt : option string
}.

(** The object [{}]. *)
Definition emptyCard : CardJson :=
  mkCardJson None None None None None None None None None None None None None.

(** A row of [character_enrichment_cache]; a nullable column is an
    option. *)
Record Row : Type := mkRow {
  id : Z;
  character_id : option string;
  region : string;
  realm : string;
  character_name : string;
  season_key : string;
  player_card : option CardJson;
  wcl_last_fetched_at : option Z;
  blizzard_last_fetched_at : option Z;
  fetch_status : FetchStatus;
  error_message : option string;
  created_at : Z;
  updated_at : Z
}.

(** [UNIQUE(region, realm, character_name, season_key)] *)
Definition Key : Type := string * string * string * string.

Record Store : Type := mkStore {
  rows : gmap Key Row;
  lastInsertRowid : Z
}.

Record CharacterLookup : Type := mkLookup {
  l_region : string;
  l_realm : string;
  l_character_name : string;
  l_season_key : option string
}.

(** [CharacterEnrichmentCacheCreate & CharacterEnrichmentCacheUpdate]: an
    optional member is [None] when it is [undefined]; for a nullable
    member the inner option is [null]. *)
Record UpsertData : Type := mkData {
  d_character_id : option (option string);
  d_region : string;
  d_realm : string;
  d_character_name : string;
  d_season_key : option string;
  d_player_card : option CardJson;
  d_wcl_last_fetched_at : option (option Z);
  d_blizzard_last_fetched_at : option (option Z);
  d_fetch_status : option FetchStatus;
  d_error_message : option (option string)
}.

(** [season_key || 'latest'] *)
Definition seasonKeyOf (season_key' : option string) : string :=
  match season_key' with
  | Some s => if Js.truthy s then s else "latest"
  | None => "latest"
  end.

Definition keyOf (lookup : CharacterLookup) : Key :=
  (l_region lookup, l_realm lookup, l_character_name lookup,
   seasonKeyOf (l_season_key lookup)).

(** [{...row, player_card: row.player_card ? JSON.parse(row.player_card) : {}}] *)
Definition parseRow (row : Row) : Row :=
  mkRow (id row) (character_id row) (region row) (realm row)
        (character_name row) (season_key row)
        (Some (default emptyCard (player_card row)))
        (wcl_last_fetched_at row) (blizzard_last_fetched_at row)
        (fetch_status row) (error_message row) (created_at row) (updated_at row).

Definition findCachedCharacter (db : Store) (lookup : CharacterLookup)
  : option Row :=
  parseRow <$> rows db !! keyOf lookup.

(** [DATETIME('now')]: the UTC date and time of the statement as text,
    to the second; the instant that the text names in UTC is [now] with
    its milliseconds cut off. *)
Definition DATETIME (now : Z) : Z := (now / 1000 * 1000)%Z.

(** [createCacheEntry]: the [INSERT] violates the unique constraint when
    the key is taken; [created_at] and [updated_at] take their column
    default [DATETIME('now')], [character_id] stays [NULL]. *)
Definition createCacheEntry (now : Z) (db : Store) (data : UpsertData)
  : result (Store * Row) :=
  let seasonKey := seasonKeyOf (d_season_key data) in
  let playerCard := default emptyCard (d_player_card data) in
  let fetchStatus := default partial (d_fetch_status data) in
  let key : Key := (d_region data, d_realm data, d_character_name data, seasonKey) in
  match rows db !! key with
  | Some _ =>
      Throw "UNIQUE constraint failed: character_enrichment_cache.region, character_enrichment_cache.realm, character_enrichment_cache.character_name, character_enrichment_cache.season_key"
  | None =>
      let rowid := (lastInsertRowid db + 1)%Z in
      let row :=
        {| id := rowid;
           character_id := None;
           region := d_region data;
           realm := d_realm data;
           character_name := d_character_name data;
           season_key := seasonKey;
           player_card := Some playerCard;
           wcl_last_fetched_at := mjoin (d_wcl_last_fetched_at data);
           blizzard_last_fetched_at := mjoin (d_blizzard_last_fetched_at data);
           fetch_status := fetchStatus;
           error_message :=
             match mjoin (d_error_message data) with
             | Some m => if Js.truthy m then Some m else None
             | None => None
             end;
           created_at := DATETIME now;
           updated_at := DATETIME now |} in
      Ok (mkStore (<[key := row]> (rows db)) rowid, parseRow row)
  end.

(** The [SET] clause built from the members that are not [undefined],
    followed by [updated_at = DATETIME('now')]. *)
Definition applyUpdates (now : Z) (updates : UpsertData) (row : Row) : Row :=
  {| id := id row;
     character_id := character_id row;
     region := region row;
     realm := realm row;
     character_name := character_name row;
     season_key := season_key row;
     player_card :=
       match d_player_card updates with
       | Some card => Some card
       | None => player_card row
       end;
     wcl_last_fetched_at := default (wcl_last_fetched_at row) (d_wcl_last_fetched_at updates);
     blizzard_last_fetched_at :=
       default (blizzard_last_fetched_at row) (d_blizzard_last_fetched_at updates);
     fetch_status := default (fetch_status row) (d_fetch_status updates);
     error_message := default (error_message row) (d_error_message updates);
     created_at := created_at row;
     updated_at := DATETIME now |}.

(** [fields.length === 1]: nothing but [updated_at] would be set. *)
Definition isUndefined {A} (member : option A) : bool :=
  match member with None => true | Some _ => false end.

Definition noFields (updates : UpsertData) : bool :=
  isUndefined (d_player_card updates)
  && isUndefined (d_wcl_last_fetched_at updates)
  && isUndefined (d_blizzard_last_fetched_at updates)
  && isUndefined (d_fetch_status updates)
  && isUndefined (d_error_message updates).

Definition updateCacheEntry (now : Z) (db : Store) (lookup : CharacterLookup)
  (updates : UpsertData) : Store * option Row :=
  if noFields updates then (db, findCachedCharacter db lookup)
  else
    let db' := mkStore (alter (applyUpdates now updates) (keyOf lookup) (rows db))
                       (lastInsertRowid db) in
    (db', findCachedCharacter db' lookup).

(** [const lookup: CharacterLookup = {...}] of [upsertCacheEntry]. *)
Definition lookupOf (data : UpsertData) : CharacterLookup :=
  {| l_region := d_region data;
     l_realm := d_realm data;
     l_character_name := d_character_name data;
     l_season_key := d_season_key data |}.

Definition upsertCacheEntry (now : Z) (db : Store) (data : UpsertData)
  : result (Store * option Row) :=
  let lookup := lookupOf data in
  match findCachedCharacter db lookup with
  | Some existing => Ok (updateCacheEntry now db lookup data)
  | None =>
      match createCacheEntry now db data with
      | Ok (db', created) => Ok (db', Some created)
      | Throw m => Throw m
      end
  end.

(** [new Date(text)] on the text of a [DATETIME] column.  The text
    carries no zone and the platform reads it as local time: [parseDate]
    maps the instant that the text names in UTC to the instant at which
    the text is the local date and time of the process.  Where local time
    is [offset] milliseconds ahead of UTC that instant is [offset]
    earlier; in a process whose zone is UTC it is the same. *)
Definition parseLocal (offset : Z) (text : Z) : Z := (text - offset)%Z.

Definition parseUTC : Z -> Z := parseLocal 0.

(** [(now.getTime() - updatedAt.getTime()) / (1000 * 60 * 60)] with
    [updatedAt = new Date(cache.updated_at)]. *)
Definition hoursSinceUpdate (parseDate : Z -> Z) (now : Z) (cache : Row) : Q :=
  inject_Z (now - parseDate (updated_at cache)) / inject_Z (1000 * 60 * 60).

Definition isCacheStale (parseDate : Z -> Z) (now : Z) (cache : option Row)
  (maxAgeHours : Q) : bool :=
  match cache with
  | None => true
  | Some c => Qle_bool maxAgeHours (hoursSinceUpdate parseDate now c)
  end.

(** The default [maxAgeHours = 24]. *)
Definition isCacheStale_default (parseDate : Z -> Z) (now : Z) (cache : option Row)
  : bool :=
  isCacheStale parseDate now cache 24.

(** [deleteCacheEntry]: the [DELETE] by the four key columns;
    [result.changes > 0] tells whether a row went.  The row-id sequence
    of an [AUTOINCREMENT] table is not wound back. *)
Definition deleteCacheEntry (db : Store) (lookup : CharacterLookup) : Store * bool :=
  let key := keyOf lookup in
  (mkStore (delete key (rows db)) (lastInsertRowid db),
   match rows db !! key with
   | Some _ => true
   | None => false
   end).

(** [findAllSeasonsByCharacter]: the rows whose first three key columns
    are the character's, [ORDER BY season_key DESC]; the column's binary
    collation compares code units. *)
Definition seasonDesc (a b : Row) : Prop :=
  String.leb (season_key b) (season_key a) = true.

#[global] Instance seasonDesc_dec : RelDecision seasonDesc :=
  fun a b => decide (String.leb (season_key b) (season_key a) = true).

Definition ofCharacter (region' realm' characterName : string) (row : Row) : bool :=
  String.eqb (region row) region' && String.eqb (realm row) realm'
  && String.eqb (character_name row) characterName.

Definition findAllSeasonsByCharacter (db : Store)
  (region' realm' characterName : string) : list Row :=
  map parseRow
      (merge_sort seasonDesc
         (List.filter (ofCharacter region' realm' characterName)
                      (map snd (map_to_list (rows db))))).

(** *** The constraints of the table

    The four key columns of a row are the key it is stored under
    ([UNIQUE(region, realm, character_name, season_key)]), no row id
    exceeds the last one handed out ([AUTOINCREMENT]), and row ids are
    distinct ([PRIMARY KEY]). *)
Definition keyOfRow (row : Row) : Key :=
  (region row, realm row, character_name row, season_key row).

Definition well_formed (db : Store) : Prop :=
  (forall k row, rows db !! k = Some row ->
                 keyOfRow row = k /\ (id row <= lastInsertRowid db)%Z)
  /\ (forall k k' row row',
         rows db !! k = Some row -> rows db !! k' = Some row' ->
         id row = id row' -> k = k').

End Cache.

(** ** [src/lib/api-response.ts] and [src/lib/errors.ts] *)

Module Api.

(** Modelled from the spec: the table [HttpStatus] of
    [src/lib/http-status.ts] is not among the sources; the status
    mapping of the specification gives 200 for success, 400 for an
    invalid reference, 502 for an upstream failure and 503 for a missing
    configuration, and 500 is the unexpected server error. *)
Definition OK : Z := 200.
Definition BAD_REQUEST : Z := 400.
Definition INTERNAL_SERVER_ERROR : Z := 500.
Definition BAD_GATEWAY : Z := 502.
Definition SERVICE_UNAVAILABLE : Z := 503.

(** The values the route hands to [errorResponse]: a plain string, or a
    fresh [Error] (which has no [code] member). *)
Inductive ErrorArg : Type :=
| ErrString (text : string)
| ErrObject (message : string).

Record ApiResponse (A : Type) : Type := mkResponse {
  status : Z;
  success : bool;
  message : option string;
  data : option A
}.
Arguments mkResponse {A}.
Arguments status {A}.
Arguments success {A}.
Arguments message {A}.
Arguments data {A}.

(** [handleError]: neither value is an [AppError] or carries a [code], so
    both reach the last case. *)
Definition handleError (error : ErrorArg) : Z * string :=
  match error with
  | ErrObject m => (500%Z, m)
  | ErrString _ => (500%Z, "An unexpected error occurred")
  end.

Definition successResponse {A} (data' : A) (message' : option string)
  : ApiResponse A :=
  {| status := OK;
     success := true;
     message := match message' with
                | Some m => if Js.truthy m then Some m else None
                | None => None
                end;
     data := Some data' |}.

Definition errorResponse {A} (error : ErrorArg) (statusCode : option Z)
  : ApiResponse A :=
  let errorData := handleError error in
  {| status := match statusCode with
               | Some c => if (c =? 0)%Z then fst errorData else c
               | None => fst errorData
               end;
     success := false;
     message := Some (snd errorData);
     data := None |}.

End Api.

(** ** [src/app/api/enrich-player-card/route.ts]: the request handler *)

Module Enrich.

Definition CACHE_TTL_HOURS : Q := 6.

(** The active row of [season_config] as [getActiveSeasonConfig]
    returns it. *)
Record SeasonConfig : Type := mkSeasonConfig {
  tier_name : string;
  wcl_zone_id : Z;
  encounter_order : list Z;
  encounter_names : list BestKill.EncounterInfo;
  updated_at : string
}.

(** Everything a request reads from outside the handler: the process
    environment, the clock, the platform's URL constructor, its reading
    of a date-time text without a zone ([Cache.parseUTC] when the zone of
    the process is UTC), the active season configuration, what the
    upstream answers to the token exchange and to the character queries
    (by name, server slug and server region; by numeric id), and the
    outcome of the zone-progression fetch ([inl] is the thrown error).
    [storeReachable] tells whether the statements sent to the store
    succeed. *)
Record World : Type := mkWorld {
  WCL_CLIENT_ID : option string;
  WCL_CLIENT_SECRET : option string;
  newURL : string -> option Parser.URL;
  now : Z;
  parseDate : Z -> Z;
  storeReachable : bool;
  getActiveSeasonConfig : result (option SeasonConfig);
  tokenExchange : Client.TokenOutcome;
  characterQuery : string -> string -> string -> Client.QueryOutcome;
  characterByIdQuery : string -> Client.QueryOutcome;
  fetchCharacterZoneProgression :
    string -> string -> string -> Z -> Client.JsError + BestKill.Progression
}.

(** The client's fetch functions in this world; the query variables are
    [name], [serverSlug: realm] and [serverRegion: region.toUpperCase()]. *)
Definition fetchWarcraftLogsCharacter (w : World) (region realm characterName : string)
  : Client.JsError + Client.ParsedWarcraftLogsData :=
  Client.fetchWarcraftLogsCharacter (WCL_CLIENT_ID w) (WCL_CLIENT_SECRET w)
    (tokenExchange w) (characterQuery w characterName realm (Js.toUpperCase region)).

Definition fetchWarcraftLogsCharacterById (w : World) (characterId : string)
  : Client.JsError + Client.ParsedWarcraftLogsData :=
  Client.fetchWarcraftLogsCharacterById (WCL_CLIENT_ID w) (WCL_CLIENT_SECRET w)
    characterId (tokenExchange w) (characterByIdQuery w characterId).

(** [!!(process.env.WCL_CLIENT_ID && process.env.WCL_CLIENT_SECRET)] *)
Definition isWarcraftLogsConfigured (w : World) : bool :=
  match WCL_CLIENT_ID w, WCL_CLIENT_SECRET w with
  | Some i, Some s => Js.truthy i && Js.truthy s
  | _, _ => false
  end.

Record RequestBody : Type := mkBody {
  body_warcraftLogsUrl : option string;   (* [None]: absent or not a string *)
  body_seasonKey : option string;
  body_forceRefresh : bool
}.

Record PlayerCard : Type := mkPlayerCard {
  warcraftLogsUrl : string;
  characterName : string;
  realm : string;
  region : string;
  class : option string;
  spec : option string;
  avatarUrl : option string;
  bestKillLatestSeason : option BestKill.BestKill;
  classSpec : option string;
  updatedAt : Z;
  fetchStatus : Cache.FetchStatus;
  errorMessage : option string;
  seasonConfigUpdatedAt : option string
}.

(** The object that [JSON.stringify(playerCard)] stores. *)
Definition toJson (c : PlayerCard) : Cache.CardJson :=
  {| Cache.pc_warcraftLogsUrl := Some (warcraftLogsUrl c);
     Cache.pc_characterName := Some (characterName c);
     Cache.pc_realm := Some (realm c);
     Cache.pc_region := Some (region c);
     Cache.pc_class := class c;
     Cache.pc_spec := spec c;
     Cache.pc_avatarUrl := avatarUrl c;
     Cache.pc_bestKillLatestSeason := bestKillLatestSeason c;
     Cache.pc_classSpec := classSpec c;
     Cache.pc_updatedAt := Some (updatedAt c);
     Cache.pc_fetchStatus := Some (fetchStatus c);
     Cache.pc_errorMessage := errorMessage c;
     Cache.pc_seasonConfigUpdatedAt := seasonConfigUpdatedAt c |}.

(** [s || null] and [s || undefined] on an optional string. *)
Definition nonEmpty (s : option string) : option string :=
  match s with
  | Some t => if Js.truthy t then Some t else None
  | None => None
  end.

Definition buildPlayerCardFromCache (cached : Cache.Row) (warcraftLogsUrl' : string)
  (seasonConfigUpdatedAt' : option string) : PlayerCard :=
  let playerCard := default Cache.emptyCard (Cache.player_card cached) in
  {| warcraftLogsUrl := warcraftLogsUrl';
     characterName := Cache.character_name cached;
     realm := Cache.realm cached;
     region := Cache.region cached;
     class := nonEmpty (Cache.pc_class playerCard);
     spec := nonEmpty (Cache.pc_spec playerCard);
     avatarUrl := nonEmpty (Cache.pc_avatarUrl playerCard);
     bestKillLatestSeason := Cache.pc_bestKillLatestSeason playerCard;
     classSpec := nonEmpty (Cache.pc_classSpec playerCard);
     updatedAt := Cache.updated_at cached;
     fetchStatus := Cache.fetch_status cached;
     errorMessage := nonEmpty (Cache.error_message cached);
     seasonConfigUpdatedAt := nonEmpty seasonConfigUpdatedAt' |}.

Definition withErrorMessage (c : PlayerCard) (m : string) : PlayerCard :=
  mkPlayerCard (warcraftLogsUrl c) (characterName c) (realm c) (region c)
               (class c) (spec c) (avatarUrl c) (bestKillLatestSeason c)
               (classSpec c) (updatedAt c) (fetchStatus c) (Some m)
               (seasonConfigUpdatedAt c).

(** [fetchBestBossKill]: a failure of the progression fetch is swallowed. *)
Definition fetchBestBossKill (w : World) (region' realm' characterName' : string)
  (activeSeasonConfig : option SeasonConfig) : option BestKill.BestKill :=
  match activeSeasonConfig with
  | None => None
  | Some config =>
      match fetchCharacterZoneProgression w region' realm' characterName'
              (wcl_zone_id config) with
      | inr progression =>
          BestKill.computeBestBossKill progression (encounter_order config)
                                       (encounter_names config)
      | inl _ => None
      end
  end.

(** [(e as any).code || 'UNKNOWN'] *)
Definition errorCodeOf (e : Client.JsError) : string :=
  match Client.code e with
  | Some c => if Js.truthy c then c else "UNKNOWN"
  | None => "UNKNOWN"
  end.

(** [e instanceof Error ? e.message : fallback] *)
Definition errorMessageOf (fallback : string) (e : Client.JsError) : string :=
  default fallback (Client.message e).

Definition slugNotFoundMessage : string :=
  "Character not found on Warcraft Logs. The character may have been deleted, transferred, or doesn't exist. Please verify the character name, realm, and region.".

Definition idNotFoundMessage : string :=
  "Character not found on Warcraft Logs. The character may have been deleted, transferred, or the URL is outdated. Please provide an updated Warcraft Logs character URL.".

(** The ladder of [if (errorCode === ...)] that ends both [catch]
    blocks. *)
Definition upstreamErrorMessage (notFoundMessage errorCode errorMessage : string)
  : string :=
  if String.eqb errorCode "WCL_OAUTH_FAILED" then
    "Could not authenticate with Warcraft Logs"
  else if String.eqb errorCode "WCL_GRAPHQL_FAILED"
          || String.eqb errorCode "WCL_GRAPHQL_ERROR" then
    "Warcraft Logs API request failed"
  else if String.eqb errorCode "WCL_CHARACTER_NOT_FOUND"
          || Js.includes "not found" errorMessage then
    notFoundMessage
  else "Warcraft Logs API error: " +:+ errorMessage.

Definition upstreamErrorResponse (notFoundMessage errorCode errorMessage : string)
  : Api.ApiResponse PlayerCard :=
  Api.errorResponse
    (Api.ErrObject (upstreamErrorMessage notFoundMessage errorCode errorMessage))
    (Some Api.BAD_GATEWAY).

Definition freshCard (w : World) (originalUrl : string)
  (wclData : Client.ParsedWarcraftLogsData) (bestKill : option BestKill.BestKill)
  (seasonConfigUpdatedAt' : option string) : PlayerCard :=
  {| warcraftLogsUrl := originalUrl;
     characterName := Client.characterName wclData;
     realm := Client.realm wclData;
     region := Client.region wclData;
     class := Client.class wclData;
     spec := Client.spec wclData;
     avatarUrl := Client.avatarUrl wclData;
     bestKillLatestSeason := bestKill;
     classSpec := Client.classSpec wclData;
     updatedAt := now w;
     fetchStatus := Cache.complete;
     errorMessage := None;
     seasonConfigUpdatedAt := nonEmpty seasonConfigUpdatedAt' |}.

Definition completeData (w : World) (wclData : Client.ParsedWarcraftLogsData)
  (region' realm' characterName' seasonKey : string) (playerCard : PlayerCard)
  : Cache.UpsertData :=
  {| Cache.d_character_id := Some <$> Client.characterId wclData;
     Cache.d_region := region';
     Cache.d_realm := realm';
     Cache.d_character_name := characterName';
     Cache.d_season_key := Some seasonKey;
     Cache.d_player_card := Some (toJson playerCard);
     Cache.d_wcl_last_fetched_at := Some (Some (now w));
     Cache.d_blizzard_last_fetched_at := None;
     Cache.d_fetch_status := Some Cache.complete;
     Cache.d_error_message := Some None |}.

Definition failedData (region' realm' characterName' seasonKey errorMessage' : string)
  : Cache.UpsertData :=
  {| Cache.d_character_id := None;
     Cache.d_region := region';
     Cache.d_realm := realm';
     Cache.d_character_name := characterName';
     Cache.d_season_key := Some seasonKey;
     Cache.d_player_card := None;
     Cache.d_wcl_last_fetched_at := None;
     Cache.d_blizzard_last_fetched_at := None;
     Cache.d_fetch_status := Some Cache.failed;
     Cache.d_error_message := Some (Some errorMessage') |}.

(** [cachedData && !isCacheStale(cachedData, CACHE_TTL_HOURS)]: the
    entry when the test holds. *)
Definition freshEntry (w : World) (cachedData : option Cache.Row)
  : option Cache.Row :=
  match cachedData with
  | Some cached =>
      if negb (Cache.isCacheStale (parseDate w) (now w) cachedData CACHE_TTL_HOURS)
      then Some cached else None
  | None => None
  end.

(** The [catch (wclError)] of the slug branch. *)
Definition onFetchError (w : World) (db : Cache.Store)
  (cachedData : option Cache.Row)
  (region' realm' characterName' originalUrl seasonKey : string)
  (seasonConfigUpdatedAt' : option string) (wclError : Client.JsError)
  : Api.ApiResponse PlayerCard * Cache.Store :=
  let errorCode := errorCodeOf wclError in
  let errorMessage' := errorMessageOf "Unknown error fetching from Warcraft Logs" wclError in
  match cachedData with
  | Some cached =>
      let db' :=
        match Cache.upsertCacheEntry (now w) db
                (failedData region' realm' characterName' seasonKey errorMessage') with
        | Ok (db', _) => db'
        | Throw _ => db
        end in
      let playerCard :=
        withErrorMessage
          (buildPlayerCardFromCache cached originalUrl seasonConfigUpdatedAt')
          ("Failed to fetch fresh data: " +:+ errorMessage' +:+ ". Returning cached data.") in
      (Api.successResponse playerCard (Some "Returning cached data (fetch failed)"), db')
  | None =>
      (upstreamErrorResponse slugNotFoundMessage errorCode errorMessage', db)
  end.

(** The slug branch, from [const { region, realm, ... } = parsed] on. *)
Definition POST_slug (w : World) (db : Cache.Store)
  (region' realm' characterName' originalUrl seasonKey : string)
  (forceRefresh : bool) (activeSeasonConfig : option SeasonConfig)
  (seasonConfigUpdatedAt' : option string)
  : Api.ApiResponse PlayerCard * Cache.Store :=
  let cachedData :=
    if negb forceRefresh then
      Cache.findCachedCharacter db
        (Cache.mkLookup region' realm' characterName' (Some seasonKey))
    else None in
  match freshEntry w cachedData with
  | Some cached =>
      (Api.successResponse
         (buildPlayerCardFromCache cached originalUrl seasonConfigUpdatedAt')
         (Some "Player card returned from cache"), db)
  | None =>
      if negb (isWarcraftLogsConfigured w) then
        match cachedData with
        | Some cached =>
            (Api.successResponse
               (buildPlayerCardFromCache cached originalUrl seasonConfigUpdatedAt')
               (Some "WCL API not configured. Returning stale cached data."), db)
        | None =>
            (Api.errorResponse
               (Api.ErrString "Warcraft Logs API is not configured and no cached data is available")
               (Some Api.SERVICE_UNAVAILABLE), db)
        end
      else
        match fetchWarcraftLogsCharacter w region' realm' characterName' with
        | inr wclData =>
            let bestKill :=
              fetchBestBossKill w region' realm' characterName' activeSeasonConfig in
            let playerCard :=
              freshCard w originalUrl wclData bestKill seasonConfigUpdatedAt' in
            match Cache.upsertCacheEntry (now w) db
                    (completeData w wclData region' realm' characterName'
                                  seasonKey playerCard) with
            | Ok (db', _) =>
                (Api.successResponse playerCard
                   (Some "Player card enriched successfully"), db')
            | Throw m =>
                onFetchError w db cachedData region' realm' characterName'
                  originalUrl seasonKey seasonConfigUpdatedAt'
                  (Client.mkJsError (Some "SQLITE_CONSTRAINT_UNIQUE") (Some m))
            end
        | inl wclError =>
            onFetchError w db cachedData region' realm' characterName'
              originalUrl seasonKey seasonConfigUpdatedAt' wclError
        end
  end.

(** The branch [if (parsed.type === 'id')]. *)
Definition POST_id (w : World) (db : Cache.Store)
  (characterId originalUrl seasonKey : string)
  (forceRefresh : bool) (activeSeasonConfig : option SeasonConfig)
  (seasonConfigUpdatedAt' : option string)
  : Api.ApiResponse PlayerCard * Cache.Store :=
  if negb (isWarcraftLogsConfigured w) then
    (Api.errorResponse
       (Api.ErrString "Warcraft Logs API is not configured. Cannot resolve character ID.")
       (Some Api.SERVICE_UNAVAILABLE), db)
  else
    match fetchWarcraftLogsCharacterById w characterId with
    | inr wclData =>
        let cachedData :=
          if negb forceRefresh then
            Cache.findCachedCharacter db
              (Cache.mkLookup (Client.region wclData) (Client.realm wclData)
                              (Client.characterName wclData) (Some seasonKey))
          else None in
        match freshEntry w cachedData with
        | Some cached =>
            (Api.successResponse
               (buildPlayerCardFromCache cached originalUrl seasonConfigUpdatedAt')
               None, db)
        | None =>
            let bestKill :=
              fetchBestBossKill w (Client.region wclData) (Client.realm wclData)
                                (Client.characterName wclData) activeSeasonConfig in
            let playerCard :=
              freshCard w originalUrl wclData bestKill seasonConfigUpdatedAt' in
            let db' :=
              match Cache.upsertCacheEntry (now w) db
                      (completeData w wclData (Client.region wclData)
                                    (Client.realm wclData)
                                    (Client.characterName wclData)
                                    seasonKey playerCard) with
              | Ok (db', _) => db'
              | Throw _ => db
              end in
            (Api.successResponse playerCard
               (Some "Player card enriched successfully"), db')
        end
    | inl idFetchError =>
        (upstreamErrorResponse idNotFoundMessage (errorCodeOf idFetchError)
                               (errorMessageOf "Unknown error" idFetchError), db)
    end.

(** [POST]: [body] is [None] when [request.json()] throws.  The answer
    comes with the store the request leaves behind. *)
Definition POST (w : World) (db : Cache.Store) (body : option RequestBody)
  : Api.ApiResponse PlayerCard * Cache.Store :=
  if negb (isWarcraftLogsConfigured w) then
    (Api.errorResponse
       (Api.ErrString "Warcraft Logs API credentials not configured. Please contact administrator.")
       (Some Api.SERVICE_UNAVAILABLE), db)
  else if negb (storeReachable w) then
    (Api.errorResponse
       (Api.ErrString "Database unavailable. Please try again later.")
       (Some Api.SERVICE_UNAVAILABLE), db)
  else
    match body with
    | None =>
        (Api.errorResponse
           (Api.ErrString "An unexpected server error occurred. Please try again later.")
           (Some Api.INTERNAL_SERVER_ERROR), db)
    | Some body =>
        let seasonKey := default "latest" (body_seasonKey body) in
        let forceRefresh := body_forceRefresh body in
        let activeSeasonConfig :=
          match getActiveSeasonConfig w with
          | Ok config => config
          | Throw _ => None
          end in
        let seasonConfigUpdatedAt' := updated_at <$> activeSeasonConfig in
        match body_warcraftLogsUrl body with
        | None =>
            (Api.errorResponse
               (Api.ErrString "warcraftLogsUrl is required and must be a string")
               (Some Api.BAD_REQUEST), db)
        | Some url =>
            if negb (Js.truthy url) then
              (Api.errorResponse
                 (Api.ErrString "warcraftLogsUrl is required and must be a string")
                 (Some Api.BAD_REQUEST), db)
            else
              match Parser.parseWarcraftLogsCharacterUrl (newURL w) (Some url) with
              | Throw m =>
                  (Api.errorResponse
                     (Api.ErrString ("Invalid Warcraft Logs URL: " +:+ m))
                     (Some Api.BAD_REQUEST), db)
              | Ok (Parser.IdForm characterId originalUrl) =>
                  POST_id w db characterId originalUrl seasonKey forceRefresh
                          activeSeasonConfig seasonConfigUpdatedAt'
              | Ok (Parser.Slug region' realm' characterName' originalUrl) =>
                  POST_slug w db region' realm' characterName' originalUrl
                            seasonKey forceRefresh activeSeasonConfig
                            seasonConfigUpdatedAt'
              end
        end
    end.

(** [GET]: the health check.  [hasDb] is the outcome of the same probe
    of the store that [POST] starts with. *)
Record Health : Type := mkHealth {
  ok : bool;
  hasWclToken : bool;
  hasDb : bool;
  timestamp : Z
}.

Definition GET (w : World) : Api.ApiResponse Health :=
  let hasWclToken' := isWarcraftLogsConfigured w in
  let hasDb' := storeReachable w in
  Api.successResponse
    {| ok := hasWclToken' && hasDb';
       hasWclToken := hasWclToken';
       hasDb := hasDb';
       timestamp := now w |}
    None.

End Enrich.

(** ** [src/lib/season-config.ts] *)

Module SeasonConfigService.

(** A row of [season_config], as [parseSeasonConfigRow] returns it: the
    two JSON columns are the arrays they hold, [is_active] is a boolean,
    the timestamps are the texts [DATETIME('now')] produced. *)
Record SeasonConfig : Type := mkSeasonConfig {
  id : Z;
  tier_name : string;
  wcl_tier_url : string;
  wcl_zone_id : Z;
  encounter_order : list Z;
  encounter_names : list BestKill.EncounterInfo;
  is_active : bool;
  created_at : string;
  updated_at : string
}.

(** The table: its rows in row-id order, which is the order in which a
    scan of the table or of the index on [is_active] visits them, and the
    last row id handed out. *)
Record Table : Type := mkTable {
  rows : list SeasonConfig;
  lastInsertRowid : Z
}.

(** [SeasonConfigCreate]: the two arrays are required members, so
    [data.encounter_order || []] is the array given. *)
Record SeasonConfigCreate : Type := mkCreate {
  c_tier_name : string;
  c_wcl_tier_url : string;
  c_wcl_zone_id : Z;
  c_encounter_order : list Z;
  c_encounter_names : list BestKill.EncounterInfo;
  c_is_active : option bool
}.

(** A member is [None] when it is [undefined]. *)
Record SeasonConfigUpdate : Type := mkUpdate {
  u_tier_name : option string;
  u_wcl_tier_url : option string;
  u_wcl_zone_id : option Z;
  u_encounter_order : option (list Z);
  u_encounter_names : option (list BestKill.EncounterInfo);
  u_is_active : option bool
}.

(** [SELECT * FROM season_config WHERE is_active = 1 LIMIT 1] *)
Definition getActiveSeasonConfig (t : Table) : option SeasonConfig :=
  List.find is_active (rows t).

(** [SELECT * FROM season_config WHERE id = ?] *)
Definition getSeasonConfigById (t : Table) (id' : Z) : option SeasonConfig :=
  List.find (fun row => (id row =? id')%Z) (rows t).

Definition setActive (active : bool) (row : SeasonConfig) : SeasonConfig :=
  mkSeasonConfig (id row) (tier_name row) (wcl_tier_url row) (wcl_zone_id row)
                 (encounter_order row) (encounter_names row) active
                 (created_at row) (updated_at row).

(** [UPDATE season_config SET is_active = 0 WHERE is_active = 1] *)
Definition deactivateAll (rows' : list SeasonConfig) : list SeasonConfig :=
  map (fun row => if is_active row then setActive false row else row) rows'.

(** [UPDATE season_config SET is_active = 0 WHERE is_active = 1 AND id != ?] *)
Definition deactivateOthers (id' : Z) (rows' : list SeasonConfig)
  : list SeasonConfig :=
  map (fun row => if is_active row && negb (id row =? id')%Z
                  then setActive false row else row) rows'.

(** [createSeasonConfig]; the answer comes with the table the call
    leaves behind. *)
Definition createSeasonConfig (now : string) (t : Table) (data : SeasonConfigCreate)
  : Table * result SeasonConfig :=
  let isActive := default false (c_is_active data) in
  let rows1 := if isActive then deactivateAll (rows t) else rows t in
  let rowid := (lastInsertRowid t + 1)%Z in
  let row :=
    {| id := rowid;
       tier_name := c_tier_name data;
       wcl_tier_url := c_wcl_tier_url data;
       wcl_zone_id := c_wcl_zone_id data;
       encounter_order := c_encounter_order data;
       encounter_names := c_encounter_names data;
       is_active := isActive;
       created_at := now;
       updated_at := now |} in
  let t' := mkTable (rows1 ++ [row])%list rowid in
  match getSeasonConfigById t' rowid with
  | Some newConfig => (t', Ok newConfig)
  | None => (t', Throw "Failed to retrieve created season config")
  end.

(** [updates.length === 0] *)
Definition noUpdates (data : SeasonConfigUpdate) : bool :=
  match u_tier_name data, u_wcl_tier_url data, u_wcl_zone_id data,
        u_encounter_order data, u_encounter_names data, u_is_active data with
  | None, None, None, None, None, None => true
  | _, _, _, _, _, _ => false
  end.

(** The [SET] clause built from the members that are not [undefined],
    followed by [updated_at = DATETIME('now')]. *)
Definition applyUpdate (now : string) (data : SeasonConfigUpdate) (row : SeasonConfig)
  : SeasonConfig :=
  {| id := id row;
     tier_name := default (tier_name row) (u_tier_name data);
     wcl_tier_url := default (wcl_tier_url row) (u_wcl_tier_url data);
     wcl_zone_id := default (wcl_zone_id row) (u_wcl_zone_id data);
     encounter_order := default (encounter_order row) (u_encounter_order data);
     encounter_names := default (encounter_names row) (u_encounter_names data);
     is_active := default (is_active row) (u_is_active data);
     created_at := created_at row;
     updated_at := now |}.

Definition updateSeasonConfig (now : string) (t : Table) (id' : Z)
  (data : SeasonConfigUpdate) : Table * result SeasonConfig :=
  match getSeasonConfigById t id' with
  | None =>
      (t, Throw ("Season config with id " +:+ Js.string_of_Z id' +:+ " not found"))
  | Some existing =>
      let rows1 :=
        if default false (u_is_active data) then deactivateOthers id' (rows t)
        else rows t in
      if noUpdates data then (mkTable rows1 (lastInsertRowid t), Ok existing)
      else
        let t' :=
          mkTable (map (fun row => if (id row =? id')%Z
                                   then applyUpdate now data row else row) rows1)
                  (lastInsertRowid t) in
        match getSeasonConfigById t' id' with
        | Some updated => (t', Ok updated)
        | None => (t', Throw "Failed to retrieve updated season config")
        end
  end.

(** [DELETE FROM season_config WHERE id = ?] *)
Definition deleteSeasonConfig (t : Table) (id' : Z) : Table :=
  mkTable (List.filter (fun row => negb (id row =? id')%Z) (rows t))
          (lastInsertRowid t).

(** *** The constraints of the table and the rule the service keeps

    Row ids are distinct ([PRIMARY KEY]) and none exceeds the last one
    handed out ([AUTOINCREMENT]); at most one row is active. *)
Definition well_formed (t : Table) : Prop :=
  List.NoDup (map id (rows t))
  /\ Forall (fun row => (id row <= lastInsertRowid t)%Z) (rows t).

Definition activeCount (t : Table) : nat :=
  length (List.filter is_active (rows t)).

End SeasonConfigService.

(** ** The normalisation in the words of the specification *)

Module Spec.

(** [r] is a maximum of [l] for the preorder [le]. *)
Definition is_max {A} (le : A -> A -> bool) (l : list A) (r : A) : bool :=
  forallb (fun y => le y r) l.

(** The first element of [l] that is a maximum of [l]: "the highest,
    first-seen wins ties". *)
Definition first_max {A} (le : A -> A -> bool) (l : list A) : option A :=
  List.find (is_max le l) l.

(** A running maximum that a later element replaces only when it is
    strictly greater. *)
Definition keep_max {A} (le : A -> A -> bool) (acc : option A) (x : A)
  : option A :=
  match acc with
  | None => Some x
  | Some b => if le x b then Some b else Some x
  end.

(** "flatten all per-zone ranking entries into one list" *)
Definition flatten (zones : list (option (list Client.Ranking)))
  : list Client.Ranking :=
  concat (map (default []) zones).

(** The spec values of the entries, in order. *)
Definition countedSpecs (allRankings : list Client.Ranking) : list string :=
  omap Client.truthy_spec allRankings.

Definition occurrences (s : string) (specs : list string) : nat :=
  length (List.filter (String.eqb s) specs).

(** The distinct values of a list in the order of their first occurrence. *)
Fixpoint firstSeen (l : list string) : list string :=
  match l with
  | [] => []
  | x :: l' => x :: List.filter (fun y => negb (String.eqb x y)) (firstSeen l')
  end.

Definition le_occurrences (specs : list string) (s t : string) : bool :=
  (occurrences s specs <=? occurrences t specs)%nat.

(** "the spec value with the highest occurrence count across all entries
    (first-seen wins ties)" *)
Definition mostPlayedSpec (allRankings : list Client.Ranking) : option string :=
  first_max (le_occurrences (countedSpecs allRankings)) (countedSpecs allRankings).

Definition rankPercentOf (r : Client.Ranking) : Q :=
  default 0%Q (Client.rk_rankPercent r).

Definition le_rankPercent (x y : Client.Ranking) : bool :=
  Qle_bool (rankPercentOf x) (rankPercentOf y).

(** The entries that carry a rank percentile. *)
Definition hasRankPercent (r : Client.Ranking) : bool :=
  match Client.rk_rankPercent r with Some _ => true | None => false end.

(** The entries whose rank percentile passes the guard
    [ranking.rankPercent && ...]: present and not zero. *)
Definition hasNonzeroRankPercent (r : Client.Ranking) : bool :=
  match Client.truthy_rankPercent r with Some _ => true | None => false end.

(** "the entry with the numerically highest rank-percentile value (strict
    comparison, first-seen wins ties)", over every entry that has a value. *)
Definition bestKill_stated (allRankings : list Client.Ranking)
  : option Client.Ranking :=
  first_max le_rankPercent (List.filter hasRankPercent allRankings).

(** The same over the entries that pass the guard. *)
Definition bestKill (allRankings : list Client.Ranking) : option Client.Ranking :=
  first_max le_rankPercent (List.filter hasNonzeroRankPercent allRankings).

(** "the response equals the cached card unmodified except that its URL
    field is replaced with the request's URL": the stored card with that
    one member replaced. *)
Definition cachedCardWithUrl (stored : Cache.CardJson) (url : string)
  : Cache.CardJson :=
  {| Cache.pc_warcraftLogsUrl := Some url;
     Cache.pc_characterName := Cache.pc_characterName stored;
     Cache.pc_realm := Cache.pc_realm stored;
     Cache.pc_region := Cache.pc_region stored;
     Cache.pc_class := Cache.pc_class stored;
     Cache.pc_spec := Cache.pc_spec stored;
     Cache.pc_avatarUrl := Cache.pc_avatarUrl stored;
     Cache.pc_bestKillLatestSeason := Cache.pc_bestKillLatestSeason stored;
     Cache.pc_classSpec := Cache.pc_classSpec stored;
     Cache.pc_updatedAt := Cache.pc_updatedAt stored;
     Cache.pc_fetchStatus := Cache.pc_fetchStatus stored;
     Cache.pc_errorMessage := Cache.pc_errorMessage stored;
     Cache.pc_seasonConfigUpdatedAt := Cache.pc_seasonConfigUpdatedAt stored |}.

(** *** The parser's rejections in the words of the specification

    "fails when: input is empty/non-string; hostname is not the expected
    upstream domain; path does not begin with the expected resource
    segment; for slug form, fewer than the required path segments, region
    not in the 5-code whitelist, realm contains characters outside
    [a-z0-9-], character name length outside 2-12 or containing
    non-letters; for id form, the id segment is non-numeric."  The host
    and the path are those of the platform's URL object; an input the
    constructor refuses has no host. *)

Definition urlToParse (trimmedUrl : string) : string :=
  if Js.startsWith "http" trimmedUrl then trimmedUrl else "https://" +:+ trimmedUrl.

Definition pathSegments (pathname : string) : list string :=
  List.filter (fun part => negb (String.eqb part "")) (Js.split "/" pathname).

(** The region is one of the five codes, compared without case. *)
Definition region_ok (region : string) : bool :=
  existsb (String.eqb (Js.toLowerCase region)) Parser.VALID_REGIONS.

(** The realm is made of [a-z0-9-] once lower-cased. *)
Definition realm_ok (realm : string) : bool :=
  Js.test_realm (Js.toLowerCase realm).

(** The name has 2 to 12 characters, all letters. *)
Definition name_ok (name : string) : bool :=
  (2 <=? String.length name)%nat && (String.length name <=? 12)%nat
  && Js.all_chars Js.isLetter name.

Definition listed_rejection (newURL : string -> option Parser.URL)
  (url : option string) : bool :=
  match url with
  | None => true
  | Some u =>
      if String.eqb (Js.trim u) "" then true
      else
        match newURL (urlToParse (Js.trim u)) with
        | None => true
        | Some parsedUrl =>
            negb (Parser.in_upstream_domain (Parser.hostname parsedUrl))
            || match pathSegments (Parser.pathname parsedUrl) with
               | [] => true
               | section :: rest =>
                   negb (String.eqb section "character")
                   || match rest with
                      | [] => true
                      | secondPart :: rest' =>
                          if String.eqb secondPart "id" then
                            match rest' with
                            | [] => true
                            | characterId :: _ => negb (Js.test_digits characterId)
                            end
                          else
                            match rest' with
                            | realm :: characterName :: _ =>
                                negb (region_ok secondPart)
                                || negb (realm_ok realm)
                                || negb (name_ok characterName)
                            | _ => true
                            end
                      end
               end
        end
  end.

End Spec.

(** ** Concrete requests used to run the model *)

Module Examples.

Definition url_testchar : string :=
  "https://www.warcraftlogs.com/character/us/area-52/testchar".

Definition hour : Z := 1000 * 60 * 60.

Definition testchar_card : Cache.CardJson :=
  {| Cache.pc_warcraftLogsUrl := Some url_testchar;
     Cache.pc_characterName := Some "Testchar";
     Cache.pc_realm := Some "Area 52";
     Cache.pc_region := Some "US";
     Cache.pc_class := Some "Rogue";
     Cache.pc_spec := Some "Outlaw";
     Cache.pc_avatarUrl := None;
     Cache.pc_bestKillLatestSeason := None;
     Cache.pc_classSpec := Some "Rogue Outlaw";
     Cache.pc_updatedAt := Some 0%Z;
     Cache.pc_fetchStatus := Some Cache.complete;
     Cache.pc_errorMessage := None;
     Cache.pc_seasonConfigUpdatedAt := None |}.

(** A row written at time 0. *)
Definition testchar_row : Cache.Row :=
  {| Cache.id := 1;
     Cache.character_id := None;
     Cache.region := "US";
     Cache.realm := "area-52";
     Cache.character_name := "Testchar";
     Cache.season_key := "latest";
     Cache.player_card := Some testchar_card;
     Cache.wcl_last_fetched_at := Some 0%Z;
     Cache.blizzard_last_fetched_at := None;
     Cache.fetch_status := Cache.complete;
     Cache.error_message := None;
     Cache.created_at := 0;
     Cache.updated_at := 0 |}.

Definition testchar_key : Cache.Key := ("US", "area-52", "Testchar", "latest").

Definition store_with_testchar : Cache.Store :=
  Cache.mkStore {[ testchar_key := testchar_row ]} 1.

Definition empty_store : Cache.Store := Cache.mkStore ∅ 0.

Definition request (forceRefresh : bool) : Enrich.RequestBody :=
  {| Enrich.body_warcraftLogsUrl := Some url_testchar;
     Enrich.body_seasonKey := None;
     Enrich.body_forceRefresh := forceRefresh |}.

Definition request_failed : Client.JsError :=
  {| Client.code := Some "WCL_GRAPHQL_FAILED";
     Client.message := Some "WCL GraphQL request failed: 500" |}.

(** A world in the zone UTC whose upstream grants the token and answers
    every query with the status 500. *)
Definition world (configured : bool) (now' : Z) : Enrich.World :=
  {| Enrich.WCL_CLIENT_ID := if configured then Some "id" else None;
     Enrich.WCL_CLIENT_SECRET := if configured then Some "secret" else None;
     Enrich.newURL := Parser.URL_plain;
     Enrich.now := now';
     Enrich.parseDate := Cache.parseUTC;
     Enrich.storeReachable := true;
     Enrich.getActiveSeasonConfig := Ok None;
     Enrich.tokenExchange := Client.TokenResponse true 200 "OK" "token";
     Enrich.characterQuery :=
       fun _ _ _ => Client.QueryHttpError 500 "Internal Server Error";
     Enrich.characterByIdQuery :=
       fun _ => Client.QueryHttpError 500 "Internal Server Error";
     Enrich.fetchCharacterZoneProgression := fun _ _ _ _ => inl request_failed |}.

(** An encounter order of length 8, and two kill histories: kills at
    index 2 (Heroic) and index 5 (Normal and Mythic); and the same with
    the kills at index 5 carrying a difficulty code outside 3, 4, 5. *)
Definition order8 : list Z := [101; 102; 103; 104; 105; 106; 107; 108]%Z.

Definition names8 : list BestKill.EncounterInfo :=
  [ BestKill.mkEncounterInfo 103 "Third"; BestKill.mkEncounterInfo 106 "Sixth" ].

Definition kills_2H_5NM : BestKill.Progression :=
  BestKill.mkProgression
    [ BestKill.mkEncounter 103 "Third" [BestKill.mkKill 4 None];
      BestKill.mkEncounter 106 "Sixth"
        [BestKill.mkKill 3 None; BestKill.mkKill 5 None] ].

Definition kills_2H_5other : BestKill.Progression :=
  BestKill.mkProgression
    [ BestKill.mkEncounter 103 "Third" [BestKill.mkKill 4 None];
      BestKill.mkEncounter 106 "Sixth" [BestKill.mkKill 1 None] ].

(** An upstream answer whose only ranking entry has the rank percentile 0. *)
Definition ranking_zero : Client.Ranking :=
  Client.mkRanking (Some "Outlaw") (Some 0%Q) (Some "Sixth") None (Some 5%Z) None.

Definition character_zero : Client.Character :=
  Client.mkCharacter (Some 64213375%Z) "Testchar" "Area 52" "us" 8
                     [Some [ranking_zero]].

(** An upstream answer with four ranking entries in two zones (a third
    zone value carries no rankings array): the specs Outlaw and Subtlety
    occur twice each, the rank percentile 80 occurs twice. *)
Definition ranking_a : Client.Ranking :=
  Client.mkRanking (Some "Outlaw") (Some 50%Q) (Some "Third") None (Some 4%Z) None.
Definition ranking_b : Client.Ranking :=
  Client.mkRanking (Some "Subtlety") (Some 80%Q) (Some "Sixth") None (Some 5%Z) None.
Definition ranking_c : Client.Ranking :=
  Client.mkRanking (Some "Subtlety") (Some 80%Q) (Some "Seventh") None (Some 5%Z) None.
Definition ranking_d : Client.Ranking :=
  Client.mkRanking (Some "Outlaw") (Some 0%Q) (Some "Eighth") None (Some 3%Z) None.

Definition character_sample : Client.Character :=
  Client.mkCharacter (Some 64213375%Z) "Testchar" "Area 52" "us" 8
                     [Some [ranking_a; ranking_b]; None; Some [ranking_c; ranking_d]].

(** What the normalisation makes of [character_sample]. *)
Definition parsed_sample : Client.ParsedWarcraftLogsData :=
  {| Client.characterId := Some "64213375";
     Client.characterName := "Testchar";
     Client.realm := "Area 52";
     Client.region := "US";
     Client.class := Some "Rogue";
     Client.spec := Some "Outlaw";
     Client.mostPlayedSpec := Some "Outlaw";
     Client.bestKillLatestSeason :=
       Some (Client.mkReportedKill "Sixth" "Mythic" None (Js.number_of_Z 80));
     Client.classSpec := Some "Rogue Outlaw";
     Client.avatarUrl := None |}.

(** The value of the number nearest to 87.35, and a ranking entry that
    carries it. *)
Definition percent_8735 : Q := 6146709803918950 # 70368744177664.

Definition ranking_8735 : Client.Ranking :=
  Client.mkRanking (Some "Outlaw") (Some percent_8735) (Some "Sixth") None
                   (Some 5%Z) (Some 1735732800000%Z).

(** An upstream answer whose best kill carries a kill date beyond the
    range of [Date]. *)
Definition ranking_undated : Client.Ranking :=
  Client.mkRanking (Some "Outlaw") (Some 90%Q) (Some "Sixth") None (Some 5%Z)
                   (Some 8640000000000001%Z).

Definition character_undated : Client.Character :=
  Client.mkCharacter (Some 64213375%Z) "Testchar" "Area 52" "us" 8
                     [Some [ranking_a; ranking_undated]].

(** What [fetchWarcraftLogsCharacter] throws on that answer. *)
Definition network_error : Client.JsError :=
  {| Client.code := Some "WCL_GRAPHQL_NETWORK_ERROR";
     Client.message := Some "Network error connecting to Warcraft Logs API" |}.

(** The zone of a process five hours behind UTC. *)
Definition parseDate_UTC_minus_5 : Z -> Z := Cache.parseLocal (-5 * hour).

(** An upsert that names the key of [testchar_row] and supplies no field. *)
Definition key_only_data : Cache.UpsertData :=
  {| Cache.d_character_id := None;
     Cache.d_region := "US";
     Cache.d_realm := "area-52";
     Cache.d_character_name := "Testchar";
     Cache.d_season_key := None;
     Cache.d_player_card := None;
     Cache.d_wcl_last_fetched_at := None;
     Cache.d_blizzard_last_fetched_at := None;
     Cache.d_fetch_status := None;
     Cache.d_error_message := None |}.

(** A season of the eight encounters of [order8], and a world whose
    upstream knows the character of [character_sample] by name and by the
    id 64213375, answers every other id query with no character, and
    reports the kills of [kills_2H_5NM]. *)
Definition season8 : Enrich.SeasonConfig :=
  Enrich.mkSeasonConfig "Tier" 44 order8 names8 "2025-01-01 00:00:00".

Definition world_found (now' : Z) : Enrich.World :=
  {| Enrich.WCL_CLIENT_ID := Some "id";
     Enrich.WCL_CLIENT_SECRET := Some "secret";
     Enrich.newURL := Parser.URL_plain;
     Enrich.now := now';
     Enrich.parseDate := Cache.parseUTC;
     Enrich.storeReachable := true;
     Enrich.getActiveSeasonConfig := Ok (Some season8);
     Enrich.tokenExchange := Client.TokenResponse true 200 "OK" "token";
     Enrich.characterQuery :=
       fun _ _ _ => Client.QueryAnswer (Some character_sample) None;
     Enrich.characterByIdQuery :=
       fun characterId =>
         if String.eqb characterId "64213375"
         then Client.QueryAnswer (Some character_sample) None
         else Client.QueryAnswer None None;
     Enrich.fetchCharacterZoneProgression := fun _ _ _ _ => inr kills_2H_5NM |}.

(** Zone rankings at Heroic difficulty: two entries for the encounter
    103, one for 106, and one without kills for 107. *)
Definition zone_sample : ZoneProgression.ZoneRankings :=
  ZoneProgression.mkZoneRankings 4
    (Some [ ZoneProgression.mkZoneRanking (Some 103%Z) (Some "Third") (Some 2%Z);
            ZoneProgression.mkZoneRanking (Some 106%Z) (Some "Sixth") (Some 1%Z);
            ZoneProgression.mkZoneRanking (Some 107%Z) (Some "Seventh") (Some 0%Z);
            ZoneProgression.mkZoneRanking (Some 103%Z) (Some "Third") (Some 1%Z) ]).

(** A table of two season configurations, the second one active, and
    the data of a third one to be saved as the active one. *)
Definition season_table : SeasonConfigService.Table :=
  SeasonConfigService.mkTable
    [ SeasonConfigService.mkSeasonConfig 1 "Old tier"
        "https://www.warcraftlogs.com/zone/rankings/38" 38 [] [] false
        "2024-01-01 00:00:00" "2024-01-01 00:00:00";
      SeasonConfigService.mkSeasonConfig 2 "Tier"
        "https://www.warcraftlogs.com/zone/rankings/44" 44 order8 names8 true
        "2025-01-01 00:00:00" "2025-01-01 00:00:00" ]
    2.

Definition season_save : SeasonConfigService.SeasonConfigCreate :=
  SeasonConfigService.mkCreate "New tier"
    "https://www.warcraftlogs.com/zone/rankings/50" 50 [201; 202]%Z
    [BestKill.mkEncounterInfo 201 "First"; BestKill.mkEncounterInfo 202 "Second"]
    (Some true).

Definition season_activate : SeasonConfigService.SeasonConfigUpdate :=
  SeasonConfigService.mkUpdate None None None None None (Some true).

(** The row of [testchar_row] again under the season ['s1'], and a store
    that holds both. *)
Definition testchar_row_s1 : Cache.Row :=
  Cache.mkRow 2 None "US" "area-52" "Testchar" "s1" (Some testchar_card)
              (Some 0%Z) None Cache.complete None 0 0.

Definition store_two_seasons : Cache.Store :=
  Cache.mkStore
    {[ testchar_key := testchar_row;
       ("US", "area-52", "Testchar", "s1") := testchar_row_s1 ]} 2.

Definition request_by_id (characterId : string) : Enrich.RequestBody :=
  {| Enrich.body_warcraftLogsUrl :=
       Some ("https://www.warcraftlogs.com/character/id/" +:+ characterId);
     Enrich.body_seasonKey := None;
     Enrich.body_forceRefresh := false |}.

(** Three upserts on the empty table, at 1.5 s, 2.5 s and 3.5 s: the
    first creates the row of [testchar_key], the second the row of another
    character, the third updates the first row; and the tables they leave. *)
Definition failed_testchar : Cache.UpsertData :=
  Enrich.failedData "US" "area-52" "Testchar" "latest" "Upstream failed".

Definition failed_abcdef : Cache.UpsertData :=
  Enrich.failedData "EU" "tarren-mill" "Abcdef" "latest" "Upstream failed".

Definition abcdef_key : Cache.Key := ("EU", "tarren-mill", "Abcdef", "latest").

Definition row_created : Cache.Row :=
  Cache.mkRow 1 None "US" "area-52" "Testchar" "latest" (Some Cache.emptyCard)
              None None Cache.partial None 1000 1000.

Definition row_abcdef : Cache.Row :=
  Cache.mkRow 2 None "EU" "tarren-mill" "Abcdef" "latest" (Some Cache.emptyCard)
              None None Cache.failed (Some "Upstream failed") 2000 2000.

Definition row_updated : Cache.Row :=
  Cache.mkRow 1 None "US" "area-52" "Testchar" "latest" (Some Cache.emptyCard)
              None None Cache.failed (Some "Upstream failed") 1000 3000.

Definition store_one : Cache.Store :=
  Cache.mkStore {[ testchar_key := row_created ]} 1.

Definition store_two : Cache.Store :=
  Cache.mkStore {[ testchar_key := row_created; abcdef_key := row_abcdef ]} 2.

Definition store_two_updated : Cache.Store :=
  Cache.mkStore {[ testchar_key := row_updated; abcdef_key := row_abcdef ]} 2.

(** A profile path served from a host that merely contains the upstream's
    domain name. *)
Definition url_foreign_host : string :=
  "https://warcraftlogs.com.example.org/character/us/area-52/testchar".

End Examples.

(** * Properties *)

(** ** The class-name table *)

Lemma class_lookup_outside (i : Z) :
  (i < 1 \/ 13 < i)%Z -> ClassMap.WCL_CLASS_ID_TO_NAME !! i = None.
Proof.
  intros Hi. unfold ClassMap.WCL_CLASS_ID_TO_NAME. cbn [list_to_map foldr].
  rewrite !lookup_insert_ne by (cbn [fst]; lia). apply lookup_empty.
Qed.

(** C10: [getWCLClassName] is a total function on the integers: it returns
    the table's name for the indices 1..13 (1 Death Knight, 2 Druid,
    6 Paladin, 8 Rogue, 11 Warrior, 13 Evoker among them) and ['Unknown']
    for every index outside 1..13. *)
Theorem C10_getWCLClassName_total :
  map ClassMap.getWCLClassName [1; 2; 3; 4; 5; 6; 7; 8; 9; 10; 11; 12; 13]%Z
  = [ "Death Knight"; "Druid"; "Hunter"; "Mage"; "Monk"; "Paladin"; "Priest";
      "Rogue"; "Shaman"; "Warlock"; "Warrior"; "Demon Hunter"; "Evoker" ]
  /\ (forall i : Z, (1 <= i <= 13)%Z ->
        exists name, ClassMap.WCL_CLASS_ID_TO_NAME !! i = Some name
                     /\ ClassMap.getWCLClassName i = name
                     /\ name <> "Unknown")
  /\ (forall i : Z, (i < 1 \/ 13 < i)%Z -> ClassMap.getWCLClassName i = "Unknown").
Proof.
  split; [vm_compute; reflexivity |]. split.
  - intros i Hi.
    assert (Hcases : (i = 1 \/ i = 2 \/ i = 3 \/ i = 4 \/ i = 5 \/ i = 6 \/ i = 7
                      \/ i = 8 \/ i = 9 \/ i = 10 \/ i = 11 \/ i = 12 \/ i = 13)%Z) by lia.
    repeat (destruct Hcases as [-> | Hcases]); try subst i;
      (eexists; split; [vm_compute; reflexivity | split; [vm_compute; reflexivity | discriminate]]).
  - intros i Hi. unfold ClassMap.getWCLClassName.
    now rewrite class_lookup_outside.
Qed.

Lemma C10_getWCLClassName_total_witness :
  ClassMap.getWCLClassName 0 = "Unknown"
  /\ ClassMap.getWCLClassName 14 = "Unknown"
  /\ ClassMap.getWCLClassName (-3) = "Unknown"
  /\ exists name, ClassMap.WCL_CLASS_ID_TO_NAME !! 8%Z = Some name
                  /\ ClassMap.getWCLClassName 8 = name /\ name <> "Unknown".
Proof.
  destruct C10_getWCLClassName_total as (_ & Hin & Hout).
  split; [apply Hout; lia |].
  split; [apply Hout; lia |].
  split; [apply Hout; lia |].
  apply Hin; lia.
Defined.

(** ** Staleness *)

Lemma hours_positive : (0 < inject_Z (1000 * 60 * 60))%Q.
Proof. reflexivity. Qed.

Lemma hoursSinceUpdate_le (parseDate : Z -> Z) (now : Z) (c : Cache.Row) (h : Z) :
  (inject_Z h <= Cache.hoursSinceUpdate parseDate now c)%Q
  <-> (h * (1000 * 60 * 60) <= now - parseDate (Cache.updated_at c))%Z.
Proof.
  unfold Cache.hoursSinceUpdate.
  change (1000 * 60 * 60)%Z with 3600000%Z.
  unfold Qle, Qdiv, Qmult, Qinv, inject_Z. cbn [Qnum Qden]. lia.
Qed.

Lemma hoursSinceUpdate_mono (parseDate : Z -> Z) (now now' : Z) (c : Cache.Row) :
  (now <= now')%Z ->
  (Cache.hoursSinceUpdate parseDate now c <= Cache.hoursSinceUpdate parseDate now' c)%Q.
Proof.
  intros H. unfold Cache.hoursSinceUpdate, Qdiv.
  apply Qmult_le_compat_r.
  - rewrite <- Zle_Qle. lia.
  - apply Qlt_le_weak, Qinv_lt_0_compat, hours_positive.
Qed.

Lemma isCacheStale_hours (parseDate : Z -> Z) (now : Z) (c : Cache.Row) (h : Z) :
  Cache.isCacheStale parseDate now (Some c) (inject_Z h) = true
  <-> (h * 3600000 <= now - parseDate (Cache.updated_at c))%Z.
Proof.
  cbn [Cache.isCacheStale]. rewrite Qle_bool_iff, hoursSinceUpdate_le. reflexivity.
Qed.

Lemma DATETIME_bounds (now : Z) :
  (Cache.DATETIME now <= now < Cache.DATETIME now + 1000)%Z.
Proof.
  unfold Cache.DATETIME.
  pose proof (Z.mod_pos_bound now 1000 ltac:(lia)) as Hm.
  pose proof (Z.div_mod now 1000 ltac:(lia)) as Hd. lia.
Qed.

(** C6: [isCacheStale] measures the age of an entry from [new Date] of its
    [updated_at] text, which the platform reads as local time.  For a
    whole number of hours it answers [true] exactly when the time since
    that reading has reached the threshold (and always for a null entry),
    and it is monotone in the time of the call.  Where the zone of the
    process is UTC the claim's scenarios hold: an entry stamped by an
    update 7 hours ago is stale at 6 hours, one stamped 5 hours ago is
    not.  Where local time is [offset] ahead of UTC the age is measured
    too long by [offset]: in a process five hours behind UTC an entry
    updated 7 hours ago is not stale at 6 hours. *)
Theorem C6_isCacheStale_reads_updated_at_as_local_time :
  (forall (parseDate : Z -> Z) (now : Z) (c : Cache.Row) (h : Z),
      Cache.isCacheStale parseDate now (Some c) (inject_Z h) = true
      <-> (h * 3600000 <= now - parseDate (Cache.updated_at c))%Z)
  /\ (forall (parseDate : Z -> Z) (now : Z) (maxAgeHours : Q),
         Cache.isCacheStale parseDate now None maxAgeHours = true)
  /\ (forall (parseDate : Z -> Z) (now now' : Z) (cache : option Cache.Row)
             (maxAgeHours : Q),
         (now <= now')%Z ->
         Cache.isCacheStale parseDate now cache maxAgeHours = true ->
         Cache.isCacheStale parseDate now' cache maxAgeHours = true)
  /\ (forall (written now : Z) (c : Cache.Row),
         Cache.updated_at c = Cache.DATETIME written ->
         (now - written = 7 * 3600000)%Z ->
         Cache.isCacheStale Cache.parseUTC now (Some c) 6 = true)
  /\ (forall (written now : Z) (c : Cache.Row),
         Cache.updated_at c = Cache.DATETIME written ->
         (now - written = 5 * 3600000)%Z ->
         Cache.isCacheStale Cache.parseUTC now (Some c) 6 = false)
  /\ (forall (offset now : Z) (c : Cache.Row) (h : Z),
         Cache.isCacheStale (Cache.parseLocal offset) now (Some c) (inject_Z h) = true
         <-> (h * 3600000 <= now - Cache.updated_at c + offset)%Z)
  /\ (forall (written now : Z) (c : Cache.Row),
         Cache.updated_at c = Cache.DATETIME written ->
         (now - written = 7 * 3600000)%Z ->
         Cache.isCacheStale (Cache.parseLocal (-5 * 3600000)) now (Some c) 6 = false)
  /\ Cache.updated_at Examples.testchar_row = Cache.DATETIME 0
  /\ Cache.isCacheStale Examples.parseDate_UTC_minus_5 (7 * Examples.hour)
                        (Some Examples.testchar_row) 6 = false
  /\ Cache.isCacheStale Cache.parseUTC (7 * Examples.hour)
                        (Some Examples.testchar_row) 6 = true.
Proof.
  assert (Hfalse : forall parseDate now c (h : Z),
             (now - parseDate (Cache.updated_at c) < h * 3600000)%Z ->
             Cache.isCacheStale parseDate now (Some c) (inject_Z h) = false).
  { intros parseDate now c h Hlt.
    destruct (Cache.isCacheStale parseDate now (Some c) (inject_Z h)) eqn:E;
      [| reflexivity].
    apply isCacheStale_hours in E. lia. }
  split; [exact isCacheStale_hours |].
  split; [reflexivity |].
  split.
  { intros parseDate now now' cache maxAgeHours Hle.
    destruct cache as [c |]; cbn [Cache.isCacheStale]; [| reflexivity].
    intros H. apply Qle_bool_iff in H. apply Qle_bool_iff.
    eapply Qle_trans; [exact H |]. now apply hoursSinceUpdate_mono. }
  split.
  { intros written now c Hc Hage. apply (isCacheStale_hours _ now c 6%Z).
    unfold Cache.parseUTC, Cache.parseLocal. rewrite Hc.
    pose proof (DATETIME_bounds written). lia. }
  split.
  { intros written now c Hc Hage. apply (Hfalse _ now c 6%Z).
    unfold Cache.parseUTC, Cache.parseLocal. rewrite Hc.
    pose proof (DATETIME_bounds written). lia. }
  split.
  { intros offset now c h. rewrite isCacheStale_hours.
    unfold Cache.parseLocal. lia. }
  split.
  { intros written now c Hc Hage. apply (Hfalse _ now c 6%Z).
    unfold Cache.parseLocal. rewrite Hc.
    pose proof (DATETIME_bounds written). lia. }
  split; [reflexivity |].
  split; vm_compute; reflexivity.
Qed.

(** ** The best-kill resolver *)

Section BestKillFacts.

Import BestKill.

Lemma harder_fold_some (ks : list Kill) :
  forall a, exists d,
    fold_left harder ks (Some a) = Some d
    /\ (d = a \/ exists k, In k ks /\ DIFFICULTY_MAP (difficulty k) = Some d)
    /\ (DIFFICULTY_RANK a <= DIFFICULTY_RANK d)%Z
    /\ (forall k d', In k ks -> DIFFICULTY_MAP (difficulty k) = Some d' ->
                     (DIFFICULTY_RANK d' <= DIFFICULTY_RANK d)%Z).
Proof.
  induction ks as [| k ks IH]; intros a.
  - exists a. cbn. repeat split; [now left | lia | intros ? ? []].
  - cbn [fold_left]. unfold harder at 2.
    destruct (DIFFICULTY_MAP (difficulty k)) as [dk |] eqn:Ek.
    + destruct (DIFFICULTY_RANK a <? DIFFICULTY_RANK dk)%Z eqn:Elt.
      * apply Z.ltb_lt in Elt.
        destruct (IH dk) as (d & Hd & Hor & Hle & Hall).
        exists d. repeat split; [exact Hd | | lia |].
        -- right. destruct Hor as [-> | (k' & Hin & Hk')].
           ++ exists k. split; [now left | exact Ek].
           ++ exists k'. split; [now right | exact Hk'].
        -- intros k' d' [<- | Hin] Hk'; [| eauto].
           rewrite Ek in Hk'. injection Hk' as <-. exact Hle.
      * apply Z.ltb_ge in Elt.
        destruct (IH a) as (d & Hd & Hor & Hle & Hall).
        exists d. repeat split; [exact Hd | | exact Hle |].
        -- destruct Hor as [-> | (k' & Hin & Hk')]; [now left |].
           right. exists k'. split; [now right | exact Hk'].
        -- intros k' d' [<- | Hin] Hk'; [| eauto].
           rewrite Ek in Hk'. injection Hk' as <-. lia.
    + destruct (IH a) as (d & Hd & Hor & Hle & Hall).
      exists d. repeat split; [exact Hd | | exact Hle |].
      * destruct Hor as [-> | (k' & Hin & Hk')]; [now left |].
        right. exists k'. split; [now right | exact Hk'].
      * intros k' d' [<- | Hin] Hk'; [congruence | eauto].
Qed.

(** [hardestOf] finds the hardest ranked difficulty, and finds nothing
    only when no kill has a ranked difficulty. *)
Lemma hardestOf_spec (ks : list Kill) :
  match hardestOf ks with
  | Some d => hardest_among ks d
  | None => forall k, In k ks -> DIFFICULTY_MAP (difficulty k) = None
  end.
Proof.
  unfold hardestOf. induction ks as [| k ks IH]; cbn [fold_left].
  - intros k [].
  - unfold harder at 2.
    destruct (DIFFICULTY_MAP (difficulty k)) as [dk |] eqn:Ek.
    + destruct (harder_fold_some ks dk) as (d & -> & Hor & Hle & Hall).
      split.
      * destruct Hor as [-> | (k' & Hin & Hk')].
        -- exists k. split; [now left | exact Ek].
        -- exists k'. split; [now right | exact Hk'].
      * intros k' d' [<- | Hin] Hk'; [| eauto].
        rewrite Ek in Hk'. injection Hk' as <-. exact Hle.
    + destruct (fold_left harder ks None) as [d |].
      * destruct IH as [(k' & Hin & Hk') Hall]. split.
        -- exists k'. split; [now right | exact Hk'].
        -- intros k'' d' [<- | Hin'] Hk''; [congruence | eauto].
      * intros k' [<- | Hin]; [exact Ek | now apply IH].
Qed.

Variable progression : Progression.
Variable encounterNames : list EncounterInfo.

Lemma scan_unranked (x : Z) (shallower : list Z) :
  hasRankedKill progression x = false ->
  scan progression encounterNames (x :: shallower)
  = scan progression encounterNames shallower.
Proof.
  unfold hasRankedKill. cbn [scan].
  destruct (findEncounter progression x) as [e |]; [| reflexivity].
  intros Hnone. destruct (length (kills e) =? 0)%nat; [reflexivity |].
  pose proof (hardestOf_spec (kills e)) as Hspec.
  destruct (hardestOf (kills e)) as [d |]; [| reflexivity].
  destruct Hspec as [(k & Hin & Hk) _].
  assert (Htrue : existsb (fun k => match DIFFICULTY_MAP (difficulty k) with
                                    | Some _ => true
                                    | None => false
                                    end) (kills e) = true).
  { apply existsb_exists. exists k. split; [exact Hin | now rewrite Hk]. }
  congruence.
Qed.

Lemma scan_skip (deeper rest : list Z) :
  (forall y, In y deeper -> hasRankedKill progression y = false) ->
  scan progression encounterNames (deeper ++ rest)
  = scan progression encounterNames rest.
Proof.
  induction deeper as [| y deeper IH]; intros Hall; [reflexivity |].
  cbn [app]. rewrite scan_unranked by (apply Hall; now left).
  apply IH. intros z Hz. apply Hall. now right.
Qed.

Lemma scan_ranked (x : Z) (shallower : list Z) :
  hasRankedKill progression x = true ->
  exists e d,
    findEncounter progression x = Some e
    /\ hardest_among (kills e) d
    /\ scan progression encounterNames (x :: shallower)
       = Some {| bossId := x;
                 bossName := bossNameOf encounterNames x;
                 bestDifficulty := d;
                 orderIndex := length shallower |}.
Proof.
  unfold hasRankedKill. cbn [scan].
  destruct (findEncounter progression x) as [e |]; [| discriminate].
  intros Hex. apply existsb_exists in Hex. destruct Hex as (k & Hin & Hk).
  destruct (length (kills e) =? 0)%nat eqn:Elen.
  { apply Nat.eqb_eq in Elen. destruct (kills e); [destruct Hin | discriminate]. }
  pose proof (hardestOf_spec (kills e)) as Hspec.
  destruct (hardestOf (kills e)) as [d |].
  - exists e, d. repeat split; apply Hspec.
  - rewrite (Hspec k Hin) in Hk. discriminate.
Qed.

Lemma rev_at_index (encounterOrder : list Z) (i : nat) (x : Z) :
  encounterOrder !! i = Some x ->
  rev encounterOrder
  = (rev (drop (S i) encounterOrder) ++ x :: rev (take i encounterOrder))%list
  /\ length (rev (take i encounterOrder)) = i.
Proof.
  intros Hi. split.
  - rewrite <- (take_drop_middle encounterOrder i x Hi) at 1.
    rewrite rev_app_distr. cbn [rev]. now rewrite <- app_assoc.
  - rewrite length_rev, length_take.
    apply lookup_lt_Some in Hi. lia.
Qed.

Lemma in_drop_deeper (encounterOrder : list Z) (i : nat) (y : Z) :
  In y (rev (drop (S i) encounterOrder)) ->
  exists j, (i < j)%nat /\ encounterOrder !! j = Some y.
Proof.
  intros Hin. apply in_rev in Hin. apply list_elem_of_In in Hin.
  apply list_elem_of_lookup in Hin. destruct Hin as (j & Hj).
  rewrite lookup_drop in Hj. exists (S i + j)%nat. split; [lia | exact Hj].
Qed.

End BestKillFacts.

(** C3 (as amended): [computeBestBossKill] scans [encounterOrder] from the
    last index down to 0 and returns, for the first encounter that has a
    kill of a ranked difficulty (upstream codes 3, 4, 5), that encounter
    with its hardest such difficulty (Mythic > Heroic > Normal) and its
    order index; an encounter whose kills all carry other codes is passed
    over like one without kills.  It returns null when no encounter of
    the order has a ranked kill, in particular when none has any kill.
    For kills at index 2 (Heroic) and index 5 (Normal and Mythic) in an
    order of length 8 it returns index 5 at Mythic. *)
Theorem C3_computeBestBossKill_deepest_ranked :
  (forall (progression : BestKill.Progression) (encounterOrder : list Z)
          (encounterNames : list BestKill.EncounterInfo) (i : nat) (x : Z),
      encounterOrder !! i = Some x ->
      BestKill.hasRankedKill progression x = true ->
      (forall (j : nat) (y : Z), (i < j)%nat -> encounterOrder !! j = Some y ->
                                 BestKill.hasRankedKill progression y = false) ->
      exists e d,
        BestKill.findEncounter progression x = Some e
        /\ BestKill.hardest_among (BestKill.kills e) d
        /\ BestKill.computeBestBossKill progression encounterOrder encounterNames
           = Some {| BestKill.bossId := x;
                     BestKill.bossName := BestKill.bossNameOf encounterNames x;
                     BestKill.bestDifficulty := d;
                     BestKill.orderIndex := i |})
  /\ (forall (progression : BestKill.Progression) (encounterOrder : list Z)
             (encounterNames : list BestKill.EncounterInfo),
         (forall (i : nat) (x : Z), encounterOrder !! i = Some x ->
                                    BestKill.hasRankedKill progression x = false) ->
         BestKill.computeBestBossKill progression encounterOrder encounterNames = None)
  /\ (forall (progression : BestKill.Progression) (encounterOrder : list Z)
             (encounterNames : list BestKill.EncounterInfo),
         (forall (i : nat) (x : Z), encounterOrder !! i = Some x ->
                                    BestKill.hasKill progression x = false) ->
         BestKill.computeBestBossKill progression encounterOrder encounterNames = None)
  /\ BestKill.computeBestBossKill Examples.kills_2H_5NM Examples.order8 Examples.names8
     = Some {| BestKill.bossId := 106;
               BestKill.bossName := "Sixth";
               BestKill.bestDifficulty := BestKill.Mythic;
               BestKill.orderIndex := 5 |}.
Proof.
  assert (Hnone : forall progression encounterOrder encounterNames,
             (forall (i : nat) (x : Z), encounterOrder !! i = Some x ->
                                        BestKill.hasRankedKill progression x = false) ->
             BestKill.computeBestBossKill progression encounterOrder encounterNames = None).
  { intros progression encounterOrder encounterNames Hall.
    unfold BestKill.computeBestBossKill.
    destruct (length (BestKill.encounters progression) =? 0)%nat; [reflexivity |].
    rewrite <- (app_nil_r (rev encounterOrder)).
    rewrite scan_skip; [reflexivity |].
    intros y Hy. apply in_rev in Hy. apply list_elem_of_In in Hy.
    apply list_elem_of_lookup in Hy. destruct Hy as (j & Hj). eauto. }
  split; [| split; [exact Hnone | split; [| vm_compute; reflexivity]]].
  - intros progression encounterOrder encounterNames i x Hi Hx Hdeeper.
    destruct (rev_at_index encounterOrder i x Hi) as [Hrev Hlen].
    destruct (scan_ranked progression encounterNames x (rev (take i encounterOrder)) Hx)
      as (e & d & He & Hd & Hscan).
    exists e, d. split; [exact He | split; [exact Hd |]].
    unfold BestKill.computeBestBossKill.
    destruct (length (BestKill.encounters progression) =? 0)%nat eqn:Elen.
    { apply Nat.eqb_eq in Elen. unfold BestKill.findEncounter in He.
      destruct (BestKill.encounters progression); [discriminate | discriminate]. }
    rewrite Hrev, scan_skip.
    + rewrite Hscan, Hlen. reflexivity.
    + intros y Hy. apply in_drop_deeper in Hy. destruct Hy as (j & Hlt & Hj). eauto.
  - intros progression encounterOrder encounterNames Hall. apply Hnone.
    intros i x Hi. specialize (Hall i x Hi).
    unfold BestKill.hasKill in Hall. unfold BestKill.hasRankedKill.
    destruct (BestKill.findEncounter progression x) as [e |]; [| reflexivity].
    apply negb_false_iff, Nat.eqb_eq in Hall.
    destruct (BestKill.kills e); [reflexivity | discriminate].
Qed.

Lemma C3_computeBestBossKill_deepest_ranked_witness :
  exists e d,
    BestKill.findEncounter Examples.kills_2H_5other 103 = Some e
    /\ BestKill.hardest_among (BestKill.kills e) d
    /\ BestKill.computeBestBossKill Examples.kills_2H_5other Examples.order8
                                    Examples.names8
       = Some {| BestKill.bossId := 103;
                 BestKill.bossName := BestKill.bossNameOf Examples.names8 103;
                 BestKill.bestDifficulty := d;
                 BestKill.orderIndex := 2 |}.
Proof.
  apply (proj1 C3_computeBestBossKill_deepest_ranked
           Examples.kills_2H_5other Examples.order8 Examples.names8 2%nat 103%Z).
  - reflexivity.
  - reflexivity.
  - intros j y Hlt Hj.
    do 3 (destruct j as [| j]; [lia |]).
    do 5 (destruct j as [| j]; [injection Hj as <-; reflexivity |]).
    discriminate.
Defined.

(** C3 (as stated) fails: in an order of length 8 the deepest encounter
    with a recorded kill sits at index 5, its only kill carries the
    difficulty code 1, and the resolver returns the encounter at index 2. *)
Lemma C3_counterexample :
  Examples.order8 !! 5%nat = Some 106%Z
  /\ BestKill.hasKill Examples.kills_2H_5other 106 = true
  /\ BestKill.hasKill Examples.kills_2H_5other 107 = false
  /\ BestKill.hasKill Examples.kills_2H_5other 108 = false
  /\ BestKill.computeBestBossKill Examples.kills_2H_5other Examples.order8
                                  Examples.names8
     = Some {| BestKill.bossId := 103;
               BestKill.bossName := "Third";
               BestKill.bestDifficulty := BestKill.Heroic;
               BestKill.orderIndex := 2 |}.
Proof. repeat split; vm_compute; reflexivity. Qed.

(** ** First maxima and running maxima *)

Section FirstMaxFacts.

Context {A : Type} (le : A -> A -> bool).
Hypothesis le_total : forall a b, le a b = true \/ le b a = true.
Hypothesis le_trans : forall a b c, le a b = true -> le b c = true -> le a c = true.

Lemma le_refl_of_total (a : A) : le a a = true.
Proof using le_total. destruct (le_total a a); assumption. Qed.

Lemma find_ext_in (P Q : A -> bool) (l : list A) :
  (forall x, In x l -> P x = Q x) -> List.find P l = List.find Q l.
Proof.
  induction l as [| x l IH]; intros H; [reflexivity |].
  cbn [List.find]. rewrite (H x) by now left.
  destruct (Q x); [reflexivity |]. apply IH. intros y Hy. apply H. now right.
Qed.

Lemma first_max_cons_le (b x : A) (l : list A) :
  le x b = true ->
  Spec.first_max le (b :: x :: l) = Spec.first_max le (b :: l).
Proof using le_total le_trans.
  intros Hxb. unfold Spec.first_max, Spec.is_max.
  cbn [List.find forallb]. rewrite le_refl_of_total, Hxb. cbn [andb].
  destruct (forallb (fun y => le y b) l) eqn:Eb; [reflexivity |].
  assert (Hx : (le b x && (le x x && forallb (fun y => le y x) l)) = false).
  { destruct (forallb (fun y => le y x) l) eqn:Ex.
    - exfalso. rewrite forallb_forall in Ex.
      assert (forallb (fun y => le y b) l = true); [| congruence].
      apply forallb_forall. intros y Hy. eapply le_trans; [apply Ex, Hy | exact Hxb].
    - now rewrite !andb_false_r. }
  rewrite Hx. apply find_ext_in. intros r _.
  destruct (le b r) eqn:Ebr; [| reflexivity].
  now rewrite (le_trans x b r Hxb Ebr).
Qed.

Lemma first_max_cons_gt (b x : A) (l : list A) :
  le x b = false ->
  Spec.first_max le (b :: x :: l) = Spec.first_max le (x :: l).
Proof using le_total le_trans.
  intros Hxb. unfold Spec.first_max, Spec.is_max.
  cbn [List.find forallb]. rewrite Hxb, andb_false_r.
  assert (Hbx : le b x = true) by (destruct (le_total b x); congruence).
  rewrite Hbx. cbn [andb].
  destruct (le x x && forallb (fun y => le y x) l); [reflexivity |].
  apply find_ext_in. intros r _.
  destruct (le x r) eqn:Exr.
  - now rewrite (le_trans b x r Hbx Exr).
  - now rewrite andb_false_r.
Qed.

Lemma fold_keep_max (l : list A) :
  forall b, fold_left (Spec.keep_max le) l (Some b) = Spec.first_max le (b :: l).
Proof using le_total le_trans.
  induction l as [| x l IH]; intros b.
  - cbn. unfold Spec.first_max, Spec.is_max. cbn.
    now rewrite le_refl_of_total.
  - cbn [fold_left Spec.keep_max]. destruct (le x b) eqn:Exb.
    + rewrite IH. symmetry. now apply first_max_cons_le.
    + rewrite IH. symmetry. now apply first_max_cons_gt.
Qed.

Lemma fold_keep_max_none (l : list A) :
  fold_left (Spec.keep_max le) l None = Spec.first_max le l.
Proof using le_total le_trans.
  destruct l as [| x l]; [reflexivity |]. cbn [fold_left Spec.keep_max].
  apply fold_keep_max.
Qed.

(** What [first_max] returns: an element of the list that no element
    exceeds and that every earlier element stays strictly below. *)
Lemma first_max_Some (l : list A) (r : A) :
  Spec.first_max le l = Some r ->
  exists earlier later,
    l = (earlier ++ r :: later)%list
    /\ (forall y, In y l -> le y r = true)
    /\ (forall y, In y earlier -> le r y = false).
Proof using le_total le_trans.
  unfold Spec.first_max. intros Hfind.
  assert (Hgen : forall P l', List.find P l' = Some r ->
            exists earlier later, l' = (earlier ++ r :: later)%list /\ P r = true
                                  /\ forall y, In y earlier -> P y = false).
  { intros P l'. induction l' as [| x l' IH]; cbn [List.find]; [discriminate |].
    destruct (P x) eqn:Ex.
    - intros [= ->]. exists [], l'. repeat split; [exact Ex | intros y []].
    - intros H. destruct (IH H) as (earlier & later & -> & Hr & Hearlier).
      exists (x :: earlier), later. repeat split; [exact Hr |].
      intros y [<- | Hy]; [exact Ex | now apply Hearlier]. }
  destruct (Hgen _ _ Hfind) as (earlier & later & Hl & Hr & Hearlier).
  exists earlier, later. split; [exact Hl |].
  unfold Spec.is_max in Hr, Hearlier. rewrite forallb_forall in Hr.
  split; [exact Hr |].
  intros y Hy. destruct (le r y) eqn:Ery; [| reflexivity].
  exfalso. assert (forallb (fun z => le z y) l = true); [| now rewrite Hearlier in *].
  apply forallb_forall. intros z Hz. eapply le_trans; [apply Hr, Hz | exact Ery].
Qed.

Lemma first_max_None (l : list A) : Spec.first_max le l = None -> l = [].
Proof using le_total le_trans.
  rewrite <- fold_keep_max_none. destruct l as [| x l]; [reflexivity |].
  cbn [fold_left Spec.keep_max]. rewrite fold_keep_max.
  intros Hnone. exfalso. revert x Hnone.
  induction l as [| y l IH]; intros x.
  - unfold Spec.first_max, Spec.is_max. cbn. now rewrite le_refl_of_total.
  - destruct (le y x) eqn:Eyx.
    + rewrite first_max_cons_le by exact Eyx. apply IH.
    + rewrite first_max_cons_gt by exact Eyx. apply IH.
Qed.

End FirstMaxFacts.

(** ** Normalisation of the upstream answer *)

Lemma allRankingsOf_from (zones : list (option (list Client.Ranking))) :
  forall acc,
    fold_left
      (fun allRankings zoneData =>
         match zoneData with
         | Some rankings => (allRankings ++ rankings)%list
         | None => allRankings
         end) zones acc
    = (acc ++ Spec.flatten zones)%list.
Proof.
  unfold Spec.flatten.
  induction zones as [| z zones IH]; intros acc; cbn [fold_left map concat].
  - now rewrite app_nil_r.
  - rewrite IH. destruct z as [rankings |]; cbn [default].
    + now rewrite <- app_assoc.
    + reflexivity.
Qed.

Lemma allRankingsOf_flatten (zones : list (option (list Client.Ranking))) :
  Client.allRankingsOf zones = Spec.flatten zones.
Proof. unfold Client.allRankingsOf. now rewrite allRankingsOf_from. Qed.

Lemma le_rankPercent_total (x y : Client.Ranking) :
  Spec.le_rankPercent x y = true \/ Spec.le_rankPercent y x = true.
Proof.
  unfold Spec.le_rankPercent.
  destruct (Qlt_le_dec (Spec.rankPercentOf y) (Spec.rankPercentOf x)) as [Hlt | Hle].
  - right. apply Qle_bool_iff. now apply Qlt_le_weak.
  - left. now apply Qle_bool_iff.
Qed.

Lemma le_rankPercent_trans (x y z : Client.Ranking) :
  Spec.le_rankPercent x y = true -> Spec.le_rankPercent y z = true ->
  Spec.le_rankPercent x z = true.
Proof.
  unfold Spec.le_rankPercent. rewrite !Qle_bool_iff. apply Qle_trans.
Qed.

Lemma pickKill_keep_max (l : list Client.Ranking) :
  forall acc,
    (forall b, acc = Some b -> Spec.hasNonzeroRankPercent b = true) ->
    fold_left Client.pickKill l acc
    = fold_left (Spec.keep_max Spec.le_rankPercent)
                (List.filter Spec.hasNonzeroRankPercent l) acc.
Proof.
  induction l as [| x l IH]; intros acc Hacc; [reflexivity |].
  cbn [fold_left List.filter].
  destruct (Spec.hasNonzeroRankPercent x) eqn:Ehx.
  - assert (Ex : exists q, Client.truthy_rankPercent x = Some q).
    { unfold Spec.hasNonzeroRankPercent in Ehx.
      destruct (Client.truthy_rankPercent x) as [q |]; [now exists q | discriminate]. }
    destruct Ex as (q & Ex).
    assert (Hstep : Client.pickKill acc x = Spec.keep_max Spec.le_rankPercent acc x).
    { unfold Client.pickKill. rewrite Ex.
      destruct acc as [b |]; cbn [Spec.keep_max]; [| reflexivity].
      specialize (Hacc b eq_refl).
      unfold Spec.hasNonzeroRankPercent, Client.truthy_rankPercent in Hacc.
      unfold Spec.le_rankPercent, Spec.rankPercentOf.
      unfold Client.truthy_rankPercent in Ex.
      destruct (Client.rk_rankPercent b) as [qb |]; [| discriminate].
      destruct (Client.rk_rankPercent x) as [qx |]; [| discriminate].
      destruct (Qeq_bool qx 0); [discriminate |]. injection Ex as <-.
      cbn [default]. reflexivity. }
    cbn [fold_left]. rewrite Hstep. apply IH.
    intros b Hb. destruct acc as [b0 |]; cbn [Spec.keep_max] in Hb.
    + destruct (Spec.le_rankPercent x b0); injection Hb as <-;
        [now apply Hacc | exact Ehx].
    + injection Hb as <-. exact Ehx.
  - assert (Hstep : Client.pickKill acc x = acc).
    { unfold Client.pickKill. unfold Spec.hasNonzeroRankPercent in Ehx.
      destruct (Client.truthy_rankPercent x); [discriminate | reflexivity]. }
    rewrite Hstep. now apply IH.
Qed.

Lemma bestKillOf_spec (allRankings : list Client.Ranking) :
  Client.bestKillOf allRankings = Spec.bestKill allRankings.
Proof.
  unfold Client.bestKillOf, Spec.bestKill.
  rewrite pickKill_keep_max by discriminate.
  apply fold_keep_max_none.
  - exact le_rankPercent_total.
  - exact le_rankPercent_trans.
Qed.

Lemma in_firstSeen (l : list string) (y : string) : In y (Spec.firstSeen l) <-> In y l.
Proof.
  induction l as [| x l IH]; [reflexivity |]. cbn [Spec.firstSeen In].
  rewrite filter_In, IH, negb_true_iff, String.eqb_neq.
  destruct (string_dec x y) as [-> | Hne]; [tauto |]. tauto.
Qed.

Lemma NoDup_firstSeen (l : list string) : List.NoDup (Spec.firstSeen l).
Proof.
  induction l as [| x l IH]; cbn [Spec.firstSeen]; constructor.
  - rewrite filter_In, negb_true_iff, String.eqb_neq. tauto.
  - now apply List.NoDup_filter.
Qed.

Lemma filter_all_true {A} (p : A -> bool) (l : list A) :
  (forall y, In y l -> p y = true) -> List.filter p l = l.
Proof.
  induction l as [| x l IH]; intros H; [reflexivity |]. cbn [List.filter].
  rewrite (H x) by now left. f_equal. apply IH. intros y Hy. apply H. now right.
Qed.

Lemma firstSeen_snoc (l : list string) (s : string) :
  Spec.firstSeen (l ++ [s])
  = if in_dec string_dec s l then Spec.firstSeen l
    else (Spec.firstSeen l ++ [s])%list.
Proof.
  induction l as [| x l IH]; [reflexivity |].
  cbn [app Spec.firstSeen]. rewrite IH.
  destruct (in_dec string_dec s l) as [Hin | Hnin];
    destruct (in_dec string_dec s (x :: l)) as [Hin' | Hnin'].
  - reflexivity.
  - exfalso. apply Hnin'. now right.
  - destruct Hin' as [-> | Hin']; [| contradiction].
    rewrite List.filter_app. cbn [List.filter]. rewrite String.eqb_refl. cbn [negb].
    now rewrite app_nil_r.
  - rewrite List.filter_app. cbn [List.filter].
    assert (Hne : String.eqb x s = false).
    { apply String.eqb_neq. intros ->. apply Hnin'. now left. }
    now rewrite Hne.
Qed.

Lemma occurrences_snoc (s t : string) (l : list string) :
  Spec.occurrences s (l ++ [t])
  = (Spec.occurrences s l + if String.eqb s t then 1 else 0)%nat.
Proof.
  unfold Spec.occurrences. rewrite List.filter_app, length_app. cbn [List.filter].
  now destruct (String.eqb s t).
Qed.

Lemma occurrences_notin (s : string) (l : list string) :
  ~ In s l -> Spec.occurrences s l = 0%nat.
Proof.
  unfold Spec.occurrences. induction l as [| x l IH]; intros Hnin; [reflexivity |].
  cbn [List.filter].
  assert (Hne : String.eqb s x = false).
  { apply String.eqb_neq. intros ->. apply Hnin. now left. }
  rewrite Hne. apply IH. intros Hin. apply Hnin. now right.
Qed.

Lemma occurrences_in (s : string) (l : list string) :
  In s l -> (1 <= Spec.occurrences s l)%nat.
Proof.
  unfold Spec.occurrences. induction l as [| x l IH]; intros Hin; [destruct Hin |].
  cbn [List.filter]. destruct (String.eqb s x) eqn:E; cbn [length]; [lia |].
  apply IH. destruct Hin as [-> | Hin]; [| exact Hin].
  now rewrite String.eqb_refl in E.
Qed.

Lemma map_get_in (f : string -> nat) (ks : list string) (s : string) :
  In s ks -> Client.map_get s (map (fun k => (k, f k)) ks) = Some (f s).
Proof.
  induction ks as [| k ks IH]; intros Hin; [destruct Hin |].
  cbn [map Client.map_get]. destruct (String.eqb k s) eqn:E.
  - apply String.eqb_eq in E. now subst.
  - apply IH. destruct Hin as [-> | Hin]; [| exact Hin].
    now rewrite String.eqb_refl in E.
Qed.

Lemma map_get_notin (f : string -> nat) (ks : list string) (s : string) :
  ~ In s ks -> Client.map_get s (map (fun k => (k, f k)) ks) = None.
Proof.
  induction ks as [| k ks IH]; intros Hnin; [reflexivity |].
  cbn [map Client.map_get].
  assert (Hne : String.eqb k s = false).
  { apply String.eqb_neq. intros ->. apply Hnin. now left. }
  rewrite Hne. apply IH. intros Hin. apply Hnin. now right.
Qed.

Lemma map_set_in (f : string -> nat) (ks : list string) (s : string) (v : nat) :
  List.NoDup ks -> In s ks ->
  Client.map_set s v (map (fun k => (k, f k)) ks)
  = map (fun k => (k, if String.eqb k s then v else f k)) ks.
Proof.
  induction ks as [| k ks IH]; intros Hnd Hin; [destruct Hin |].
  inversion Hnd as [| ? ? Hk Hnd']; subst.
  cbn [map Client.map_set]. destruct (String.eqb k s) eqn:E.
  - apply String.eqb_eq in E. subst k. f_equal.
    apply map_ext_in. intros k Hkin.
    assert (Hne : String.eqb k s = false).
    { apply String.eqb_neq. intros ->. contradiction. }
    now rewrite Hne.
  - f_equal. apply IH; [exact Hnd' |].
    destruct Hin as [-> | Hin]; [| exact Hin]. now rewrite String.eqb_refl in E.
Qed.

Lemma map_set_notin (f : string -> nat) (ks : list string) (s : string) (v : nat) :
  ~ In s ks ->
  Client.map_set s v (map (fun k => (k, f k)) ks)
  = (map (fun k => (k, f k)) ks ++ [(s, v)])%list.
Proof.
  induction ks as [| k ks IH]; intros Hnin; [reflexivity |].
  cbn [map Client.map_set app].
  assert (Hne : String.eqb k s = false).
  { apply String.eqb_neq. intros ->. apply Hnin. now left. }
  rewrite Hne. f_equal. apply IH. intros Hin. apply Hnin. now right.
Qed.

(** The occurrence map after the values [seen]: one entry per distinct
    value, in first-seen order, with its number of occurrences. *)
Lemma specCounts_step (seen : list string) (s : string) :
  Client.map_set s
    (match Client.map_get s
             (map (fun k => (k, Spec.occurrences k seen)) (Spec.firstSeen seen)) with
     | Some n => n
     | None => 0
     end + 1)%nat
    (map (fun k => (k, Spec.occurrences k seen)) (Spec.firstSeen seen))
  = map (fun k => (k, Spec.occurrences k (seen ++ [s]))) (Spec.firstSeen (seen ++ [s])).
Proof.
  rewrite firstSeen_snoc.
  destruct (in_dec string_dec s seen) as [Hin | Hnin].
  - rewrite map_get_in by now apply in_firstSeen.
    rewrite map_set_in; [| apply NoDup_firstSeen | now apply in_firstSeen].
    apply map_ext. intros k. rewrite occurrences_snoc.
    destruct (String.eqb k s) eqn:E; [| now rewrite Nat.add_0_r].
    apply String.eqb_eq in E. now subst.
  - rewrite map_get_notin by now rewrite in_firstSeen.
    rewrite map_set_notin by now rewrite in_firstSeen.
    rewrite map_app. cbn [map]. f_equal.
    + apply map_ext_in. intros k Hk. rewrite occurrences_snoc.
      assert (Hne : String.eqb k s = false).
      { apply String.eqb_neq. intros ->. apply Hnin. now apply in_firstSeen. }
      now rewrite Hne, Nat.add_0_r.
    + rewrite occurrences_snoc, String.eqb_refl, occurrences_notin by exact Hnin.
      reflexivity.
Qed.

Lemma countSpec_fold (l : list Client.Ranking) :
  forall seen,
    fold_left Client.countSpec l
      (map (fun k => (k, Spec.occurrences k seen)) (Spec.firstSeen seen))
    = map (fun k => (k, Spec.occurrences k (seen ++ Spec.countedSpecs l)))
          (Spec.firstSeen (seen ++ Spec.countedSpecs l)).
Proof.
  unfold Spec.countedSpecs.
  induction l as [| r l IH]; intros seen.
  - cbn. now rewrite app_nil_r.
  - cbn [fold_left omap list_omap]. unfold Client.countSpec at 2.
    destruct (Client.truthy_spec r) as [s |].
    + rewrite specCounts_step, IH. now rewrite <- app_assoc.
    + apply IH.
Qed.

Lemma specCountsOf_counts (allRankings : list Client.Ranking) :
  Client.specCountsOf allRankings
  = map (fun k => (k, Spec.occurrences k (Spec.countedSpecs allRankings)))
        (Spec.firstSeen (Spec.countedSpecs allRankings)).
Proof. unfold Client.specCountsOf. exact (countSpec_fold allRankings []). Qed.

Lemma pickSpec_keep_max (f : string -> nat) (ks : list string) :
  (forall k, In k ks -> (1 <= f k)%nat) ->
  forall acc n,
    (acc = None /\ n = 0%nat) \/ (exists b, acc = Some b /\ n = f b) ->
    fst (fold_left Client.pickSpec (map (fun k => (k, f k)) ks) (acc, n))
    = fold_left (Spec.keep_max (fun s t => (f s <=? f t)%nat)) ks acc.
Proof.
  induction ks as [| k ks IH]; intros Hpos acc n Hinv; [reflexivity |].
  cbn [map fold_left]. unfold Client.pickSpec at 2. cbn [snd].
  assert (Hk : (1 <= f k)%nat) by (apply Hpos; now left).
  assert (Hpos' : forall k', In k' ks -> (1 <= f k')%nat)
    by (intros k' Hk'; apply Hpos; now right).
  destruct Hinv as [[-> ->] | (b & -> & ->)]; cbn [Spec.keep_max].
  - assert (E : (0 <? f k)%nat = true) by (apply Nat.ltb_lt; lia).
    rewrite E. apply IH; [exact Hpos' |]. right. now exists k.
  - destruct (f k <=? f b)%nat eqn:E.
    + assert (E' : (f b <? f k)%nat = false)
        by (apply Nat.ltb_ge; now apply Nat.leb_le).
      rewrite E'. apply IH; [exact Hpos' |]. right. now exists b.
    + assert (E' : (f b <? f k)%nat = true)
        by (apply Nat.ltb_lt; apply Nat.leb_gt in E; lia).
      rewrite E'. apply IH; [exact Hpos' |]. right. now exists k.
Qed.

Lemma find_filter_out {A} (P keep : A -> bool) (l : list A) :
  (forall y, In y l -> keep y = false -> P y = false) ->
  List.find P (List.filter keep l) = List.find P l.
Proof.
  induction l as [| y l IH]; intros H; [reflexivity |].
  cbn [List.filter List.find]. destruct (keep y) eqn:Ey.
  - cbn [List.find]. destruct (P y); [reflexivity |].
    apply IH. intros z Hz. apply H. now right.
  - rewrite (H y) by (now left || exact Ey).
    apply IH. intros z Hz. apply H. now right.
Qed.

Lemma find_firstSeen (P : string -> bool) (l : list string) :
  List.find P (Spec.firstSeen l) = List.find P l.
Proof.
  induction l as [| x l IH]; [reflexivity |].
  cbn [Spec.firstSeen List.find]. destruct (P x) eqn:Ex; [reflexivity |].
  rewrite find_filter_out; [exact IH |].
  intros y _ Hy. apply negb_false_iff, String.eqb_eq in Hy. now subst.
Qed.

Lemma first_max_firstSeen (le : string -> string -> bool) (l : list string) :
  Spec.first_max le (Spec.firstSeen l) = Spec.first_max le l.
Proof.
  unfold Spec.first_max. rewrite find_firstSeen. apply find_ext_in.
  intros r _. unfold Spec.is_max.
  destruct (forallb (fun y => le y r) l) eqn:E.
  - rewrite forallb_forall in E. apply forallb_forall.
    intros y Hy. apply E. now apply in_firstSeen.
  - destruct (forallb (fun y => le y r) (Spec.firstSeen l)) eqn:E'; [| reflexivity].
    rewrite forallb_forall in E'.
    assert (forallb (fun y => le y r) l = true); [| congruence].
    apply forallb_forall. intros y Hy. apply E'. now apply in_firstSeen.
Qed.

Lemma mostPlayedSpecOf_spec (allRankings : list Client.Ranking) :
  Client.mostPlayedSpecOf allRankings = Spec.mostPlayedSpec allRankings.
Proof.
  unfold Client.mostPlayedSpecOf, Spec.mostPlayedSpec.
  rewrite specCountsOf_counts.
  rewrite pickSpec_keep_max.
  - rewrite fold_keep_max_none.
    + apply first_max_firstSeen.
    + intros a b. unfold Spec.le_occurrences.
      destruct (Nat.le_ge_cases (Spec.occurrences a (Spec.countedSpecs allRankings))
                                (Spec.occurrences b (Spec.countedSpecs allRankings)));
        [left | right]; now apply Nat.leb_le.
    + intros a b c Hab Hbc. apply Nat.leb_le in Hab, Hbc.
      apply Nat.leb_le. lia.
  - intros k Hk. apply occurrences_in. now apply in_firstSeen.
  - now left.
Qed.

Lemma reportBestKill_returns (bestKill : option Client.Ranking) :
  is_ok (Client.reportBestKill bestKill) = true
  <-> forall r d, bestKill = Some r -> Client.rk_killDate r = Some d ->
                  (Z.abs d <= Js.MAX_TIME_VALUE)%Z.
Proof.
  destruct bestKill as [r |]; cbn [Client.reportBestKill is_ok];
    [| split; [intros _ r d Hr; discriminate | reflexivity]].
  unfold Client.reportKill, Client.killDateOf, Js.toISOString.
  destruct (Client.rk_killDate r) as [d |] eqn:Hk; cbn [is_ok];
    [| split; [intros _ r' d' [= <-] Hd; congruence | reflexivity]].
  destruct (Z.eqb_spec d 0) as [-> | Hd]; cbn [is_ok].
  - split; [| reflexivity]. intros _ r' d' [= <-] Hd'.
    rewrite Hk in Hd'. injection Hd' as <-. unfold Js.MAX_TIME_VALUE. lia.
  - destruct (Z.leb_spec (Z.abs d) Js.MAX_TIME_VALUE) as [Hle | Hgt]; cbn [is_ok].
    + split; [| reflexivity]. intros _ r' d' [= <-] Hd'.
      rewrite Hk in Hd'. now injection Hd' as <-.
    + split; [discriminate |]. intros H. specialize (H r d eq_refl Hk). lia.
Qed.

(** C5 (as amended): the normalisation flattens the ranking entries of
    all zones into one list; the reported most-played spec is the spec
    value with the highest occurrence count, first-seen winning ties; the
    class name comes from the class-name table; and the reported best kill
    is the first entry with the highest rank percentile among the entries
    whose rank percentile is present and not zero (the guard of the loop
    passes over a missing or zero value), null when there is none.  The
    normalisation returns unless that entry carries a kill date beyond
    the range of [Date], on which the report of the kill throws. *)
Theorem C5_parseWarcraftLogsResponse_normalisation :
  forall character : Client.Character,
    let allRankings := Spec.flatten (Client.ch_zoneRankings character) in
    Client.allRankingsOf (Client.ch_zoneRankings character) = allRankings
    /\ match Client.parseWarcraftLogsResponse character with
       | Ok parsed =>
           Client.mostPlayedSpec parsed = Spec.mostPlayedSpec allRankings
           /\ Client.spec parsed = Spec.mostPlayedSpec allRankings
           /\ Ok (Client.bestKillLatestSeason parsed)
              = Client.reportBestKill (Spec.bestKill allRankings)
           /\ Client.class parsed
              = Some (ClassMap.getWCLClassName (Client.ch_classID character))
       | Throw m => Client.reportBestKill (Spec.bestKill allRankings) = Throw m
       end
    /\ (is_ok (Client.parseWarcraftLogsResponse character) = true
        <-> forall r d, Spec.bestKill allRankings = Some r ->
                        Client.rk_killDate r = Some d ->
                        (Z.abs d <= Js.MAX_TIME_VALUE)%Z)
    /\ (forall s, Spec.mostPlayedSpec allRankings = Some s ->
          exists earlier later,
            Spec.countedSpecs allRankings = (earlier ++ s :: later)%list
            /\ (forall t, In t (Spec.countedSpecs allRankings) ->
                  (Spec.occurrences t (Spec.countedSpecs allRankings)
                   <= Spec.occurrences s (Spec.countedSpecs allRankings))%nat)
            /\ (forall t, In t earlier ->
                  (Spec.occurrences t (Spec.countedSpecs allRankings)
                   < Spec.occurrences s (Spec.countedSpecs allRankings))%nat))
    /\ (forall r, Spec.bestKill allRankings = Some r ->
          exists earlier later,
            List.filter Spec.hasNonzeroRankPercent allRankings
            = (earlier ++ r :: later)%list
            /\ (forall x, In x allRankings -> Spec.hasNonzeroRankPercent x = true ->
                  (Spec.rankPercentOf x <= Spec.rankPercentOf r)%Q)
            /\ (forall x, In x earlier ->
                  (Spec.rankPercentOf x < Spec.rankPercentOf r)%Q)).
Proof.
  intros character allRankings. subst allRankings.
  split; [apply allRankingsOf_flatten |].
  split.
  { unfold Client.parseWarcraftLogsResponse.
    rewrite allRankingsOf_flatten, mostPlayedSpecOf_spec, bestKillOf_spec.
    destruct (Client.reportBestKill
                (Spec.bestKill (Spec.flatten (Client.ch_zoneRankings character))))
      as [reported | m]; [| reflexivity].
    cbn [Client.mostPlayedSpec Client.spec Client.bestKillLatestSeason Client.class].
    repeat split. }
  split.
  { rewrite <- reportBestKill_returns.
    unfold Client.parseWarcraftLogsResponse.
    rewrite allRankingsOf_flatten, bestKillOf_spec.
    destruct (Client.reportBestKill
                (Spec.bestKill (Spec.flatten (Client.ch_zoneRankings character))));
      reflexivity. }
  split.
  - intros s Hs. unfold Spec.mostPlayedSpec in Hs.
    apply first_max_Some in Hs.
    + destruct Hs as (earlier & later & Heq & Hmax & Hearlier).
      exists earlier, later. split; [exact Heq |]. split.
      * intros t Ht. apply Nat.leb_le. now apply Hmax.
      * intros t Ht. specialize (Hearlier t Ht).
        unfold Spec.le_occurrences in Hearlier. now apply Nat.leb_gt in Hearlier.
    + intros a b. unfold Spec.le_occurrences.
      match goal with |- (?x <=? ?y)%nat = true \/ _ =>
        destruct (Nat.le_ge_cases x y); [left | right]; now apply Nat.leb_le end.
    + intros a b c Hab Hbc. apply Nat.leb_le in Hab, Hbc. apply Nat.leb_le. lia.
  - intros r Hr. unfold Spec.bestKill in Hr.
    apply first_max_Some in Hr;
      [| exact le_rankPercent_total | exact le_rankPercent_trans].
    destruct Hr as (earlier & later & Heq & Hmax & Hearlier).
    exists earlier, later. split; [exact Heq |]. split.
    + intros x Hx Hnz. apply Qle_bool_iff. apply Hmax.
      apply filter_In. now split.
    + intros x Hx. specialize (Hearlier x Hx).
      unfold Spec.le_rankPercent in Hearlier.
      apply Qnot_le_lt. intros Hle. apply Qle_bool_iff in Hle. congruence.
Qed.

Lemma C5_parseWarcraftLogsResponse_normalisation_witness :
  exists parsed,
    Client.parseWarcraftLogsResponse Examples.character_sample = Ok parsed
    /\ Client.spec parsed = Some "Outlaw"
    /\ Ok (Client.bestKillLatestSeason parsed)
       = Client.reportBestKill (Some Examples.ranking_b)
    /\ Client.class parsed = Some "Rogue"
    /\ Client.reportBestKill
         (Spec.bestKill (Spec.flatten (Client.ch_zoneRankings Examples.character_undated)))
       = Throw "Invalid time value".
Proof.
  pose proof (C5_parseWarcraftLogsResponse_normalisation Examples.character_undated)
    as Hundated.
  cbv zeta in Hundated. destruct Hundated as (_ & Hundated & _).
  pose proof (C5_parseWarcraftLogsResponse_normalisation Examples.character_sample)
    as H.
  cbv zeta in H. destruct H as (_ & H & _).
  destruct (Client.parseWarcraftLogsResponse Examples.character_sample)
    as [parsed | m] eqn:E.
  - exists parsed. destruct H as (_ & Hspec & Hkill & Hclass).
    split; [reflexivity |].
    rewrite Hspec, Hkill, Hclass.
    split; [vm_compute; reflexivity |].
    split; [vm_compute; reflexivity |].
    split; [vm_compute; reflexivity |].
    destruct (Client.parseWarcraftLogsResponse Examples.character_undated)
      as [parsed' | m'] eqn:E'.
    + vm_compute in E'. discriminate E'.
    + vm_compute in E'. injection E' as <-. exact Hundated.
  - vm_compute in E. discriminate E.
Defined.

(** C5 (as stated) fails: the only ranking entry of the answer has the
    rank percentile 0, which is the highest value among the entries, and
    the normalisation reports no best kill. *)
Lemma C5_counterexample :
  Spec.flatten (Client.ch_zoneRankings Examples.character_zero)
  = [Examples.ranking_zero]
  /\ Spec.bestKill_stated [Examples.ranking_zero] = Some Examples.ranking_zero
  /\ exists parsed,
       Client.parseWarcraftLogsResponse Examples.character_zero = Ok parsed
       /\ Client.bestKillLatestSeason parsed = None.
Proof.
  split; [vm_compute; reflexivity |].
  split; [vm_compute; reflexivity |].
  eexists. split; [vm_compute; reflexivity | reflexivity].
Qed.


(** ** The cache *)

Lemma findCachedCharacter_Some (db : Cache.Store) (lookup : Cache.CharacterLookup)
  (c : Cache.Row) :
  Cache.findCachedCharacter db lookup = Some c ->
  exists row, Cache.rows db !! Cache.keyOf lookup = Some row /\ c = Cache.parseRow row.
Proof.
  unfold Cache.findCachedCharacter. intros H.
  destruct (Cache.rows db !! Cache.keyOf lookup) as [row |]; [| discriminate].
  injection H as <-. now exists row.
Qed.

Lemma findCachedCharacter_None (db : Cache.Store) (lookup : Cache.CharacterLookup) :
  Cache.findCachedCharacter db lookup = None ->
  Cache.rows db !! Cache.keyOf lookup = None.
Proof.
  unfold Cache.findCachedCharacter.
  destruct (Cache.rows db !! Cache.keyOf lookup); [discriminate | reflexivity].
Qed.

(** An upsert on an existing key that supplies no field writes nothing:
    the store, and with it [updated_at], stays as it was. *)
Lemma upsert_without_fields (now : Z) (db : Cache.Store) (data : Cache.UpsertData)
  (existing : Cache.Row) :
  Cache.findCachedCharacter db (Cache.lookupOf data) = Some existing ->
  Cache.noFields data = true ->
  Cache.upsertCacheEntry now db data = Ok (db, Some existing).
Proof.
  intros Hfind Hno. unfold Cache.upsertCacheEntry. cbv zeta.
  rewrite Hfind. unfold Cache.updateCacheEntry. now rewrite Hno, Hfind.
Qed.

(** An upsert on an existing key that supplies a field rewrites that row
    alone: the supplied fields take the new values, the others keep
    theirs, and [updated_at] is refreshed. *)
Lemma upsert_with_fields (now : Z) (db : Cache.Store) (data : Cache.UpsertData)
  (row : Cache.Row) :
  Cache.rows db !! Cache.keyOf (Cache.lookupOf data) = Some row ->
  Cache.noFields data = false ->
  exists db',
    Cache.upsertCacheEntry now db data
    = Ok (db', Some (Cache.parseRow (Cache.applyUpdates now data row)))
    /\ Cache.rows db' !! Cache.keyOf (Cache.lookupOf data)
       = Some (Cache.applyUpdates now data row)
    /\ (forall k, k <> Cache.keyOf (Cache.lookupOf data) ->
                  Cache.rows db' !! k = Cache.rows db !! k)
    /\ Cache.lastInsertRowid db' = Cache.lastInsertRowid db.
Proof.
  intros Hrow Hfields.
  unfold Cache.upsertCacheEntry, Cache.updateCacheEntry, Cache.findCachedCharacter.
  cbv zeta. rewrite Hrow. cbn [fmap option_fmap option_map]. rewrite Hfields.
  eexists. split.
  - cbn [Cache.rows]. rewrite lookup_alter_eq, Hrow. reflexivity.
  - cbn [Cache.rows Cache.lastInsertRowid]. split; [| split; [| reflexivity]].
    + now rewrite lookup_alter_eq, Hrow.
    + intros k Hk. now rewrite lookup_alter_ne.
Qed.

(** An upsert on an absent key inserts a row under that key and leaves
    the other rows alone. *)
Lemma upsert_absent_inserts (now : Z) (db : Cache.Store) (data : Cache.UpsertData) :
  Cache.rows db !! Cache.keyOf (Cache.lookupOf data) = None ->
  exists db' row,
    Cache.upsertCacheEntry now db data = Ok (db', Some (Cache.parseRow row))
    /\ Cache.rows db' !! Cache.keyOf (Cache.lookupOf data) = Some row
    /\ Cache.updated_at row = Cache.DATETIME now
    /\ Cache.created_at row = Cache.DATETIME now
    /\ (forall k, k <> Cache.keyOf (Cache.lookupOf data) ->
                  Cache.rows db' !! k = Cache.rows db !! k).
Proof.
  intros Hnone.
  unfold Cache.upsertCacheEntry, Cache.findCachedCharacter, Cache.createCacheEntry.
  cbv zeta. rewrite Hnone. cbn [fmap option_fmap option_map].
  change (Cache.d_region data, Cache.d_realm data, Cache.d_character_name data,
          Cache.seasonKeyOf (Cache.d_season_key data))
    with (Cache.keyOf (Cache.lookupOf data)).
  rewrite Hnone. eexists. eexists. split; [reflexivity |].
  cbn [Cache.rows]. split; [apply lookup_insert_eq |].
  split; [reflexivity |]. split; [reflexivity |].
  intros k Hk. now rewrite lookup_insert_ne.
Qed.

(** The fields an update does not supply keep their stored values. *)
Lemma applyUpdates_frame (now : Z) (updates : Cache.UpsertData) (row : Cache.Row) :
  Cache.id (Cache.applyUpdates now updates row) = Cache.id row
  /\ Cache.character_id (Cache.applyUpdates now updates row) = Cache.character_id row
  /\ Cache.created_at (Cache.applyUpdates now updates row) = Cache.created_at row
  /\ Cache.updated_at (Cache.applyUpdates now updates row) = Cache.DATETIME now
  /\ (Cache.d_player_card updates = None ->
      Cache.player_card (Cache.applyUpdates now updates row) = Cache.player_card row)
  /\ (Cache.d_wcl_last_fetched_at updates = None ->
      Cache.wcl_last_fetched_at (Cache.applyUpdates now updates row)
      = Cache.wcl_last_fetched_at row)
  /\ (Cache.d_blizzard_last_fetched_at updates = None ->
      Cache.blizzard_last_fetched_at (Cache.applyUpdates now updates row)
      = Cache.blizzard_last_fetched_at row)
  /\ (Cache.d_fetch_status updates = None ->
      Cache.fetch_status (Cache.applyUpdates now updates row) = Cache.fetch_status row)
  /\ (Cache.d_error_message updates = None ->
      Cache.error_message (Cache.applyUpdates now updates row) = Cache.error_message row).
Proof.
  unfold Cache.applyUpdates. cbn.
  repeat split; intros ->; reflexivity.
Qed.

(** C8: evaluated at an upsert that names an existing key and supplies no
    field, nine hours after the row was written: [updateCacheEntry]
    returns before the [UPDATE], so the stored row keeps its old
    [updated_at] and the store is unchanged. *)
Theorem C8_upsert_key_only_keeps_updated_at :
  Cache.findCachedCharacter Examples.store_with_testchar
                            (Cache.lookupOf Examples.key_only_data)
  = Some (Cache.parseRow Examples.testchar_row)
  /\ Cache.upsertCacheEntry (9 * Examples.hour) Examples.store_with_testchar
                            Examples.key_only_data
     = Ok (Examples.store_with_testchar, Some (Cache.parseRow Examples.testchar_row))
  /\ Cache.updated_at <$> (Cache.rows Examples.store_with_testchar !! Examples.testchar_key)
     = Some 0%Z.
Proof.
  assert (Hfind : Cache.findCachedCharacter Examples.store_with_testchar
                    (Cache.lookupOf Examples.key_only_data)
                  = Some (Cache.parseRow Examples.testchar_row))
    by (vm_compute; reflexivity).
  split; [exact Hfind |]. split.
  - apply upsert_without_fields; [exact Hfind | reflexivity].
  - vm_compute. reflexivity.
Qed.

(** ** The request handler *)

Lemma parse_ok_truthy (newURL : string -> option Parser.URL) (url : string)
  (p : Parser.ParsedWarcraftLogsUrl) :
  Parser.parseWarcraftLogsCharacterUrl newURL (Some url) = Ok p ->
  Js.truthy url = true.
Proof.
  unfold Parser.parseWarcraftLogsCharacterUrl.
  destruct (Js.truthy url); [reflexivity | discriminate].
Qed.

(** The pre-flight check: without credentials every request is answered
    503 and the store is not touched. *)
Lemma POST_unconfigured (w : Enrich.World) (db : Cache.Store)
  (body : option Enrich.RequestBody) :
  Enrich.isWarcraftLogsConfigured w = false ->
  Enrich.POST w db body
  = (Api.errorResponse
       (Api.ErrString "Warcraft Logs API credentials not configured. Please contact administrator.")
       (Some Api.SERVICE_UNAVAILABLE), db).
Proof. intros H. unfold Enrich.POST. now rewrite H. Qed.

(** A request with credentials, a reachable store and a slug-form
    reference runs the slug branch. *)
Lemma POST_slug_form (w : Enrich.World) (db : Cache.Store) (b : Enrich.RequestBody)
  (url region realm characterName originalUrl : string) :
  Enrich.isWarcraftLogsConfigured w = true ->
  Enrich.storeReachable w = true ->
  Enrich.body_warcraftLogsUrl b = Some url ->
  Parser.parseWarcraftLogsCharacterUrl (Enrich.newURL w) (Some url)
  = Ok (Parser.Slug region realm characterName originalUrl) ->
  Enrich.POST w db (Some b)
  = Enrich.POST_slug w db region realm characterName originalUrl
      (default "latest" (Enrich.body_seasonKey b)) (Enrich.body_forceRefresh b)
      (match Enrich.getActiveSeasonConfig w with
       | Ok config => config
       | Throw _ => None
       end)
      (Enrich.updated_at <$> match Enrich.getActiveSeasonConfig w with
                             | Ok config => config
                             | Throw _ => None
                             end).
Proof.
  intros Hconf Hdb Hurl Hparse. unfold Enrich.POST.
  rewrite Hconf, Hdb, Hurl. cbn [negb].
  rewrite (parse_ok_truthy _ _ _ Hparse). cbn [negb].
  now rewrite Hparse.
Qed.

(** C1: evaluated at a slug-form request made without credentials while
    the store holds an entry under the resolved key (written seven hours
    earlier): the handler answers 503 without data at its pre-flight
    check, before the branch that would return the cached card. *)
Theorem C1_unconfigured_with_cache_is_refused :
  Parser.parseWarcraftLogsCharacterUrl
    (Enrich.newURL (Examples.world false (7 * Examples.hour)))
    (Some Examples.url_testchar)
  = Ok (Parser.Slug "US" "area-52" "Testchar" Examples.url_testchar)
  /\ Cache.findCachedCharacter Examples.store_with_testchar
       (Cache.mkLookup "US" "area-52" "Testchar" (Some "latest"))
     = Some (Cache.parseRow Examples.testchar_row)
  /\ Enrich.isWarcraftLogsConfigured (Examples.world false (7 * Examples.hour)) = false
  /\ Enrich.POST (Examples.world false (7 * Examples.hour))
                 Examples.store_with_testchar (Some (Examples.request false))
     = ({| Api.status := 503;
           Api.success := false;
           Api.message := Some "An unexpected error occurred";
           Api.data := None |},
        Examples.store_with_testchar).
Proof.
  split; [vm_compute; reflexivity |].
  split; [vm_compute; reflexivity |].
  split; [reflexivity |].
  rewrite POST_unconfigured by reflexivity. reflexivity.
Qed.

(** C9 (as amended): a slug-form request that finds a fresh cache entry
    is answered 200 with a card assembled from the cached record, and the
    store is left as it was.  The URL field echoes the request's URL; the
    character name, realm, region, update time, fetch status and error
    message are the columns of the cached row; class, spec, best kill,
    class-and-spec and avatar are read from the card stored in the row;
    and the season stamp is that of the active season configuration. *)
Theorem C9_fresh_cache_is_served
  (w : Enrich.World) (db : Cache.Store) (b : Enrich.RequestBody)
  (url region realm characterName originalUrl : string) (cached : Cache.Row) :
  Enrich.isWarcraftLogsConfigured w = true ->
  Enrich.storeReachable w = true ->
  Enrich.body_warcraftLogsUrl b = Some url ->
  Parser.parseWarcraftLogsCharacterUrl (Enrich.newURL w) (Some url)
  = Ok (Parser.Slug region realm characterName originalUrl) ->
  Enrich.body_forceRefresh b = false ->
  Cache.findCachedCharacter db
    (Cache.mkLookup region realm characterName
                    (Some (default "latest" (Enrich.body_seasonKey b))))
  = Some cached ->
  Cache.isCacheStale (Enrich.parseDate w) (Enrich.now w) (Some cached)
                     Enrich.CACHE_TTL_HOURS = false ->
  exists card,
    Enrich.POST w db (Some b)
    = ({| Api.status := 200;
          Api.success := true;
          Api.message := Some "Player card returned from cache";
          Api.data := Some card |}, db)
    /\ Enrich.warcraftLogsUrl card = originalUrl
    /\ Enrich.characterName card = Cache.character_name cached
    /\ Enrich.realm card = Cache.realm cached
    /\ Enrich.region card = Cache.region cached
    /\ Enrich.class card
       = Enrich.nonEmpty (Cache.pc_class (default Cache.emptyCard (Cache.player_card cached)))
    /\ Enrich.spec card
       = Enrich.nonEmpty (Cache.pc_spec (default Cache.emptyCard (Cache.player_card cached)))
    /\ Enrich.bestKillLatestSeason card
       = Cache.pc_bestKillLatestSeason (default Cache.emptyCard (Cache.player_card cached))
    /\ Enrich.classSpec card
       = Enrich.nonEmpty (Cache.pc_classSpec (default Cache.emptyCard (Cache.player_card cached)))
    /\ Enrich.avatarUrl card
       = Enrich.nonEmpty (Cache.pc_avatarUrl (default Cache.emptyCard (Cache.player_card cached)))
    /\ Enrich.fetchStatus card = Cache.fetch_status cached
    /\ Enrich.errorMessage card = Enrich.nonEmpty (Cache.error_message cached)
    /\ Enrich.updatedAt card = Cache.updated_at cached
    /\ Enrich.seasonConfigUpdatedAt card
       = Enrich.nonEmpty
           (Enrich.updated_at <$> match Enrich.getActiveSeasonConfig w with
                                  | Ok config => config
                                  | Throw _ => None
                                  end)
    /\ exists row,
         Cache.rows db !! (region, realm, characterName,
                           Cache.seasonKeyOf (Some (default "latest" (Enrich.body_seasonKey b))))
         = Some row
         /\ cached = Cache.parseRow row.
Proof.
  intros Hconf Hdb Hurl Hparse Hforce Hfind Hfresh.
  eexists. split.
  - rewrite (POST_slug_form w db b url region realm characterName originalUrl)
      by assumption.
    unfold Enrich.POST_slug. rewrite Hforce. cbn [negb]. rewrite Hfind.
    unfold Enrich.freshEntry. rewrite Hfresh. cbn [negb].
    reflexivity.
  - cbn. repeat (split; [reflexivity |]).
    apply findCachedCharacter_Some in Hfind. exact Hfind.
Qed.

Lemma C9_fresh_cache_is_served_witness :
  exists card,
    Enrich.POST (Examples.world_found (5 * Examples.hour))
                Examples.store_with_testchar (Some (Examples.request false))
    = ({| Api.status := 200;
          Api.success := true;
          Api.message := Some "Player card returned from cache";
          Api.data := Some card |}, Examples.store_with_testchar)
    /\ Enrich.warcraftLogsUrl card = Examples.url_testchar
    /\ Enrich.realm card = "area-52"
    /\ Enrich.class card = Some "Rogue"
    /\ Enrich.updatedAt card = 0%Z
    /\ Enrich.seasonConfigUpdatedAt card = Some "2025-01-01 00:00:00".
Proof.
  destruct (C9_fresh_cache_is_served
              (Examples.world_found (5 * Examples.hour)) Examples.store_with_testchar
              (Examples.request false) Examples.url_testchar
              "US" "area-52" "Testchar" Examples.url_testchar
              (Cache.parseRow Examples.testchar_row))
    as (card & Hpost & Hurl & _ & Hrealm & _ & Hclass & _ & _ & _ & _ & _ & _
        & Hupd & Hseason & _).
  - reflexivity.
  - reflexivity.
  - reflexivity.
  - vm_compute. reflexivity.
  - reflexivity.
  - vm_compute. reflexivity.
  - vm_compute. reflexivity.
  - exists card. split; [exact Hpost |]. split; [exact Hurl |].
    split; [exact Hrealm |]. split; [exact Hclass |].
    split; [exact Hupd | exact Hseason].
Defined.

(** C9 (as stated) fails.  A first request is enriched and writes the
    card it returns into the cache; a second request five hours later is
    served from that fresh entry.  The card of the second answer is not
    the stored card with its URL replaced: its realm is the slug of the
    row's key where the stored card has the realm's name, its update time
    is the row's whole-second stamp where the stored card has the time of
    the write to the millisecond. *)
Lemma C9_counterexample :
  exists card1 db1 card2,
    Enrich.POST (Examples.world_found 1500) Examples.empty_store
                (Some (Examples.request false))
    = (Api.successResponse card1 (Some "Player card enriched successfully"), db1)
    /\ (Cache.rows db1 !! Examples.testchar_key) ≫= Cache.player_card
       = Some (Enrich.toJson card1)
    /\ Enrich.POST (Examples.world_found (1500 + 5 * Examples.hour)) db1
                   (Some (Examples.request false))
       = (Api.successResponse card2 (Some "Player card returned from cache"), db1)
    /\ Enrich.toJson card2
       <> Spec.cachedCardWithUrl (Enrich.toJson card1) Examples.url_testchar
    /\ Enrich.realm card1 = "Area 52"
    /\ Enrich.realm card2 = "area-52"
    /\ Enrich.updatedAt card1 = 1500%Z
    /\ Enrich.updatedAt card2 = 1000%Z.
Proof.
  eexists. eexists. eexists.
  split; [vm_compute; reflexivity |].
  split; [vm_compute; reflexivity |].
  split; [vm_compute; reflexivity |].
  split; [vm_compute; discriminate |].
  repeat split.
Qed.

Lemma POST_slug_fetch_failed (w : Enrich.World) (db : Cache.Store)
  (region realm characterName originalUrl seasonKey : string) (forceRefresh : bool)
  (activeSeasonConfig : option Enrich.SeasonConfig)
  (seasonConfigUpdatedAt : option string) (e : Client.JsError) :
  Enrich.isWarcraftLogsConfigured w = true ->
  Enrich.freshEntry w
    (if negb forceRefresh
     then Cache.findCachedCharacter db
            (Cache.mkLookup region realm characterName (Some seasonKey))
     else None) = None ->
  Enrich.fetchWarcraftLogsCharacter w region realm characterName = inl e ->
  Enrich.POST_slug w db region realm characterName originalUrl seasonKey
                   forceRefresh activeSeasonConfig seasonConfigUpdatedAt
  = Enrich.onFetchError w db
      (if negb forceRefresh
       then Cache.findCachedCharacter db
              (Cache.mkLookup region realm characterName (Some seasonKey))
       else None)
      region realm characterName originalUrl seasonKey seasonConfigUpdatedAt e.
Proof.
  intros Hconf Hfresh Hfetch. unfold Enrich.POST_slug. cbv zeta.
  rewrite Hfresh, Hconf, Hfetch. reflexivity.
Qed.

(** C2 (as amended): for a slug-form request whose upstream fetch fails,
    what decides is the entry the cache lookup handed over, and the
    lookup is skipped when [forceRefresh] is set.  With an entry in hand,
    the stored record gets the fetch status [failed] and the error text
    (and a refreshed [updated_at]; other records are untouched) and the
    answer is 200 with the card built from the entry as it was read,
    annotated with the error message.  With no entry in hand the answer
    is 502 and the store is untouched; the message is the authentication
    notice for [WCL_OAUTH_FAILED], the request-failed notice for
    [WCL_GRAPHQL_FAILED] and [WCL_GRAPHQL_ERROR], the verify-your-identity
    notice for [WCL_CHARACTER_NOT_FOUND], and otherwise the generic notice
    with the error text, unless the text contains "not found", which
    also selects the verify-your-identity notice. *)
Theorem C2_fetch_failure_falls_back_to_cache
  (w : Enrich.World) (db : Cache.Store) (b : Enrich.RequestBody)
  (url region realm characterName originalUrl : string) (e : Client.JsError) :
  let seasonKey := default "latest" (Enrich.body_seasonKey b) in
  let cachedData :=
    if negb (Enrich.body_forceRefresh b)
    then Cache.findCachedCharacter db
           (Cache.mkLookup region realm characterName (Some seasonKey))
    else None in
  let seasonConfigUpdatedAt :=
    Enrich.updated_at <$> match Enrich.getActiveSeasonConfig w with
                          | Ok config => config
                          | Throw _ => None
                          end in
  let errorCode := Enrich.errorCodeOf e in
  let errorMessage :=
    Enrich.errorMessageOf "Unknown error fetching from Warcraft Logs" e in
  let key : Cache.Key :=
    (region, realm, characterName, Cache.seasonKeyOf (Some seasonKey)) in
  Enrich.isWarcraftLogsConfigured w = true ->
  Enrich.storeReachable w = true ->
  Enrich.body_warcraftLogsUrl b = Some url ->
  Parser.parseWarcraftLogsCharacterUrl (Enrich.newURL w) (Some url)
  = Ok (Parser.Slug region realm characterName originalUrl) ->
  Enrich.freshEntry w cachedData = None ->
  Enrich.fetchWarcraftLogsCharacter w region realm characterName = inl e ->
  (forall cached, cachedData = Some cached ->
     exists db' row,
       Enrich.POST w db (Some b)
       = ({| Api.status := 200;
             Api.success := true;
             Api.message := Some "Returning cached data (fetch failed)";
             Api.data :=
               Some (Enrich.withErrorMessage
                       (Enrich.buildPlayerCardFromCache cached originalUrl
                                                        seasonConfigUpdatedAt)
                       ("Failed to fetch fresh data: " +:+ errorMessage
                        +:+ ". Returning cached data.")) |}, db')
       /\ Cache.rows db !! key = Some row
       /\ cached = Cache.parseRow row
       /\ Cache.rows db' !! key
          = Some (Cache.applyUpdates (Enrich.now w)
                    (Enrich.failedData region realm characterName seasonKey errorMessage)
                    row)
       /\ (forall row', Cache.rows db' !! key = Some row' ->
             Cache.fetch_status row' = Cache.failed
             /\ Cache.error_message row' = Some errorMessage
             /\ Cache.updated_at row' = Cache.DATETIME (Enrich.now w)
             /\ Cache.player_card row' = Cache.player_card row)
       /\ (forall k, k <> key -> Cache.rows db' !! k = Cache.rows db !! k))
  /\ (cachedData = None ->
      Enrich.POST w db (Some b)
      = ({| Api.status := 502;
            Api.success := false;
            Api.message :=
              Some (Enrich.upstreamErrorMessage Enrich.slugNotFoundMessage
                                                errorCode errorMessage);
            Api.data := None |}, db))
  /\ (errorCode = "WCL_OAUTH_FAILED" ->
      Enrich.upstreamErrorMessage Enrich.slugNotFoundMessage errorCode errorMessage
      = "Could not authenticate with Warcraft Logs")
  /\ (errorCode = "WCL_GRAPHQL_FAILED" \/ errorCode = "WCL_GRAPHQL_ERROR" ->
      Enrich.upstreamErrorMessage Enrich.slugNotFoundMessage errorCode errorMessage
      = "Warcraft Logs API request failed")
  /\ (errorCode = "WCL_CHARACTER_NOT_FOUND" ->
      Enrich.upstreamErrorMessage Enrich.slugNotFoundMessage errorCode errorMessage
      = Enrich.slugNotFoundMessage)
  /\ (errorCode <> "WCL_OAUTH_FAILED" -> errorCode <> "WCL_GRAPHQL_FAILED" ->
      errorCode <> "WCL_GRAPHQL_ERROR" -> errorCode <> "WCL_CHARACTER_NOT_FOUND" ->
      Enrich.upstreamErrorMessage Enrich.slugNotFoundMessage errorCode errorMessage
      = if Js.includes "not found" errorMessage
        then Enrich.slugNotFoundMessage
        else "Warcraft Logs API error: " +:+ errorMessage).
Proof.
  intros seasonKey cachedData seasonConfigUpdatedAt errorCode errorMessage key
         Hconf Hdb Hurl Hparse Hfresh Hfetch.
  assert (Hpost : Enrich.POST w db (Some b)
                  = Enrich.onFetchError w db cachedData region realm characterName
                      originalUrl seasonKey seasonConfigUpdatedAt e).
  { rewrite (POST_slug_form w db b url region realm characterName originalUrl)
      by assumption.
    now apply POST_slug_fetch_failed. }
  split; [| split; [| split; [| split; [| split]]]].
  - intros cached Hcached.
    assert (Hfind : Cache.findCachedCharacter db
                      (Cache.mkLookup region realm characterName (Some seasonKey))
                    = Some cached).
    { subst cachedData. destruct (negb (Enrich.body_forceRefresh b));
        [exact Hcached | discriminate]. }
    destruct (findCachedCharacter_Some _ _ _ Hfind) as (row & Hrow & Hparsed).
    destruct (upsert_with_fields (Enrich.now w) db
                (Enrich.failedData region realm characterName seasonKey errorMessage)
                row Hrow eq_refl)
      as (db' & Hupsert & Hrow' & Hframe & _).
    exists db', row. rewrite Hpost. unfold Enrich.onFetchError.
    rewrite Hcached. fold errorMessage. rewrite Hupsert.
    split; [reflexivity |]. split; [exact Hrow |]. split; [exact Hparsed |].
    split; [exact Hrow' |]. split; [| exact Hframe].
    intros row'. change key with
      (Cache.keyOf (Cache.lookupOf
         (Enrich.failedData region realm characterName seasonKey errorMessage))).
    rewrite Hrow'. intros [= <-]. repeat split.
  - intros Hnone. rewrite Hpost. unfold Enrich.onFetchError. rewrite Hnone.
    reflexivity.
  - intros ->. reflexivity.
  - intros [-> | ->]; reflexivity.
  - intros ->. reflexivity.
  - intros H1 H2 H3 H4. unfold Enrich.upstreamErrorMessage.
    apply String.eqb_neq in H1, H2, H3, H4. rewrite H1, H2, H3, H4. reflexivity.
Qed.

Lemma C2_fetch_failure_falls_back_to_cache_witness :
  exists db',
    Enrich.POST (Examples.world true (7 * Examples.hour))
                Examples.store_with_testchar (Some (Examples.request false))
    = ({| Api.status := 200;
          Api.success := true;
          Api.message := Some "Returning cached data (fetch failed)";
          Api.data :=
            Some (Enrich.withErrorMessage
                    (Enrich.buildPlayerCardFromCache
                       (Cache.parseRow Examples.testchar_row) Examples.url_testchar None)
                    "Failed to fetch fresh data: WCL GraphQL request failed: 500. Returning cached data.") |},
       db')
    /\ (forall row', Cache.rows db' !! Examples.testchar_key = Some row' ->
          Cache.fetch_status row' = Cache.failed
          /\ Cache.error_message row' = Some "WCL GraphQL request failed: 500").
Proof.
  destruct (C2_fetch_failure_falls_back_to_cache
              (Examples.world true (7 * Examples.hour)) Examples.store_with_testchar
              (Examples.request false) Examples.url_testchar
              "US" "area-52" "Testchar" Examples.url_testchar Examples.request_failed)
    as (Hcached & _).
  - reflexivity.
  - reflexivity.
  - reflexivity.
  - vm_compute. reflexivity.
  - vm_compute. reflexivity.
  - reflexivity.
  - destruct (Hcached (Cache.parseRow Examples.testchar_row))
      as (db' & row & Hpost & _ & _ & _ & Hrow' & _).
    + vm_compute. reflexivity.
    + exists db'. split; [exact Hpost |].
      intros row' Hr. destruct (Hrow' row' Hr) as (Hs & Hm & _). now split.
Defined.

(** C2 (as stated) fails: the store holds an entry under the key, the
    request sets [forceRefresh], the fetch fails, and the answer is 502
    with the store unchanged, the entry's fetch status still [complete]. *)
Lemma C2_counterexample :
  Cache.rows Examples.store_with_testchar !! Examples.testchar_key
  = Some Examples.testchar_row
  /\ Enrich.fetchWarcraftLogsCharacter (Examples.world true (7 * Examples.hour))
       "US" "area-52" "Testchar" = inl Examples.request_failed
  /\ Enrich.POST (Examples.world true (7 * Examples.hour))
                 Examples.store_with_testchar (Some (Examples.request true))
     = ({| Api.status := 502;
           Api.success := false;
           Api.message := Some "Warcraft Logs API request failed";
           Api.data := None |},
        Examples.store_with_testchar)
  /\ Cache.fetch_status Examples.testchar_row = Cache.complete.
Proof. repeat split; vm_compute; reflexivity. Qed.

(** ** The parser *)

(** C7: evaluated at a URL whose host contains the text
    [warcraftlogs.com] without being that domain or one of its
    subdomains: the host check is a substring test, so the parser accepts
    the URL and returns a slug-form reference. *)
Theorem C7_foreign_host_is_accepted :
  Parser.URL_plain Examples.url_foreign_host
  = Some (Parser.mkURL "warcraftlogs.com.example.org" "/character/us/area-52/testchar")
  /\ Parser.in_upstream_domain "warcraftlogs.com.example.org" = false
  /\ Js.includes "warcraftlogs.com" "warcraftlogs.com.example.org" = true
  /\ Parser.parseWarcraftLogsCharacterUrl Parser.URL_plain
       (Some Examples.url_foreign_host)
     = Ok (Parser.Slug "US" "area-52" "Testchar" Examples.url_foreign_host).
Proof. repeat split; vm_compute; reflexivity. Qed.

Section CharFacts.

Local Ltac by_cases c :=
  destruct c as [[] [] [] [] [] [] [] []]; vm_compute; try reflexivity; try discriminate.

Lemma upper_lower_upper (c : ascii) :
  Js.upperChar (Js.lowerChar (Js.upperChar c)) = Js.upperChar c.
Proof. by_cases c. Qed.

Lemma lower_lower (c : ascii) : Js.lowerChar (Js.lowerChar c) = Js.lowerChar c.
Proof. by_cases c. Qed.

Lemma lower_upper (c : ascii) :
  Js.isLetter c = true -> Js.lowerChar (Js.upperChar c) = Js.lowerChar c.
Proof. by_cases c. Qed.

Lemma realmChar_lower (c : ascii) : Js.isRealmChar c = true -> Js.lowerChar c = c.
Proof. by_cases c. Qed.

Lemma realmChar_plain (c : ascii) :
  Js.isRealmChar c = true ->
  Js.isWhiteSpace c = false /\ Js.isSlash c = false /\ Parser.isPlainPathChar c = true.
Proof. by_cases c; intros _; repeat split. Qed.

Lemma letter_plain (c : ascii) :
  Js.isLetter c = true ->
  Js.isWhiteSpace c = false /\ Js.isSlash c = false /\ Parser.isPlainPathChar c = true.
Proof. by_cases c; intros _; repeat split. Qed.

Lemma letter_lower (c : ascii) :
  Js.isLetter c = true -> Js.isLetter (Js.lowerChar c) = true.
Proof. by_cases c. Qed.

Lemma letter_upper (c : ascii) :
  Js.isLetter c = true -> Js.isLetter (Js.upperChar c) = true.
Proof. by_cases c. Qed.

End CharFacts.

(** Strings without white space, separators or upper-case letters. *)

Lemma all_chars_impl (p q : ascii -> bool) (s : string) :
  (forall c, p c = true -> q c = true) ->
  Js.all_chars p s = true -> Js.all_chars q s = true.
Proof.
  intros Hpq. induction s as [| c s IH]; cbn [Js.all_chars]; [reflexivity |].
  intros H. apply andb_true_iff in H. destruct H as [Hc Hs].
  now rewrite (Hpq c Hc), IH.
Qed.

Lemma all_chars_app (p : ascii -> bool) (a b : string) :
  Js.all_chars p (a +:+ b) = Js.all_chars p a && Js.all_chars p b.
Proof.
  induction a as [| c a IH]; [reflexivity |].
  change (String c a +:+ b) with (String c (a +:+ b)). cbn [Js.all_chars].
  now rewrite IH, andb_assoc.
Qed.

Lemma all_chars_map (p : ascii -> bool) (f : ascii -> ascii) (s : string) :
  Js.all_chars p (Js.map_chars f s) = Js.all_chars (fun c => p (f c)) s.
Proof.
  induction s as [| c s IH]; cbn [Js.map_chars Js.all_chars]; [reflexivity |].
  now rewrite IH.
Qed.

Lemma map_chars_id (f : ascii -> ascii) (p : ascii -> bool) (s : string) :
  (forall c, p c = true -> f c = c) ->
  Js.all_chars p s = true -> Js.map_chars f s = s.
Proof.
  intros Hf. induction s as [| c s IH]; cbn [Js.all_chars Js.map_chars]; [reflexivity |].
  intros H. apply andb_true_iff in H. destruct H as [Hc Hs].
  now rewrite (Hf c Hc), IH.
Qed.

Lemma length_map_chars (f : ascii -> ascii) (s : string) :
  String.length (Js.map_chars f s) = String.length s.
Proof. induction s as [| c s IH]; cbn; [reflexivity | now rewrite IH]. Qed.

Lemma truthy_map_chars (f : ascii -> ascii) (s : string) :
  Js.truthy (Js.map_chars f s) = Js.truthy s.
Proof. now destruct s. Qed.

Lemma trimEnd_id (s : string) :
  Js.all_chars (fun c => negb (Js.isWhiteSpace c)) s = true -> Js.trimEnd s = s.
Proof.
  induction s as [| c s IH]; cbn [Js.all_chars Js.trimEnd]; [reflexivity |].
  intros H. apply andb_true_iff in H. destruct H as [Hc Hs].
  rewrite (IH Hs). apply negb_true_iff in Hc. rewrite Hc.
  now destruct s.
Qed.

Lemma trim_id (s : string) :
  Js.all_chars (fun c => negb (Js.isWhiteSpace c)) s = true -> Js.trim s = s.
Proof.
  intros H. unfold Js.trim.
  assert (Hstart : Js.trimStart s = s).
  { destruct s as [| c s]; [reflexivity |]. cbn [Js.all_chars] in H.
    apply andb_true_iff in H. destruct H as [Hc _].
    apply negb_true_iff in Hc. cbn [Js.trimStart]. now rewrite Hc. }
  rewrite Hstart. now apply trimEnd_id.
Qed.

Lemma split_no_sep (sep : ascii) (a : string) :
  Js.all_chars (fun c => negb (Ascii.eqb c sep)) a = true -> Js.split sep a = [a].
Proof.
  induction a as [| c a IH]; cbn [Js.all_chars Js.split]; [reflexivity |].
  intros H. apply andb_true_iff in H. destruct H as [Hc Ha].
  apply negb_true_iff in Hc. now rewrite Hc, (IH Ha).
Qed.

Lemma split_app_sep (sep : ascii) (a b : string) :
  Js.all_chars (fun c => negb (Ascii.eqb c sep)) a = true ->
  Js.split sep (a +:+ String sep b) = a :: Js.split sep b.
Proof.
  induction a as [| c a IH].
  - intros _. change ("" +:+ String sep b) with (String sep b).
    cbn [Js.split]. now rewrite Ascii.eqb_refl.
  - change (String c a +:+ String sep b) with (String c (a +:+ String sep b)).
    cbn [Js.all_chars Js.split].
    intros H. apply andb_true_iff in H. destruct H as [Hc Ha].
    apply negb_true_iff in Hc. now rewrite Hc, (IH Ha).
Qed.

Lemma isSlash_eqb (c : ascii) : Js.isSlash c = Ascii.eqb c "/".
Proof. destruct c as [[] [] [] [] [] [] [] []]; reflexivity. Qed.

Lemma no_slash (p : ascii -> bool) (s : string) :
  (forall c, p c = true -> Js.isSlash c = false) ->
  Js.all_chars p s = true ->
  Js.all_chars (fun c => negb (Ascii.eqb c "/")) s = true.
Proof.
  intros Hp. apply all_chars_impl. intros c Hc.
  rewrite <- isSlash_eqb, (Hp c Hc). reflexivity.
Qed.

Lemma no_space (p : ascii -> bool) (s : string) :
  (forall c, p c = true -> Js.isWhiteSpace c = false) ->
  Js.all_chars p s = true ->
  Js.all_chars (fun c => negb (Js.isWhiteSpace c)) s = true.
Proof.
  intros Hp. apply all_chars_impl. intros c Hc. now rewrite (Hp c Hc).
Qed.

(** What the three normalisers return. *)

Lemma normalizeRegion_Ok (secondPart region : string) :
  Parser.normalizeRegion secondPart = Ok region ->
  region = "US" \/ region = "EU" \/ region = "KR" \/ region = "TW" \/ region = "CN".
Proof.
  unfold Parser.normalizeRegion, Parser.VALID_REGIONS. cbn [existsb].
  destruct (String.eqb (Js.toLowerCase secondPart) "us") eqn:E1.
  { apply String.eqb_eq in E1. rewrite E1. intros [= <-]. now left. }
  destruct (String.eqb (Js.toLowerCase secondPart) "eu") eqn:E2.
  { apply String.eqb_eq in E2. rewrite E2. intros [= <-]. right. now left. }
  destruct (String.eqb (Js.toLowerCase secondPart) "kr") eqn:E3.
  { apply String.eqb_eq in E3. rewrite E3. intros [= <-]. right. right. now left. }
  destruct (String.eqb (Js.toLowerCase secondPart) "tw") eqn:E4.
  { apply String.eqb_eq in E4. rewrite E4. intros [= <-]. do 3 right. now left. }
  destruct (String.eqb (Js.toLowerCase secondPart) "cn") eqn:E5.
  { apply String.eqb_eq in E5. rewrite E5. intros [= <-]. do 4 right. reflexivity. }
  discriminate.
Qed.

Lemma normalizeRealmSlug_Ok (thirdPart realm : string) :
  Parser.normalizeRealmSlug thirdPart = Ok realm -> Js.test_realm realm = true.
Proof.
  unfold Parser.normalizeRealmSlug.
  destruct (negb (Js.truthy thirdPart) || String.eqb (Js.trim thirdPart) "");
    [discriminate |].
  destruct (Js.test_realm (Js.trim (Js.toLowerCase thirdPart))) eqn:E;
    cbn [negb]; [| discriminate].
  now intros [= <-].
Qed.

Lemma normalizeCharacterName_Ok (fourthPart characterName : string) :
  Parser.normalizeCharacterName fourthPart = Ok characterName ->
  exists c rest,
    characterName = String (Js.upperChar c) (Js.toLowerCase rest)
    /\ Js.isLetter c = true
    /\ Js.all_chars Js.isLetter rest = true
    /\ (1 <= String.length rest <= 11)%nat.
Proof.
  unfold Parser.normalizeCharacterName.
  destruct (negb (Js.truthy fourthPart) || String.eqb (Js.trim fourthPart) "");
    [discriminate |].
  destruct ((String.length (Js.trim fourthPart) <? 2)%nat
            || (12 <? String.length (Js.trim fourthPart))%nat) eqn:Elen;
    [discriminate |].
  destruct (Js.test_letters (Js.trim fourthPart)) eqn:Eletters;
    cbn [negb]; [| discriminate].
  apply orb_false_iff in Elen. destruct Elen as [Hlo Hhi].
  apply Nat.ltb_ge in Hlo, Hhi.
  unfold Js.test_letters in Eletters.
  destruct (Js.trim fourthPart) as [| c rest]; [discriminate |].
  cbn [Js.truthy Js.all_chars andb] in Eletters.
  apply andb_true_iff in Eletters. destruct Eletters as [Hc Hrest].
  intros [= <-]. exists c, rest. cbn [String.length] in Hlo, Hhi.
  repeat split; [exact Hc | exact Hrest | lia | lia].
Qed.

Lemma upper_upper (c : ascii) : Js.upperChar (Js.upperChar c) = Js.upperChar c.
Proof. destruct c as [[] [] [] [] [] [] [] []]; vm_compute; reflexivity. Qed.

Lemma map_chars_twice (f : ascii -> ascii) (s : string) :
  (forall c, f (f c) = f c) -> Js.map_chars f (Js.map_chars f s) = Js.map_chars f s.
Proof.
  intros Hf. induction s as [| c s IH]; cbn [Js.map_chars]; [reflexivity |].
  now rewrite Hf, IH.
Qed.

Lemma test_realm_parts (realm : string) :
  Js.test_realm realm = true ->
  Js.truthy realm = true /\ Js.all_chars Js.isRealmChar realm = true.
Proof. unfold Js.test_realm. apply andb_true_iff. Qed.

Lemma truthy_eqb_empty (s : string) : Js.truthy s = true -> String.eqb s "" = false.
Proof. destruct s; [discriminate | reflexivity]. Qed.

(** A realm slug that passed validation is accepted unchanged. *)
Lemma normalizeRealmSlug_idem (realm : string) :
  Js.test_realm realm = true -> Parser.normalizeRealmSlug realm = Ok realm.
Proof.
  intros Htest. destruct (test_realm_parts realm Htest) as [Htruthy Hchars].
  assert (Htrim : Js.trim realm = realm).
  { apply trim_id. eapply no_space; [| exact Hchars].
    intros c Hc. apply (realmChar_plain c Hc). }
  assert (Hlower : Js.toLowerCase realm = realm).
  { eapply map_chars_id; [| exact Hchars]. exact realmChar_lower. }
  unfold Parser.normalizeRealmSlug.
  rewrite Htruthy, Hlower, Htrim, (truthy_eqb_empty realm Htruthy), Htest.
  reflexivity.
Qed.

(** A name of 2 to 12 letters is accepted and capitalised. *)
Lemma normalizeCharacterName_letters (c : ascii) (rest : string) :
  Js.isLetter c = true ->
  Js.all_chars Js.isLetter rest = true ->
  (1 <= String.length rest <= 11)%nat ->
  Parser.normalizeCharacterName (String c rest)
  = Ok (String (Js.upperChar c) (Js.toLowerCase rest)).
Proof.
  intros Hc Hrest Hlen.
  assert (Htrim : Js.trim (String c rest) = String c rest).
  { apply trim_id. eapply no_space with (p := Js.isLetter).
    - intros a Ha. apply (letter_plain a Ha).
    - cbn [Js.all_chars]. now rewrite Hc, Hrest. }
  unfold Parser.normalizeCharacterName. rewrite Htrim.
  cbn [Js.truthy negb orb String.eqb String.length Js.charAt0 Js.slice1].
  assert (Hlo : (S (String.length rest) <? 2)%nat = false) by (apply Nat.ltb_ge; lia).
  assert (Hhi : (12 <? S (String.length rest))%nat = false) by (apply Nat.ltb_ge; lia).
  rewrite Hlo, Hhi. cbn [orb].
  unfold Js.test_letters. cbn [Js.truthy Js.all_chars andb]. rewrite Hc, Hrest.
  cbn [andb negb]. reflexivity.
Qed.

(** What a slug-form result says about the parts it was made from. *)
Lemma parse_slug_inv (newURL : string -> option Parser.URL) (url : option string)
  (region realm characterName originalUrl : string) :
  Parser.parseWarcraftLogsCharacterUrl newURL url
  = Ok (Parser.Slug region realm characterName originalUrl) ->
  exists secondPart thirdPart fourthPart,
    Parser.normalizeRegion secondPart = Ok region
    /\ Parser.normalizeRealmSlug thirdPart = Ok realm
    /\ Parser.normalizeCharacterName fourthPart = Ok characterName.
Proof.
  unfold Parser.parseWarcraftLogsCharacterUrl.
  destruct url as [url |]; [| discriminate].
  destruct (negb (Js.truthy url)); [discriminate |].
  destruct (String.eqb (Js.trim url) ""); [discriminate |].
  destruct (newURL _) as [parsedUrl |]; [| discriminate].
  destruct (negb (Js.includes "warcraftlogs.com" (Parser.hostname parsedUrl)));
    [discriminate |].
  destruct (List.filter _ _) as [| section [| secondPart rest]];
    [discriminate | discriminate |].
  destruct (negb (String.eqb section "character")); [discriminate |].
  destruct (String.eqb secondPart "id").
  { destruct (rest !! 0%nat) as [thirdPart |]; [| discriminate].
    destruct (negb (Js.truthy thirdPart)); [discriminate |].
    destruct (negb (Js.test_digits thirdPart)); discriminate. }
  destruct (rest !! 0%nat) as [thirdPart |]; [| discriminate].
  destruct (rest !! 1%nat) as [fourthPart |]; [| discriminate].
  unfold Parser.with_context, Parser.bind.
  destruct (Parser.normalizeRegion secondPart) as [r |] eqn:Er; [| discriminate].
  destruct (Parser.normalizeRealmSlug thirdPart) as [rl |] eqn:Erl; [| discriminate].
  destruct (Parser.normalizeCharacterName fourthPart) as [n |] eqn:En; [| discriminate].
  intros [= <- <- <- _]. now exists secondPart, thirdPart, fourthPart.
Qed.

Lemma plain_nonspace (c : ascii) :
  Parser.isPlainPathChar c = true -> Js.isWhiteSpace c = false.
Proof. destruct c as [[] [] [] [] [] [] [] []]; vm_compute; congruence. Qed.

Lemma path_parts (lr realm lname : string) :
  Js.all_chars (fun c => negb (Ascii.eqb c "/")) lr = true ->
  Js.all_chars (fun c => negb (Ascii.eqb c "/")) realm = true ->
  Js.all_chars (fun c => negb (Ascii.eqb c "/")) lname = true ->
  Js.truthy lr = true -> Js.truthy realm = true -> Js.truthy lname = true ->
  List.filter (fun part => negb (String.eqb part ""))
    (Js.split "/" ("/character/" +:+ lr +:+ "/" +:+ realm +:+ "/" +:+ lname))
  = ["character"; lr; realm; lname].
Proof.
  intros Hlr Hrealm Hlname Tlr Trealm Tlname.
  change ("/character/" +:+ lr +:+ "/" +:+ realm +:+ "/" +:+ lname)
    with (String "/" ("character" +:+ String "/"
                        (lr +:+ String "/" (realm +:+ String "/" lname)))).
  cbn [Js.split]. rewrite Ascii.eqb_refl.
  rewrite split_app_sep by reflexivity.
  rewrite split_app_sep by exact Hlr.
  rewrite split_app_sep by exact Hrealm.
  rewrite split_no_sep by exact Hlname.
  cbn [List.filter].
  rewrite (truthy_eqb_empty lr Tlr), (truthy_eqb_empty realm Trealm),
    (truthy_eqb_empty lname Tlname).
  reflexivity.
Qed.

Section RoundTrip.

Variable newURL : string -> option Parser.URL.

(** The platform's URL constructor on a plain path under the upstream's
    host: the host and the path come back as written. *)
Hypothesis newURL_plain :
  forall p, Parser.plain_path p = true ->
    newURL ("https://www.warcraftlogs.com/" +:+ p)
    = Some (Parser.mkURL "www.warcraftlogs.com" ("/" +:+ p)).

Lemma parse_plain_slug (lr realm lname region realm' name : string) :
  Parser.plain_path lr = true ->
  Parser.plain_path realm = true ->
  Parser.plain_path lname = true ->
  Js.all_chars (fun c => negb (Ascii.eqb c "/")) lr = true ->
  Js.all_chars (fun c => negb (Ascii.eqb c "/")) realm = true ->
  Js.all_chars (fun c => negb (Ascii.eqb c "/")) lname = true ->
  Js.truthy lr = true -> Js.truthy realm = true -> Js.truthy lname = true ->
  String.eqb lr "id" = false ->
  Parser.normalizeRegion lr = Ok region ->
  Parser.normalizeRealmSlug realm = Ok realm' ->
  Parser.normalizeCharacterName lname = Ok name ->
  Parser.parseWarcraftLogsCharacterUrl newURL
    (Some ("https://www.warcraftlogs.com/character/"
           +:+ lr +:+ "/" +:+ realm +:+ "/" +:+ lname))
  = Ok (Parser.Slug region realm' name
          ("https://www.warcraftlogs.com/character/"
           +:+ lr +:+ "/" +:+ realm +:+ "/" +:+ lname)).
Proof using newURL_plain.
  intros Plr Prealm Plname Slr Srealm Slname Tlr Trealm Tlname Hid Hregion Hrealm Hname.
  set (p := "character/" +:+ lr +:+ "/" +:+ realm +:+ "/" +:+ lname).
  change ("https://www.warcraftlogs.com/character/"
          +:+ lr +:+ "/" +:+ realm +:+ "/" +:+ lname)
    with ("https://www.warcraftlogs.com/" +:+ p).
  assert (Pp : Parser.plain_path p = true).
  { unfold p, Parser.plain_path in *. rewrite !all_chars_app.
    rewrite Plr, Prealm, Plname. reflexivity. }
  set (built := "https://www.warcraftlogs.com/" +:+ p).
  assert (Htrim : Js.trim built = built).
  { apply trim_id. unfold built. rewrite all_chars_app.
    apply andb_true_iff. split; [reflexivity |].
    eapply no_space; [| exact Pp]. exact plain_nonspace. }
  assert (Hurl : newURL built = Some (Parser.mkURL "www.warcraftlogs.com" ("/" +:+ p)))
    by (apply newURL_plain; exact Pp).
  unfold Parser.parseWarcraftLogsCharacterUrl. cbv zeta.
  change (Js.truthy built) with true. cbn [negb].
  rewrite Htrim.
  change (String.eqb built "") with false.
  change (Js.startsWith "http" built) with true.
  cbv iota. rewrite Hurl. cbn [Parser.hostname Parser.pathname].
  change (Js.includes "warcraftlogs.com" "www.warcraftlogs.com") with true.
  cbn [negb].
  change ("/" +:+ p)
    with ("/character/" +:+ lr +:+ "/" +:+ realm +:+ "/" +:+ lname).
  rewrite path_parts by assumption.
  change (String.eqb "character" "character") with true. cbn [negb].
  rewrite Hid. cbn [lookup list_lookup].
  rewrite Hregion, Hrealm, Hname. reflexivity.
Qed.

End RoundTrip.

Lemma letters_lower (s : string) :
  Js.all_chars Js.isLetter s = true ->
  Js.all_chars Js.isLetter (Js.toLowerCase s) = true.
Proof.
  intros H. unfold Js.toLowerCase. rewrite all_chars_map.
  eapply all_chars_impl; [| exact H]. exact letter_lower.
Qed.

Lemma letters_plain (s : string) :
  Js.all_chars Js.isLetter s = true ->
  Parser.plain_path s = true
  /\ Js.all_chars (fun c => negb (Ascii.eqb c "/")) s = true.
Proof.
  intros H. split.
  - eapply all_chars_impl; [| exact H]. intros c Hc. apply (letter_plain c Hc).
  - eapply no_slash; [| exact H]. intros c Hc. apply (letter_plain c Hc).
Qed.

Lemma realm_plain (s : string) :
  Js.all_chars Js.isRealmChar s = true ->
  Parser.plain_path s = true
  /\ Js.all_chars (fun c => negb (Ascii.eqb c "/")) s = true.
Proof.
  intros H. split.
  - eapply all_chars_impl; [| exact H]. intros c Hc. apply (realmChar_plain c Hc).
  - eapply no_slash; [| exact H]. intros c Hc. apply (realmChar_plain c Hc).
Qed.

(** C4: when a URL parses to the slug form, [buildWarcraftLogsCharacterUrl]
    accepts the parsed region, realm and character name, and parsing the
    URL it builds yields the same region, realm and character name; the
    round trip is a fixed point from there on.  The platform's URL
    constructor enters through its behaviour on plain paths under the
    upstream's host. *)
Theorem C4_parse_build_parse_round_trip
  (newURL : string -> option Parser.URL) (url : option string)
  (region realm characterName originalUrl : string) :
  (forall p, Parser.plain_path p = true ->
     newURL ("https://www.warcraftlogs.com/" +:+ p)
     = Some (Parser.mkURL "www.warcraftlogs.com" ("/" +:+ p))) ->
  Parser.parseWarcraftLogsCharacterUrl newURL url
  = Ok (Parser.Slug region realm characterName originalUrl) ->
  exists built,
    Parser.buildWarcraftLogsCharacterUrl region realm characterName = Ok built
    /\ Parser.parseWarcraftLogsCharacterUrl newURL (Some built)
       = Ok (Parser.Slug region realm characterName built).
Proof.
  intros HnewURL Hparse.
  destruct (parse_slug_inv _ _ _ _ _ _ Hparse)
    as (secondPart & thirdPart & fourthPart & Hregion & Hrealm & Hname).
  apply normalizeRegion_Ok in Hregion.
  apply normalizeRealmSlug_Ok in Hrealm.
  apply normalizeCharacterName_Ok in Hname.
  destruct Hname as (c & rest & -> & Hc & Hrest & Hlen).
  destruct (test_realm_parts realm Hrealm) as [Trealm Crealm].
  destruct (realm_plain realm Crealm) as [Prealm Srealm].
  assert (Hname1 : Parser.normalizeCharacterName
                     (String (Js.upperChar c) (Js.toLowerCase rest))
                   = Ok (String (Js.upperChar c) (Js.toLowerCase rest))).
  { rewrite normalizeCharacterName_letters.
    - rewrite upper_upper. unfold Js.toLowerCase.
      rewrite (map_chars_twice Js.lowerChar rest lower_lower). reflexivity.
    - now apply letter_upper.
    - now apply letters_lower.
    - unfold Js.toLowerCase. now rewrite length_map_chars. }
  assert (Hlname : Js.all_chars Js.isLetter
                     (Js.toLowerCase (String (Js.upperChar c) (Js.toLowerCase rest)))
                   = true).
  { apply letters_lower. cbn [Js.all_chars].
    rewrite (letter_upper c Hc). now apply letters_lower. }
  destruct (letters_plain _ Hlname) as [Plname Slname].
  assert (Hname2 : Parser.normalizeCharacterName
                     (Js.toLowerCase (String (Js.upperChar c) (Js.toLowerCase rest)))
                   = Ok (String (Js.upperChar c) (Js.toLowerCase rest))).
  { unfold Js.toLowerCase at 1. cbn [Js.map_chars].
    fold (Js.toLowerCase (Js.toLowerCase rest)).
    rewrite normalizeCharacterName_letters.
    - rewrite upper_lower_upper. unfold Js.toLowerCase.
      rewrite !(map_chars_twice Js.lowerChar rest lower_lower). reflexivity.
    - apply letter_lower. now apply letter_upper.
    - apply letters_lower. now apply letters_lower.
    - unfold Js.toLowerCase. rewrite !length_map_chars. exact Hlen. }
  eexists. split.
  - unfold Parser.buildWarcraftLogsCharacterUrl, Parser.bind.
    assert (Hr : Parser.normalizeRegion region = Ok region)
      by (destruct Hregion as [-> | [-> | [-> | [-> | ->]]]]; reflexivity).
    rewrite Hr, (normalizeRealmSlug_idem realm Hrealm), Hname1. reflexivity.
  - apply (parse_plain_slug newURL HnewURL); try assumption.
    + destruct Hregion as [-> | [-> | [-> | [-> | ->]]]]; reflexivity.
    + destruct Hregion as [-> | [-> | [-> | [-> | ->]]]]; reflexivity.
    + destruct Hregion as [-> | [-> | [-> | [-> | ->]]]]; reflexivity.
    + reflexivity.
    + destruct Hregion as [-> | [-> | [-> | [-> | ->]]]]; reflexivity.
    + destruct Hregion as [-> | [-> | [-> | [-> | ->]]]]; reflexivity.
    + now apply normalizeRealmSlug_idem.
Qed.

(** The reference instance of the URL constructor meets the hypothesis of
    the round trip. *)
Lemma URL_plain_on_plain_paths (p : string) :
  Parser.plain_path p = true ->
  Parser.URL_plain ("https://www.warcraftlogs.com/" +:+ p)
  = Some (Parser.mkURL "www.warcraftlogs.com" ("/" +:+ p)).
Proof.
  intros Hp. unfold Parser.URL_plain.
  assert (Hs : Parser.strip_prefix "https://" ("https://www.warcraftlogs.com/" +:+ p)
               = Some ("www.warcraftlogs.com/" +:+ p)) by reflexivity.
  assert (Hb : Parser.break_slash ("www.warcraftlogs.com/" +:+ p)
               = ("www.warcraftlogs.com", "/" +:+ p)) by reflexivity.
  assert (Hpath : Parser.plain_path ("/" +:+ p) = Parser.plain_path p) by reflexivity.
  rewrite Hs, Hb, Hpath, Hp. reflexivity.
Qed.

Lemma C4_parse_build_parse_round_trip_witness :
  exists built,
    Parser.buildWarcraftLogsCharacterUrl "US" "area-52" "Testchar" = Ok built
    /\ Parser.parseWarcraftLogsCharacterUrl Parser.URL_plain (Some built)
       = Ok (Parser.Slug "US" "area-52" "Testchar" built).
Proof.
  apply (C4_parse_build_parse_round_trip Parser.URL_plain
           (Some "  https://www.warcraftlogs.com/character/US/Area-52/TESTCHAR ")
           "US" "area-52" "Testchar"
           "https://www.warcraftlogs.com/character/US/Area-52/TESTCHAR").
  - exact URL_plain_on_plain_paths.
  - vm_compute. reflexivity.
Defined.

(** ** The parser's rejections, away from the host check *)

Lemma lower_nonspace (c : ascii) :
  Js.isWhiteSpace c = false -> Js.isWhiteSpace (Js.lowerChar c) = false.
Proof. destruct c as [[] [] [] [] [] [] [] []]; vm_compute; congruence. Qed.

Lemma split_all_chars (p : ascii -> bool) (sep : ascii) (s : string) :
  Js.all_chars p s = true ->
  forall part, In part (Js.split sep s) -> Js.all_chars p part = true.
Proof.
  induction s as [| c s IH]; cbn [Js.all_chars Js.split].
  - intros _ part [<- | []]. reflexivity.
  - intros H. apply andb_true_iff in H. destruct H as [Hc Hs].
    specialize (IH Hs). destruct (Ascii.eqb c sep).
    + intros part [<- | Hin]; [reflexivity | now apply IH].
    + destruct (Js.split sep s) as [| hd tl].
      * intros part [<- | []]. cbn [Js.all_chars]. now rewrite Hc.
      * intros part [<- | Hin].
        -- cbn [Js.all_chars]. rewrite Hc. apply IH. now left.
        -- apply IH. now right.
Qed.

Lemma pathSegments_spec (pathname part : string) :
  Js.all_chars (fun c => negb (Js.isWhiteSpace c)) pathname = true ->
  In part (Spec.pathSegments pathname) ->
  Js.truthy part = true
  /\ Js.all_chars (fun c => negb (Js.isWhiteSpace c)) part = true.
Proof.
  intros Hws Hin. unfold Spec.pathSegments in Hin.
  apply filter_In in Hin. destruct Hin as [Hin Hne]. split.
  - destruct part; [discriminate | reflexivity].
  - now apply (split_all_chars _ "/" pathname).
Qed.

Lemma is_throw_normalizeRegion (region : string) :
  is_throw (Parser.normalizeRegion region) = negb (Spec.region_ok region).
Proof.
  unfold Parser.normalizeRegion, Spec.region_ok.
  now destruct (existsb (String.eqb (Js.toLowerCase region)) Parser.VALID_REGIONS).
Qed.

Lemma is_throw_normalizeRealmSlug (realm : string) :
  Js.truthy realm = true ->
  Js.all_chars (fun c => negb (Js.isWhiteSpace c)) realm = true ->
  is_throw (Parser.normalizeRealmSlug realm) = negb (Spec.realm_ok realm).
Proof.
  intros Htruthy Hws. unfold Parser.normalizeRealmSlug, Spec.realm_ok.
  rewrite Htruthy, (trim_id realm Hws), (truthy_eqb_empty realm Htruthy).
  cbn [negb orb].
  assert (Hlower : Js.trim (Js.toLowerCase realm) = Js.toLowerCase realm).
  { apply trim_id. unfold Js.toLowerCase. rewrite all_chars_map.
    eapply all_chars_impl; [| exact Hws].
    intros c Hc. apply negb_true_iff in Hc. apply negb_true_iff.
    now apply lower_nonspace. }
  rewrite Hlower. now destruct (Js.test_realm (Js.toLowerCase realm)).
Qed.

Lemma is_throw_normalizeCharacterName (name : string) :
  Js.truthy name = true ->
  Js.all_chars (fun c => negb (Js.isWhiteSpace c)) name = true ->
  is_throw (Parser.normalizeCharacterName name) = negb (Spec.name_ok name).
Proof.
  intros Htruthy Hws. unfold Parser.normalizeCharacterName, Spec.name_ok.
  rewrite Htruthy, (trim_id name Hws), (truthy_eqb_empty name Htruthy).
  cbn [negb orb]. unfold Js.test_letters. rewrite Htruthy. cbn [andb].
  destruct (String.length name <? 2)%nat eqn:Elo.
  - apply Nat.ltb_lt in Elo.
    assert (E : (2 <=? String.length name)%nat = false) by (apply Nat.leb_gt; lia).
    now rewrite E.
  - apply Nat.ltb_ge in Elo.
    assert (E : (2 <=? String.length name)%nat = true) by (apply Nat.leb_le; lia).
    rewrite E. cbn [orb andb].
    destruct (12 <? String.length name)%nat eqn:Ehi.
    + apply Nat.ltb_lt in Ehi.
      assert (E' : (String.length name <=? 12)%nat = false) by (apply Nat.leb_gt; lia).
      now rewrite E'.
    + apply Nat.ltb_ge in Ehi.
      assert (E' : (String.length name <=? 12)%nat = true) by (apply Nat.leb_le; lia).
      rewrite E'. cbn [andb]. now destruct (Js.all_chars Js.isLetter name).
Qed.

(** X29: where the substring test on the host agrees with the domain test,
    the parser throws exactly under the conditions the specification lists.
    (The path of a URL object holds no white space: the constructor
    strips or percent-encodes it.) *)
Theorem parse_rejects_as_listed
  (newURL : string -> option Parser.URL) (url : option string) :
  (forall u parsedUrl,
      url = Some u ->
      newURL (Spec.urlToParse (Js.trim u)) = Some parsedUrl ->
      Js.includes "warcraftlogs.com" (Parser.hostname parsedUrl)
      = Parser.in_upstream_domain (Parser.hostname parsedUrl)
      /\ Js.all_chars (fun c => negb (Js.isWhiteSpace c)) (Parser.pathname parsedUrl)
         = true) ->
  is_throw (Parser.parseWarcraftLogsCharacterUrl newURL url)
  = Spec.listed_rejection newURL url.
Proof.
  intros Hplatform. destruct url as [u |]; [| reflexivity].
  unfold Parser.parseWarcraftLogsCharacterUrl, Spec.listed_rejection. cbv zeta.
  destruct (Js.truthy u) eqn:Tu; cbn [negb].
  2: { destruct u; [reflexivity | discriminate]. }
  destruct (String.eqb (Js.trim u) ""); [reflexivity |].
  fold (Spec.urlToParse (Js.trim u)).
  destruct (newURL (Spec.urlToParse (Js.trim u))) as [parsedUrl |] eqn:En;
    [| reflexivity].
  destruct (Hplatform u parsedUrl eq_refl En) as [Hhost Hws].
  rewrite Hhost.
  destruct (Parser.in_upstream_domain (Parser.hostname parsedUrl));
    cbn [negb orb]; [| reflexivity].
  fold (Spec.pathSegments (Parser.pathname parsedUrl)).
  pose proof (pathSegments_spec (Parser.pathname parsedUrl)) as Hparts.
  destruct (Spec.pathSegments (Parser.pathname parsedUrl))
    as [| section [| secondPart rest]]; [reflexivity | |].
  { now rewrite orb_true_r. }
  destruct (String.eqb section "character"); cbn [negb orb]; [| reflexivity].
  destruct (String.eqb secondPart "id").
  - destruct rest as [| characterId rest]; [reflexivity |].
    cbn [lookup list_lookup]. unfold Js.test_digits.
    destruct (Js.truthy characterId); cbn [negb andb]; [| reflexivity].
    now destruct (Js.all_chars Js.isDigit characterId).
  - destruct rest as [| realm [| characterName rest]]; [reflexivity | reflexivity |].
    cbn [lookup list_lookup].
    destruct (Hparts realm Hws) as [Trealm Wrealm]; [cbn; tauto |].
    destruct (Hparts characterName Hws) as [Tname Wname]; [cbn; tauto |].
    rewrite <- is_throw_normalizeRegion.
    rewrite <- (is_throw_normalizeRealmSlug realm Trealm Wrealm).
    rewrite <- (is_throw_normalizeCharacterName characterName Tname Wname).
    unfold Parser.with_context, Parser.bind.
    destruct (Parser.normalizeRegion secondPart); [| reflexivity].
    destruct (Parser.normalizeRealmSlug realm); [| reflexivity].
    destruct (Parser.normalizeCharacterName characterName); reflexivity.
Qed.

Lemma parse_rejects_as_listed_witness :
  is_throw (Parser.parseWarcraftLogsCharacterUrl Parser.URL_plain
              (Some "https://www.warcraftlogs.com/character/xx/area-52/testchar"))
  = Spec.listed_rejection Parser.URL_plain
      (Some "https://www.warcraftlogs.com/character/xx/area-52/testchar").
Proof.
  apply parse_rejects_as_listed.
  intros u parsedUrl [= <-] Hurl. vm_compute in Hurl. injection Hurl as <-.
  split; vm_compute; reflexivity.
Defined.

(** ** Failure kinds of the character fetch and the 502 notices *)

(** X30: the notice of the 502 answer for each way [fetchWarcraftLogsCharacter]
    fails once the credentials are set: a refused token exchange gives the
    authentication notice; an HTTP error status and a body with errors
    give the request-failed notice; a body without the character gives
    the not-found notice; a transport failure of either request gives the
    generic notice with the client's network message. *)
Lemma failure_kinds_to_notices
  (clientId clientSecret token : string) (notFound : string)
  (status : Z) (statusText reason : string) (errors : list string) :
  Js.truthy clientId = true -> Js.truthy clientSecret = true ->
  let notice exchange answer :=
    match Client.fetchWarcraftLogsCharacter (Some clientId) (Some clientSecret)
            exchange answer with
    | inl e =>
        Some (Enrich.upstreamErrorMessage notFound (Enrich.errorCodeOf e)
                (Enrich.errorMessageOf "Unknown error fetching from Warcraft Logs" e))
    | inr _ => None
    end in
  let granted := Client.TokenResponse true 200 "OK" token in
  notice (Client.TokenResponse false status statusText token)
         (Client.QueryAnswer None None)
  = Some "Could not authenticate with Warcraft Logs"
  /\ notice granted (Client.QueryHttpError status statusText)
     = Some "Warcraft Logs API request failed"
  /\ notice granted (Client.QueryAnswer None (Some errors))
     = Some "Warcraft Logs API request failed"
  /\ notice granted (Client.QueryAnswer None None) = Some notFound
  /\ notice Client.TokenNetworkFailure (Client.QueryAnswer None None)
     = Some "Warcraft Logs API error: Network error connecting to Warcraft Logs OAuth"
  /\ notice granted (Client.QueryNetworkFailure reason)
     = Some "Warcraft Logs API error: Network error connecting to Warcraft Logs API".
Proof.
  intros Hid Hsecret notice granted. subst notice granted.
  unfold Client.fetchWarcraftLogsCharacter, Client.getWarcraftLogsToken,
    Client.nonEmptyString.
  rewrite Hid, Hsecret. repeat split.
Qed.

Lemma failure_kinds_to_notices_witness :
  match Client.fetchWarcraftLogsCharacter (Some "id") (Some "secret")
          (Client.TokenResponse true 200 "OK" "token") (Client.QueryAnswer None None) with
  | inl e =>
      Some (Enrich.upstreamErrorMessage Enrich.slugNotFoundMessage (Enrich.errorCodeOf e)
              (Enrich.errorMessageOf "Unknown error fetching from Warcraft Logs" e))
  | inr _ => None
  end = Some Enrich.slugNotFoundMessage.
Proof.
  exact (proj1 (proj2 (proj2 (proj2
    (failure_kinds_to_notices "id" "secret" "token" Enrich.slugNotFoundMessage
       500 "" "" [] eq_refl eq_refl))))).
Defined.

(** * Further properties of the code *)

(** ** The parser: what an accepted reference looks like *)

Lemma letter_upper_isUpper (c : ascii) :
  Js.isLetter c = true -> Js.isUpper (Js.upperChar c) = true.
Proof. destruct c as [[] [] [] [] [] [] [] []]; vm_compute; congruence. Qed.

Lemma letter_lower_isLower (c : ascii) :
  Js.isLetter c = true -> Js.isLower (Js.lowerChar c) = true.
Proof. destruct c as [[] [] [] [] [] [] [] []]; vm_compute; congruence. Qed.

Lemma letters_lower_isLower (s : string) :
  Js.all_chars Js.isLetter s = true ->
  Js.all_chars Js.isLower (Js.toLowerCase s) = true.
Proof.
  intros H. unfold Js.toLowerCase. rewrite all_chars_map.
  eapply all_chars_impl; [| exact H]. exact letter_lower_isLower.
Qed.

(** What a successful parse says about the input and the parts. *)
Lemma parse_ok_inv (newURL : string -> option Parser.URL) (url : option string)
  (p : Parser.ParsedWarcraftLogsUrl) :
  Parser.parseWarcraftLogsCharacterUrl newURL url = Ok p ->
  exists u,
    url = Some u
    /\ match p with
       | Parser.Slug region realm characterName originalUrl =>
           originalUrl = Js.trim u
           /\ exists secondPart thirdPart fourthPart,
                Parser.normalizeRegion secondPart = Ok region
                /\ Parser.normalizeRealmSlug thirdPart = Ok realm
                /\ Parser.normalizeCharacterName fourthPart = Ok characterName
       | Parser.IdForm characterId originalUrl =>
           originalUrl = Js.trim u /\ Js.test_digits characterId = true
       end.
Proof.
  unfold Parser.parseWarcraftLogsCharacterUrl.
  destruct url as [url |]; [| discriminate].
  destruct (negb (Js.truthy url)); [discriminate |].
  destruct (String.eqb (Js.trim url) ""); [discriminate |].
  destruct (newURL _) as [parsedUrl |]; [| discriminate].
  destruct (negb (Js.includes "warcraftlogs.com" (Parser.hostname parsedUrl)));
    [discriminate |].
  destruct (List.filter _ _) as [| section [| secondPart rest]];
    [discriminate | discriminate |].
  destruct (negb (String.eqb section "character")); [discriminate |].
  destruct (String.eqb secondPart "id").
  { destruct (rest !! 0%nat) as [thirdPart |]; [| discriminate].
    destruct (negb (Js.truthy thirdPart)); [discriminate |].
    destruct (Js.test_digits thirdPart) eqn:Edigits; cbn [negb]; [| discriminate].
    intros [= <-]. exists url. split; [reflexivity |]. now split. }
  destruct (rest !! 0%nat) as [thirdPart |]; [| discriminate].
  destruct (rest !! 1%nat) as [fourthPart |]; [| discriminate].
  unfold Parser.with_context, Parser.bind.
  destruct (Parser.normalizeRegion secondPart) as [r |] eqn:Er; [| discriminate].
  destruct (Parser.normalizeRealmSlug thirdPart) as [rl |] eqn:Erl; [| discriminate].
  destruct (Parser.normalizeCharacterName fourthPart) as [n |] eqn:En; [| discriminate].
  intros [= <-]. exists url. split; [reflexivity |]. split; [reflexivity |].
  now exists secondPart, thirdPart, fourthPart.
Qed.

(** X1: every reference the parser accepts is in normal form.  A slug
    result carries one of the five region codes in upper case, a
    non-empty realm slug over [a-z0-9-], and a name of 2 to 12 letters,
    the first in upper case and the others in lower case; an id result
    carries a non-empty string of digits.  Both carry the trimmed input
    as [originalUrl].  The check [isWarcraftLogsCharacterUrl] accepts
    the input. *)
Theorem parse_result_is_normalised
  (newURL : string -> option Parser.URL) (url : option string)
  (p : Parser.ParsedWarcraftLogsUrl) :
  Parser.parseWarcraftLogsCharacterUrl newURL url = Ok p ->
  Parser.isWarcraftLogsCharacterUrl newURL url = true
  /\ exists u,
    url = Some u
    /\ match p with
       | Parser.Slug region realm characterName originalUrl =>
           originalUrl = Js.trim u
           /\ In region ["US"; "EU"; "KR"; "TW"; "CN"]
           /\ Js.truthy realm = true
           /\ Js.all_chars Js.isRealmChar realm = true
           /\ (2 <= String.length characterName <= 12)%nat
           /\ exists c rest,
                characterName = String c rest
                /\ Js.isUpper c = true
                /\ Js.all_chars Js.isLower rest = true
       | Parser.IdForm characterId originalUrl =>
           originalUrl = Js.trim u
           /\ Js.truthy characterId = true
           /\ Js.all_chars Js.isDigit characterId = true
       end.
Proof.
  intros Hparse. destruct (parse_ok_inv _ _ _ Hparse) as (u & -> & Hp).
  split.
  { unfold Parser.isWarcraftLogsCharacterUrl.
    now rewrite (parse_ok_truthy _ _ _ Hparse), Hparse. }
  exists u. split; [reflexivity |].
  destruct p as [region realm characterName originalUrl | characterId originalUrl].
  - destruct Hp as (-> & secondPart & thirdPart & fourthPart & Hregion & Hrealm & Hname).
    apply normalizeRegion_Ok in Hregion.
    apply normalizeRealmSlug_Ok, test_realm_parts in Hrealm.
    apply normalizeCharacterName_Ok in Hname.
    destruct Hname as (c & rest & -> & Hc & Hrest & Hlen).
    destruct Hrealm as [Htruthy Hchars].
    split; [reflexivity |]. split.
    { cbn [In]. intuition. }
    split; [exact Htruthy |]. split; [exact Hchars |]. split.
    { cbn [String.length]. unfold Js.toLowerCase. rewrite length_map_chars. lia. }
    exists (Js.upperChar c), (Js.toLowerCase rest).
    split; [reflexivity |]. split.
    + now apply letter_upper_isUpper.
    + now apply letters_lower_isLower.
  - destruct Hp as (-> & Hdigits). split; [reflexivity |].
    unfold Js.test_digits in Hdigits. now apply andb_true_iff in Hdigits.
Qed.

Lemma parse_result_is_normalised_witness :
  Parser.isWarcraftLogsCharacterUrl Parser.URL_plain
    (Some "https://www.warcraftlogs.com/character/eu/Tarren-Mill/aBCDEF  ") = true
  /\ In "EU" ["US"; "EU"; "KR"; "TW"; "CN"]
  /\ Js.all_chars Js.isRealmChar "tarren-mill" = true
  /\ (2 <= String.length "Abcdef" <= 12)%nat.
Proof.
  destruct (parse_result_is_normalised Parser.URL_plain
              (Some "https://www.warcraftlogs.com/character/eu/Tarren-Mill/aBCDEF  ")
              (Parser.Slug "EU" "tarren-mill" "Abcdef"
                 "https://www.warcraftlogs.com/character/eu/Tarren-Mill/aBCDEF"))
    as (Hcheck & u & _ & _ & Hregion & _ & Hrealm & Hlen & _).
  - vm_compute. reflexivity.
  - exact (conj Hcheck (conj Hregion (conj Hrealm Hlen))).
Defined.

(** A capitalised name is accepted unchanged, and so is its lower-case
    form up to the capital. *)
Lemma normalizeCharacterName_fixed (c : ascii) (rest : string) :
  Js.isLetter c = true ->
  Js.all_chars Js.isLetter rest = true ->
  (1 <= String.length rest <= 11)%nat ->
  let name := String (Js.upperChar c) (Js.toLowerCase rest) in
  Parser.normalizeCharacterName name = Ok name
  /\ Parser.normalizeCharacterName (Js.toLowerCase name) = Ok name
  /\ Js.all_chars Js.isLetter (Js.toLowerCase name) = true.
Proof.
  intros Hc Hrest Hlen name. subst name. split; [| split].
  - rewrite normalizeCharacterName_letters.
    + rewrite upper_upper. unfold Js.toLowerCase.
      rewrite (map_chars_twice Js.lowerChar rest lower_lower). reflexivity.
    + now apply letter_upper.
    + now apply letters_lower.
    + unfold Js.toLowerCase. now rewrite length_map_chars.
  - unfold Js.toLowerCase at 1. cbn [Js.map_chars].
    fold (Js.toLowerCase (Js.toLowerCase rest)).
    rewrite normalizeCharacterName_letters.
    + rewrite upper_lower_upper. unfold Js.toLowerCase.
      rewrite !(map_chars_twice Js.lowerChar rest lower_lower). reflexivity.
    + apply letter_lower. now apply letter_upper.
    + apply letters_lower. now apply letters_lower.
    + unfold Js.toLowerCase. rewrite !length_map_chars. exact Hlen.
  - apply letters_lower. cbn [Js.all_chars].
    rewrite (letter_upper c Hc). now apply letters_lower.
Qed.

Lemma normalizeRegion_fixed (region : string) :
  region = "US" \/ region = "EU" \/ region = "KR" \/ region = "TW" \/ region = "CN" ->
  Parser.normalizeRegion region = Ok region
  /\ Parser.normalizeRegion (Js.toLowerCase region) = Ok region
  /\ Parser.plain_path (Js.toLowerCase region) = true
  /\ Js.all_chars (fun c => negb (Ascii.eqb c "/")) (Js.toLowerCase region) = true
  /\ Js.truthy (Js.toLowerCase region) = true
  /\ String.eqb (Js.toLowerCase region) "id" = false.
Proof.
  intros [-> | [-> | [-> | [-> | ->]]]]; repeat split; reflexivity.
Qed.

(** X2: the three normalisers are idempotent: a region, realm slug or
    character name that one of them returned is accepted by it again and
    returned unchanged. *)
Theorem normalisers_are_idempotent :
  (forall raw region : string,
      Parser.normalizeRegion raw = Ok region ->
      Parser.normalizeRegion region = Ok region)
  /\ (forall raw realm : string,
         Parser.normalizeRealmSlug raw = Ok realm ->
         Parser.normalizeRealmSlug realm = Ok realm)
  /\ (forall raw characterName : string,
         Parser.normalizeCharacterName raw = Ok characterName ->
         Parser.normalizeCharacterName characterName = Ok characterName).
Proof.
  split; [| split].
  - intros raw region H. apply normalizeRegion_Ok in H.
    apply (normalizeRegion_fixed region H).
  - intros raw realm H. apply normalizeRealmSlug_Ok in H.
    now apply normalizeRealmSlug_idem.
  - intros raw name H. apply normalizeCharacterName_Ok in H.
    destruct H as (c & rest & -> & Hc & Hrest & Hlen).
    apply (normalizeCharacterName_fixed c rest Hc Hrest Hlen).
Qed.

Lemma normalisers_are_idempotent_witness :
  Parser.normalizeRegion "EU" = Ok "EU"
  /\ Parser.normalizeRealmSlug "tarren-mill" = Ok "tarren-mill"
  /\ Parser.normalizeCharacterName "Abcdef" = Ok "Abcdef".
Proof.
  destruct normalisers_are_idempotent as (Hregion & Hrealm & Hname).
  split; [| split].
  - apply (Hregion "eU"). vm_compute. reflexivity.
  - apply (Hrealm "  Tarren-MILL "). vm_compute. reflexivity.
  - apply (Hname " aBCDEF"). vm_compute. reflexivity.
Defined.

(** X3: building from raw parts and parsing.  Whenever
    [buildWarcraftLogsCharacterUrl] accepts a region, realm and name, as
    typed by a user, the parser accepts the URL it built and returns the
    normalised region, realm and name.  The platform's URL constructor
    enters through its behaviour on plain paths under the upstream's
    host. *)
Theorem build_then_parse
  (newURL : string -> option Parser.URL)
  (region realm characterName built : string) :
  (forall p, Parser.plain_path p = true ->
     newURL ("https://www.warcraftlogs.com/" +:+ p)
     = Some (Parser.mkURL "www.warcraftlogs.com" ("/" +:+ p))) ->
  Parser.buildWarcraftLogsCharacterUrl region realm characterName = Ok built ->
  exists region' realm' characterName',
    Parser.normalizeRegion region = Ok region'
    /\ Parser.normalizeRealmSlug realm = Ok realm'
    /\ Parser.normalizeCharacterName characterName = Ok characterName'
    /\ Parser.parseWarcraftLogsCharacterUrl newURL (Some built)
       = Ok (Parser.Slug region' realm' characterName' built).
Proof.
  intros HnewURL. unfold Parser.buildWarcraftLogsCharacterUrl, Parser.bind.
  destruct (Parser.normalizeRegion region) as [region' |] eqn:Hregion; [| discriminate].
  destruct (Parser.normalizeRealmSlug realm) as [realm' |] eqn:Hrealm; [| discriminate].
  destruct (Parser.normalizeCharacterName characterName) as [name' |] eqn:Hname;
    [| discriminate].
  intros [= <-]. exists region', realm', name'.
  split; [reflexivity |]. split; [reflexivity |]. split; [reflexivity |].
  apply normalizeRegion_Ok, normalizeRegion_fixed in Hregion.
  destruct Hregion as (_ & Hlr & Plr & Slr & Tlr & Elr).
  apply normalizeRealmSlug_Ok in Hrealm.
  destruct (test_realm_parts realm' Hrealm) as [Trealm Crealm].
  destruct (realm_plain realm' Crealm) as [Prealm Srealm].
  apply normalizeCharacterName_Ok in Hname.
  destruct Hname as (c & rest & -> & Hc & Hrest & Hlen).
  destruct (normalizeCharacterName_fixed c rest Hc Hrest Hlen) as (_ & Hlname & Llname).
  destruct (letters_plain _ Llname) as [Plname Slname].
  apply (parse_plain_slug newURL HnewURL); try assumption.
  - reflexivity.
  - now apply normalizeRealmSlug_idem.
Qed.

Lemma build_then_parse_witness :
  exists region' realm' characterName',
    Parser.normalizeRegion "eu" = Ok region'
    /\ Parser.normalizeRealmSlug " Tarren-Mill" = Ok realm'
    /\ Parser.normalizeCharacterName "aBCDEF " = Ok characterName'
    /\ Parser.parseWarcraftLogsCharacterUrl Parser.URL_plain
         (Some "https://www.warcraftlogs.com/character/eu/tarren-mill/abcdef")
       = Ok (Parser.Slug region' realm' characterName'
               "https://www.warcraftlogs.com/character/eu/tarren-mill/abcdef").
Proof.
  apply (build_then_parse Parser.URL_plain "eu" " Tarren-Mill" "aBCDEF ").
  - exact URL_plain_on_plain_paths.
  - vm_compute. reflexivity.
Defined.

(** ** The client: failures and missing data *)

Lemma includes_app_r (sub a b : string) :
  Js.includes sub b = true -> Js.includes sub (a +:+ b) = true.
Proof.
  intros H. induction a as [| c a IH]; [exact H |].
  change (String c a +:+ b) with (String c (a +:+ b)).
  cbn [Js.includes]. rewrite IH. apply orb_true_r.
Qed.

Lemma token_unconfigured (clientId clientSecret : option string)
  (exchange : Client.TokenOutcome) :
  Client.nonEmptyString clientId = None \/ Client.nonEmptyString clientSecret = None ->
  Client.getWarcraftLogsToken clientId clientSecret exchange
  = inl (Client.mkJsError (Some "WCL_CONFIG_MISSING")
           (Some "Warcraft Logs API credentials not configured")).
Proof.
  unfold Client.getWarcraftLogsToken. intros [-> | ->]; [reflexivity |].
  now destruct (Client.nonEmptyString clientId).
Qed.

Lemma configured_nonEmpty (w : Enrich.World) :
  Enrich.isWarcraftLogsConfigured w = true
  <-> exists i s, Client.nonEmptyString (Enrich.WCL_CLIENT_ID w) = Some i
                  /\ Client.nonEmptyString (Enrich.WCL_CLIENT_SECRET w) = Some s.
Proof.
  unfold Enrich.isWarcraftLogsConfigured, Client.nonEmptyString.
  destruct (Enrich.WCL_CLIENT_ID w) as [i |], (Enrich.WCL_CLIENT_SECRET w) as [s |];
    try (split; [discriminate | intros (? & ? & ? & ?); discriminate]).
  destruct (Js.truthy i), (Js.truthy s); cbn [andb];
    try (split; [discriminate | intros (? & ? & ? & ?); discriminate]).
  split; [intros _; now exists i, s | reflexivity].
Qed.

(** X4: every failure of [fetchWarcraftLogsCharacter] and of
    [fetchCharacterZoneProgression] leaves with an error message and one
    of the seven codes of the client, so the handler's fallback code
    ['UNKNOWN'] never applies to them. *)
Theorem fetch_failures_are_coded
  (clientId clientSecret : option string) (exchange : Client.TokenOutcome)
  (e : Client.JsError) :
  (exists answer,
      Client.fetchWarcraftLogsCharacter clientId clientSecret exchange answer = inl e)
  \/ (exists answer,
         ZoneProgression.fetchCharacterZoneProgression clientId clientSecret
           exchange answer = inl e) ->
  In (Client.code e)
     [ Some "WCL_CONFIG_MISSING"; Some "WCL_OAUTH_FAILED";
       Some "WCL_OAUTH_NETWORK_ERROR"; Some "WCL_GRAPHQL_NETWORK_ERROR";
       Some "WCL_GRAPHQL_FAILED"; Some "WCL_GRAPHQL_ERROR";
       Some "WCL_CHARACTER_NOT_FOUND" ]
  /\ (exists m, Client.message e = Some m)
  /\ Enrich.errorCodeOf e <> "UNKNOWN".
Proof.
  assert (Htoken : forall e',
             Client.getWarcraftLogsToken clientId clientSecret exchange = inl e' ->
             In (Client.code e')
                [ Some "WCL_CONFIG_MISSING"; Some "WCL_OAUTH_FAILED";
                  Some "WCL_OAUTH_NETWORK_ERROR"; Some "WCL_GRAPHQL_NETWORK_ERROR";
                  Some "WCL_GRAPHQL_FAILED"; Some "WCL_GRAPHQL_ERROR";
                  Some "WCL_CHARACTER_NOT_FOUND" ]
             /\ (exists m, Client.message e' = Some m)
             /\ Enrich.errorCodeOf e' <> "UNKNOWN").
  { intros e'. unfold Client.getWarcraftLogsToken.
    destruct (Client.nonEmptyString clientId), (Client.nonEmptyString clientSecret);
      try destruct exchange as [| [] ? ? ?]; intros [= <-];
      (split; [cbn; tauto | split; [eexists; reflexivity | discriminate]]). }
  intros [[answer H] | [answer H]].
  - unfold Client.fetchWarcraftLogsCharacter in H.
    destruct (Client.getWarcraftLogsToken clientId clientSecret exchange) as [e' | token].
    { injection H as <-. now apply Htoken. }
    destruct answer as [reason | status statusText | [character |] [errors |]];
      try destruct (Client.parseWarcraftLogsResponse character);
      try discriminate; injection H as <-;
      (split; [cbn; tauto | split; [eexists; reflexivity | discriminate]]).
  - unfold ZoneProgression.fetchCharacterZoneProgression in H.
    destruct (Client.getWarcraftLogsToken clientId clientSecret exchange) as [e' | token].
    { injection H as <-. now apply Htoken. }
    destruct answer as [| status | [errors |] zoneRankings];
      try discriminate; injection H as <-;
      (split; [cbn; tauto | split; [eexists; reflexivity | discriminate]]).
Qed.

Lemma fetch_failures_are_coded_witness :
  (In (Client.code Examples.request_failed)
      [ Some "WCL_CONFIG_MISSING"; Some "WCL_OAUTH_FAILED";
        Some "WCL_OAUTH_NETWORK_ERROR"; Some "WCL_GRAPHQL_NETWORK_ERROR";
        Some "WCL_GRAPHQL_FAILED"; Some "WCL_GRAPHQL_ERROR";
        Some "WCL_CHARACTER_NOT_FOUND" ]
   /\ (exists m, Client.message Examples.request_failed = Some m)
   /\ Enrich.errorCodeOf Examples.request_failed <> "UNKNOWN")
  /\ Client.fetchWarcraftLogsCharacter (Some "id") (Some "secret")
       (Client.TokenResponse true 200 "OK" "token")
       (Client.QueryAnswer (Some Examples.character_undated) None)
     = inl Examples.network_error
  /\ Enrich.errorCodeOf Examples.network_error <> "UNKNOWN".
Proof.
  split; [| split; [vm_compute; reflexivity |]].
  - apply (fetch_failures_are_coded (Some "id") (Some "secret")
             (Client.TokenResponse true 200 "OK" "token")).
    left. exists (Client.QueryHttpError 500 "Internal Server Error").
    vm_compute. reflexivity.
  - apply (fetch_failures_are_coded (Some "id") (Some "secret")
             (Client.TokenResponse true 200 "OK" "token")).
    left. exists (Client.QueryAnswer (Some Examples.character_undated) None).
    vm_compute. reflexivity.
Defined.

(** X5: the handler's pre-flight test and the client's own test of the
    credentials agree: the handler finds the upstream unconfigured exactly
    when the token request fails with [WCL_CONFIG_MISSING], whatever the
    upstream would answer; so past the pre-flight test no fetch fails
    with that code. *)
Theorem preflight_agrees_with_client (w : Enrich.World) :
  (forall exchange : Client.TokenOutcome,
      Enrich.isWarcraftLogsConfigured w = false
      <-> Client.getWarcraftLogsToken (Enrich.WCL_CLIENT_ID w)
            (Enrich.WCL_CLIENT_SECRET w) exchange
          = inl (Client.mkJsError (Some "WCL_CONFIG_MISSING")
                   (Some "Warcraft Logs API credentials not configured")))
  /\ (forall (region realm characterName : string) (e : Client.JsError),
         Enrich.isWarcraftLogsConfigured w = true ->
         Enrich.fetchWarcraftLogsCharacter w region realm characterName = inl e ->
         Client.code e <> Some "WCL_CONFIG_MISSING")
  /\ (forall (characterId : string) (e : Client.JsError),
         Enrich.isWarcraftLogsConfigured w = true ->
         Enrich.fetchWarcraftLogsCharacterById w characterId = inl e ->
         Client.code e <> Some "WCL_CONFIG_MISSING").
Proof.
  assert (Hconf : forall exchange e,
             Enrich.isWarcraftLogsConfigured w = true ->
             Client.getWarcraftLogsToken (Enrich.WCL_CLIENT_ID w)
               (Enrich.WCL_CLIENT_SECRET w) exchange = inl e ->
             Client.code e <> Some "WCL_CONFIG_MISSING").
  { intros exchange e Hc. apply configured_nonEmpty in Hc.
    destruct Hc as (i & s & Hi & Hs). unfold Client.getWarcraftLogsToken.
    rewrite Hi, Hs. destruct exchange as [| [] ? ? ?]; intros [= <-]; discriminate. }
  split; [| split].
  - intros exchange. split.
    + intros Hc. apply token_unconfigured.
      destruct (Client.nonEmptyString (Enrich.WCL_CLIENT_ID w)) as [i |] eqn:Hi;
        [| now left].
      destruct (Client.nonEmptyString (Enrich.WCL_CLIENT_SECRET w)) as [s |] eqn:Hs;
        [| now right].
      assert (Enrich.isWarcraftLogsConfigured w = true)
        by (apply configured_nonEmpty; now exists i, s).
      congruence.
    + intros Htoken.
      destruct (Enrich.isWarcraftLogsConfigured w) eqn:Hc; [| reflexivity].
      exfalso. apply (Hconf exchange _ eq_refl Htoken). reflexivity.
  - intros region realm characterName e Hc.
    unfold Enrich.fetchWarcraftLogsCharacter, Client.fetchWarcraftLogsCharacter.
    destruct (Client.getWarcraftLogsToken _ _ _) as [e' | token] eqn:Htoken.
    { intros [= <-]. now apply (Hconf _ _ Hc Htoken). }
    destruct (Enrich.characterQuery w _ _ _)
      as [reason | status statusText | [character |] [errors |]];
      try destruct (Client.parseWarcraftLogsResponse character);
      try discriminate; intros [= <-]; discriminate.
  - intros characterId e Hc.
    unfold Enrich.fetchWarcraftLogsCharacterById, Client.fetchWarcraftLogsCharacterById.
    destruct (Client.getWarcraftLogsToken _ _ _) as [e' | token] eqn:Htoken.
    { intros [= <-]. now apply (Hconf _ _ Hc Htoken). }
    destruct (Enrich.characterByIdQuery w _)
      as [reason | status statusText | [character |] [errors |]];
      try destruct (Client.parseWarcraftLogsResponse character);
      try discriminate; intros [= <-]; discriminate.
Qed.

Lemma preflight_agrees_with_client_witness :
  Client.getWarcraftLogsToken (Enrich.WCL_CLIENT_ID (Examples.world false 0))
    (Enrich.WCL_CLIENT_SECRET (Examples.world false 0))
    (Client.TokenResponse true 200 "OK" "token")
  = inl (Client.mkJsError (Some "WCL_CONFIG_MISSING")
           (Some "Warcraft Logs API credentials not configured")).
Proof.
  destruct (preflight_agrees_with_client (Examples.world false 0)) as (Htoken & _ & _).
  apply Htoken. reflexivity.
Defined.

(** ** The cache: upsert, delete and the constraints of the table *)

Lemma keyOf_lookupOf (data : Cache.UpsertData) :
  Cache.keyOf (Cache.lookupOf data)
  = (Cache.d_region data, Cache.d_realm data, Cache.d_character_name data,
     Cache.seasonKeyOf (Cache.d_season_key data)).
Proof. reflexivity. Qed.

(** What an upsert returns and leaves behind. *)
Lemma upsert_result (now : Z) (db : Cache.Store) (data : Cache.UpsertData) :
  exists db' row,
    Cache.upsertCacheEntry now db data = Ok (db', Some (Cache.parseRow row))
    /\ Cache.rows db' !! Cache.keyOf (Cache.lookupOf data) = Some row
    /\ Cache.findCachedCharacter db' (Cache.lookupOf data) = Some (Cache.parseRow row)
    /\ (forall k, k <> Cache.keyOf (Cache.lookupOf data) ->
                  Cache.rows db' !! k = Cache.rows db !! k)
    /\ match Cache.rows db !! Cache.keyOf (Cache.lookupOf data) with
       | Some old =>
           Cache.id row = Cache.id old
           /\ Cache.created_at row = Cache.created_at old
           /\ Cache.character_id row = Cache.character_id old
           /\ Cache.keyOfRow row = Cache.keyOfRow old
           /\ Cache.lastInsertRowid db' = Cache.lastInsertRowid db
       | None =>
           Cache.id row = (Cache.lastInsertRowid db + 1)%Z
           /\ Cache.created_at row = Cache.DATETIME now
           /\ Cache.character_id row = None
           /\ Cache.keyOfRow row = Cache.keyOf (Cache.lookupOf data)
           /\ Cache.lastInsertRowid db' = (Cache.lastInsertRowid db + 1)%Z
       end.
Proof.
  destruct (Cache.rows db !! Cache.keyOf (Cache.lookupOf data)) as [old |] eqn:Hold.
  - destruct (Cache.noFields data) eqn:Hfields.
    + exists db, old. split.
      { apply upsert_without_fields; [| exact Hfields].
        unfold Cache.findCachedCharacter. now rewrite Hold. }
      split; [exact Hold |]. split.
      { unfold Cache.findCachedCharacter. now rewrite Hold. }
      split; [reflexivity |]. repeat split.
    + destruct (upsert_with_fields now db data old Hold Hfields)
        as (db' & Hupsert & Hrow & Hframe & Hlast).
      exists db', (Cache.applyUpdates now data old).
      split; [exact Hupsert |]. split; [exact Hrow |]. split.
      { unfold Cache.findCachedCharacter. now rewrite Hrow. }
      split; [exact Hframe |]. repeat split. exact Hlast.
  - unfold Cache.upsertCacheEntry, Cache.findCachedCharacter, Cache.createCacheEntry.
    cbv zeta. rewrite Hold. cbn [fmap option_fmap option_map].
    rewrite <- keyOf_lookupOf, Hold.
    eexists. eexists. split; [reflexivity |]. cbn [Cache.rows Cache.lastInsertRowid].
    rewrite lookup_insert_eq. split; [reflexivity |]. split; [reflexivity |].
    split; [intros k Hk; now rewrite lookup_insert_ne |]. repeat split.
Qed.

(** X6: [upsertCacheEntry] never runs into the unique constraint, and
    what it returns is what a lookup of the same key finds afterwards.
    Rows under other keys are untouched.  A new row takes the next row id
    and the current time, cut to the whole second, as [created_at]; an
    existing row keeps its id and [created_at].  The column [character_id] is never written: it is
    [NULL] in a new row and unchanged in an existing one, whatever the
    caller supplies. *)
Theorem upsert_then_find (now : Z) (db : Cache.Store) (data : Cache.UpsertData) :
  exists db' row,
    Cache.upsertCacheEntry now db data = Ok (db', Some (Cache.parseRow row))
    /\ Cache.rows db' !! Cache.keyOf (Cache.lookupOf data) = Some row
    /\ Cache.findCachedCharacter db' (Cache.lookupOf data) = Some (Cache.parseRow row)
    /\ (forall k, k <> Cache.keyOf (Cache.lookupOf data) ->
                  Cache.rows db' !! k = Cache.rows db !! k)
    /\ match Cache.rows db !! Cache.keyOf (Cache.lookupOf data) with
       | Some old =>
           Cache.id row = Cache.id old
           /\ Cache.created_at row = Cache.created_at old
           /\ Cache.character_id row = Cache.character_id old
           /\ Cache.keyOfRow row = Cache.keyOfRow old
           /\ Cache.lastInsertRowid db' = Cache.lastInsertRowid db
       | None =>
           Cache.id row = (Cache.lastInsertRowid db + 1)%Z
           /\ Cache.created_at row = Cache.DATETIME now
           /\ Cache.character_id row = None
           /\ Cache.keyOfRow row = Cache.keyOf (Cache.lookupOf data)
           /\ Cache.lastInsertRowid db' = (Cache.lastInsertRowid db + 1)%Z
       end.
Proof. exact (upsert_result now db data). Qed.

Lemma upsert_keeps_well_formed (now : Z) (db db' : Cache.Store)
  (data : Cache.UpsertData) (r : option Cache.Row) :
  Cache.well_formed db ->
  Cache.upsertCacheEntry now db data = Ok (db', r) ->
  Cache.well_formed db'.
Proof.
  intros [Hkeys Hids] Hupsert.
  destruct (upsert_result now db data)
    as (db1 & row & Hupsert1 & Hrow & _ & Hframe & Hold).
  rewrite Hupsert1 in Hupsert. injection Hupsert as -> _.
  set (key := Cache.keyOf (Cache.lookupOf data)) in *.
  assert (Hlast : (Cache.lastInsertRowid db <= Cache.lastInsertRowid db')%Z).
  { destruct (Cache.rows db !! key); destruct Hold as (_ & _ & _ & _ & ->); lia. }
  assert (Hnew : Cache.keyOfRow row = key
                 /\ (Cache.id row <= Cache.lastInsertRowid db')%Z).
  { destruct (Cache.rows db !! key) as [old |] eqn:Eold.
    - destruct Hold as (Hid & _ & _ & Hk & Hl).
      destruct (Hkeys key old Eold) as [Hkold Hidold].
      rewrite Hk, Hid, Hl. now split.
    - destruct Hold as (Hid & _ & _ & Hk & Hl). rewrite Hid, Hl. split; [exact Hk | lia]. }
  assert (Hfresh : forall k other, k <> key -> Cache.rows db !! k = Some other ->
                                   Cache.id other <> Cache.id row).
  { intros k other Hk Hother Heq.
    destruct (Cache.rows db !! key) as [old |] eqn:Eold.
    - destruct Hold as (Hid & _). apply Hk.
      apply (Hids k key other old Hother Eold). congruence.
    - destruct Hold as (Hid & _). destruct (Hkeys k other Hother) as [_ Hle]. lia. }
  split.
  - intros k r' Hr'. destruct (decide (k = key)) as [-> | Hk].
    + rewrite Hrow in Hr'. injection Hr' as <-. exact Hnew.
    + rewrite (Hframe k Hk) in Hr'. destruct (Hkeys k r' Hr') as [Hk' Hle].
      split; [exact Hk' | lia].
  - intros k k' r1 r2 H1 H2 Heq.
    destruct (decide (k = key)) as [-> | Hk], (decide (k' = key)) as [-> | Hk'].
    + reflexivity.
    + rewrite Hrow in H1. injection H1 as <-. rewrite (Hframe k' Hk') in H2.
      exfalso. apply (Hfresh k' r2 Hk' H2). now symmetry.
    + rewrite Hrow in H2. injection H2 as <-. rewrite (Hframe k Hk) in H1.
      exfalso. now apply (Hfresh k r1 Hk H1).
    + rewrite (Hframe k Hk) in H1. rewrite (Hframe k' Hk') in H2.
      now apply (Hids k k' r1 r2).
Qed.

Lemma delete_keeps_well_formed (db : Cache.Store) (lookup : Cache.CharacterLookup) :
  Cache.well_formed db -> Cache.well_formed (fst (Cache.deleteCacheEntry db lookup)).
Proof.
  intros [Hkeys Hids]. unfold Cache.well_formed, Cache.deleteCacheEntry.
  cbn [fst Cache.rows Cache.lastInsertRowid]. split.
  - intros k row Hrow. apply lookup_delete_Some in Hrow. destruct Hrow as [_ Hrow].
    now apply Hkeys.
  - intros k k' r1 r2 H1 H2. apply lookup_delete_Some in H1, H2.
    destruct H1 as [_ H1], H2 as [_ H2]. now apply Hids.
Qed.

(** X7: the constraints of the cache table are kept.  The empty table
    meets them, and [upsertCacheEntry] and [deleteCacheEntry] keep them:
    the key columns of every row are the key it is found under, row ids
    are distinct and none exceeds the last one handed out. *)
Theorem cache_constraints_are_kept :
  Cache.well_formed (Cache.mkStore ∅ 0)
  /\ (forall (now : Z) (db db' : Cache.Store) (data : Cache.UpsertData)
             (r : option Cache.Row),
         Cache.well_formed db ->
         Cache.upsertCacheEntry now db data = Ok (db', r) ->
         Cache.well_formed db')
  /\ (forall (db : Cache.Store) (lookup : Cache.CharacterLookup),
         Cache.well_formed db ->
         Cache.well_formed (fst (Cache.deleteCacheEntry db lookup))).
Proof.
  split; [| split].
  - split.
    + intros k row H. cbn [Cache.rows] in H. now rewrite lookup_empty in H.
    + intros k k' r1 r2 H. cbn [Cache.rows] in H. now rewrite lookup_empty in H.
  - exact upsert_keeps_well_formed.
  - exact delete_keeps_well_formed.
Qed.

Lemma cache_constraints_are_kept_witness :
  Cache.upsertCacheEntry 1500 Examples.empty_store Examples.key_only_data
  = Ok (Examples.store_one, Some Examples.row_created)
  /\ Cache.upsertCacheEntry 2500 Examples.store_one Examples.failed_abcdef
     = Ok (Examples.store_two, Some Examples.row_abcdef)
  /\ Cache.upsertCacheEntry 3500 Examples.store_two Examples.failed_testchar
     = Ok (Examples.store_two_updated, Some Examples.row_updated)
  /\ Cache.well_formed Examples.store_two_updated
  /\ Cache.deleteCacheEntry Examples.store_two_updated
       (Cache.mkLookup "US" "area-52" "Testchar" None)
     = (Cache.mkStore {[ Examples.abcdef_key := Examples.row_abcdef ]} 2, true)
  /\ Cache.well_formed
       (fst (Cache.deleteCacheEntry Examples.store_two_updated
               (Cache.mkLookup "US" "area-52" "Testchar" None))).
Proof.
  destruct cache_constraints_are_kept as (Hempty & Hupsert & Hdelete).
  assert (E1 : Cache.upsertCacheEntry 1500 Examples.empty_store Examples.key_only_data
               = Ok (Examples.store_one, Some Examples.row_created))
    by (vm_compute; reflexivity).
  assert (E2 : Cache.upsertCacheEntry 2500 Examples.store_one Examples.failed_abcdef
               = Ok (Examples.store_two, Some Examples.row_abcdef))
    by (vm_compute; reflexivity).
  assert (E3 : Cache.upsertCacheEntry 3500 Examples.store_two Examples.failed_testchar
               = Ok (Examples.store_two_updated, Some Examples.row_updated))
    by (vm_compute; reflexivity).
  assert (Hwf : Cache.well_formed Examples.store_two_updated).
  { apply (Hupsert _ _ _ _ _ (Hupsert _ _ _ _ _ (Hupsert _ _ _ _ _ Hempty E1) E2) E3). }
  split; [exact E1 |]. split; [exact E2 |]. split; [exact E3 |].
  split; [exact Hwf |].
  split; [vm_compute; reflexivity |].
  apply Hdelete. exact Hwf.
Defined.

(** X8: [deleteCacheEntry] removes the entry and nothing else.  A lookup
    of the deleted key finds nothing afterwards, the answer tells whether
    an entry was there, entries under other keys are found as before, and
    deleting again answers false.  A lookup without a season key names
    the season ['latest']. *)
Theorem delete_then_find (db : Cache.Store) (lookup : Cache.CharacterLookup) :
  let db' := fst (Cache.deleteCacheEntry db lookup) in
  Cache.findCachedCharacter db' lookup = None
  /\ (snd (Cache.deleteCacheEntry db lookup) = true
      <-> exists row, Cache.findCachedCharacter db lookup = Some row)
  /\ (forall lookup', Cache.keyOf lookup' <> Cache.keyOf lookup ->
        Cache.findCachedCharacter db' lookup' = Cache.findCachedCharacter db lookup')
  /\ Cache.deleteCacheEntry db' lookup = (db', false)
  /\ Cache.deleteCacheEntry db
       (Cache.mkLookup (Cache.l_region lookup) (Cache.l_realm lookup)
                       (Cache.l_character_name lookup) None)
     = Cache.deleteCacheEntry db
         (Cache.mkLookup (Cache.l_region lookup) (Cache.l_realm lookup)
                         (Cache.l_character_name lookup) (Some "latest")).
Proof.
  cbv zeta. unfold Cache.deleteCacheEntry, Cache.findCachedCharacter.
  cbn [fst snd Cache.rows Cache.lastInsertRowid].
  split; [| split; [| split; [| split]]].
  - now rewrite lookup_delete_eq.
  - destruct (Cache.rows db !! Cache.keyOf lookup) as [row |].
    + split; [intros _; now eexists | reflexivity].
    + split; [discriminate | intros [row H]; discriminate].
  - intros lookup' Hne. now rewrite lookup_delete_ne.
  - rewrite lookup_delete_eq. f_equal. f_equal. apply delete_delete_eq.
  - reflexivity.
Qed.

Lemma delete_then_find_witness :
  snd (Cache.deleteCacheEntry Examples.store_with_testchar
         (Cache.mkLookup "US" "area-52" "Testchar" None)) = true.
Proof.
  destruct (delete_then_find Examples.store_with_testchar
              (Cache.mkLookup "US" "area-52" "Testchar" None)) as (_ & Hdeleted & _).
  apply Hdeleted. eexists. vm_compute. reflexivity.
Defined.

(** X9: how long an entry that an upsert has written stays fresh.  When
    the upsert inserts the entry or supplies at least one field, the entry
    it returns is stamped with the time of the upsert cut to the whole
    second, and under a threshold of [h] whole hours it is stale exactly
    from [h] hours after the instant that [new Date] makes of that stamp.
    Where the zone of the process is UTC it is stale once [h] hours have
    passed since the upsert, it is not stale up to one second before
    that, and within that second it is stale exactly when [h] hours have
    passed since the stamp. *)
Theorem written_entry_is_fresh (parseDate : Z -> Z) (now now' : Z)
  (db db' : Cache.Store) (data : Cache.UpsertData) (r : option Cache.Row) (h : Z) :
  Cache.noFields data = false
  \/ Cache.findCachedCharacter db (Cache.lookupOf data) = None ->
  Cache.upsertCacheEntry now db data = Ok (db', r) ->
  r = Cache.findCachedCharacter db' (Cache.lookupOf data)
  /\ Cache.updated_at <$> r = Some (Cache.DATETIME now)
  /\ (Cache.isCacheStale parseDate now' r (inject_Z h) = true
      <-> (h * 3600000 <= now' - parseDate (Cache.DATETIME now))%Z)
  /\ (Cache.isCacheStale Cache.parseUTC now' r (inject_Z h) = true
      <-> (h * 3600000 <= now' - Cache.DATETIME now)%Z)
  /\ ((h * 3600000 <= now' - now)%Z ->
      Cache.isCacheStale Cache.parseUTC now' r (inject_Z h) = true)
  /\ ((now' - now <= h * 3600000 - 1000)%Z ->
      Cache.isCacheStale Cache.parseUTC now' r (inject_Z h) = false).
Proof.
  intros Hwritten Hupsert.
  destruct (upsert_result now db data)
    as (db1 & row & Hupsert1 & Hrow & Hfind & _ & _).
  rewrite Hupsert1 in Hupsert. injection Hupsert as <- <-.
  split; [now rewrite Hfind |].
  assert (Hupdated : Cache.updated_at row = Cache.DATETIME now).
  { destruct (Cache.rows db !! Cache.keyOf (Cache.lookupOf data)) as [old |] eqn:Hold.
    - destruct Hwritten as [Hfields | Hnone].
      + destruct (upsert_with_fields now db data old Hold Hfields)
          as (db2 & Hupsert2 & Hrow2 & _).
        rewrite Hupsert1 in Hupsert2. injection Hupsert2 as <- Hparsed.
        rewrite Hrow in Hrow2. now injection Hrow2 as ->.
      + unfold Cache.findCachedCharacter in Hnone. now rewrite Hold in Hnone.
    - destruct (upsert_absent_inserts now db data Hold)
        as (db2 & row2 & Hupsert2 & Hrow2 & Hupd & _).
      rewrite Hupsert1 in Hupsert2. injection Hupsert2 as <- Hparsed.
      rewrite Hrow in Hrow2. now injection Hrow2 as ->. }
  assert (Hiff : forall parse,
             Cache.isCacheStale parse now' (Some (Cache.parseRow row)) (inject_Z h) = true
             <-> (h * 3600000 <= now' - parse (Cache.DATETIME now))%Z).
  { intros parse. rewrite isCacheStale_hours.
    cbn [Cache.parseRow Cache.updated_at]. now rewrite Hupdated. }
  assert (Hutc : Cache.parseUTC (Cache.DATETIME now) = Cache.DATETIME now).
  { unfold Cache.parseUTC, Cache.parseLocal. lia. }
  pose proof (DATETIME_bounds now) as Hbounds.
  split; [cbn [fmap option_fmap option_map Cache.parseRow Cache.updated_at];
          now rewrite Hupdated |].
  split; [apply Hiff |].
  split; [rewrite Hiff, Hutc; reflexivity |].
  split.
  - intros Hage. apply Hiff. rewrite Hutc. lia.
  - intros Hage.
    destruct (Cache.isCacheStale Cache.parseUTC now' (Some (Cache.parseRow row))
                (inject_Z h)) eqn:E; [| reflexivity].
    apply Hiff in E. rewrite Hutc in E. lia.
Qed.

Lemma written_entry_is_fresh_witness :
  exists r,
    Cache.upsertCacheEntry (2 * Examples.hour + 500) Examples.empty_store
                           Examples.key_only_data
    = Ok (Cache.mkStore
            {[ Examples.testchar_key :=
                 Cache.mkRow 1 None "US" "area-52" "Testchar" "latest"
                   (Some Cache.emptyCard) None None Cache.partial None
                   (2 * Examples.hour) (2 * Examples.hour) ]} 1, r)
    /\ Cache.updated_at <$> r = Some (2 * Examples.hour)%Z
    /\ Cache.isCacheStale Cache.parseUTC (8 * Examples.hour + 499) r (inject_Z 6) = true
    /\ Cache.isCacheStale Cache.parseUTC (8 * Examples.hour - 500) r (inject_Z 6) = false
    /\ Cache.isCacheStale Examples.parseDate_UTC_minus_5 (12 * Examples.hour) r
                          (inject_Z 6) = false.
Proof.
  eexists. split; [vm_compute; reflexivity |].
  pose proof (fun parseDate now' =>
                written_entry_is_fresh parseDate (2 * Examples.hour + 500) now'
                  Examples.empty_store _ Examples.key_only_data _ 6
                  (or_intror eq_refl) eq_refl) as H.
  split; [exact (proj1 (proj2 (H Cache.parseUTC 0%Z))) |].
  split.
  - destruct (H Cache.parseUTC (8 * Examples.hour + 499)%Z) as (_ & _ & _ & Hiff & _).
    apply Hiff. vm_compute. discriminate.
  - split.
    + destruct (H Cache.parseUTC (8 * Examples.hour - 500)%Z)
        as (_ & _ & _ & _ & _ & Hfresh).
      apply Hfresh. vm_compute. discriminate.
    + vm_compute. reflexivity.
Defined.

(** ** The handler: the shape of its answers *)

Local Ltac split_matches :=
  repeat match goal with
         | |- context [match ?x with _ => _ end] => destruct x eqn:?
         end.

(** Every answer of [POST] is one of three: a success with a card, an
    error made from a string with one of the statuses 400, 500, 503, or
    an upstream error with the status 502; and the store is left as it
    was unless an upsert at the time of the request produced the new
    one. *)
Lemma POST_cases (w : Enrich.World) (db : Cache.Store)
  (body : option Enrich.RequestBody) :
  ((exists card msg, fst (Enrich.POST w db body) = Api.successResponse card msg)
   /\ (snd (Enrich.POST w db body) = db
       \/ exists data r,
            Cache.upsertCacheEntry (Enrich.now w) db data
            = Ok (snd (Enrich.POST w db body), r)))
  \/ (exists text c,
         Enrich.POST w db body = (Api.errorResponse (Api.ErrString text) (Some c), db)
         /\ In c [400; 500; 503]%Z)
  \/ (exists notFound errorCode errorMessage,
         Enrich.POST w db body
         = (Enrich.upstreamErrorResponse notFound errorCode errorMessage, db)).
Proof.
  unfold Enrich.POST, Enrich.POST_slug, Enrich.POST_id, Enrich.onFetchError.
  cbv zeta. split_matches; cbn [fst snd];
    first
      [ right; left; do 2 eexists; split; [reflexivity | cbn; tauto]
      | right; right; do 3 eexists; reflexivity
      | left; split;
        [ do 2 eexists; reflexivity
        | first [ left; reflexivity | right; do 2 eexists; eassumption ] ] ].
Qed.

(** X10: the shape of every answer of the enrichment endpoint.  The
    status is one of 200, 400, 500, 502 and 503; the answer is a success
    exactly when the status is 200, and exactly then it carries a card. *)
Theorem POST_answer_shape (w : Enrich.World) (db : Cache.Store)
  (body : option Enrich.RequestBody) :
  let answer := fst (Enrich.POST w db body) in
  In (Api.status answer) [200; 400; 500; 502; 503]%Z
  /\ (Api.success answer = true <-> Api.status answer = 200%Z)
  /\ (Api.success answer = true <-> exists card, Api.data answer = Some card).
Proof.
  cbv zeta.
  destruct (POST_cases w db body)
    as [[(card & msg & ->) _]
       | [(text & c & -> & Hc) | (notFound & errorCode & errorMessage & ->)]];
    cbn [fst].
  - cbn. split; [tauto |]. split; [tauto |]. split; [now eexists | reflexivity].
  - assert (Hstatus : Api.status (@Api.errorResponse Enrich.PlayerCard
                                    (Api.ErrString text) (Some c)) = c).
    { cbn in Hc. destruct Hc as [<- | [<- | [<- | []]]]; reflexivity. }
    rewrite Hstatus. cbn [Api.errorResponse Api.success Api.data].
    split; [cbn in Hc |- *; tauto |]. split.
    + split; [discriminate |]. intros ->. cbn in Hc. intuition discriminate.
    + split; [discriminate | intros [card H]; discriminate].
  - cbn. split; [tauto |]. split.
    + split; discriminate.
    + split; [discriminate | intros [card H]; discriminate].
Qed.

Lemma POST_answer_shape_witness :
  Api.success (fst (Enrich.POST (Examples.world true (5 * Examples.hour))
                      Examples.store_with_testchar (Some (Examples.request false))))
  = true.
Proof.
  destruct (POST_answer_shape (Examples.world true (5 * Examples.hour))
              Examples.store_with_testchar (Some (Examples.request false)))
    as (_ & Hsuccess & _).
  apply Hsuccess. vm_compute. reflexivity.
Defined.

(** X11: a request that is answered with an error changes nothing and
    carries no card.  Unless the status is 502, the message of the answer
    is the generic ['An unexpected error occurred']: the handler passes
    its explanation to [errorResponse] as a string, which [handleError]
    does not read. *)
Theorem failed_request_changes_nothing (w : Enrich.World) (db : Cache.Store)
  (body : option Enrich.RequestBody) :
  Api.success (fst (Enrich.POST w db body)) = false ->
  snd (Enrich.POST w db body) = db
  /\ Api.data (fst (Enrich.POST w db body)) = None
  /\ (Api.status (fst (Enrich.POST w db body)) <> 502%Z ->
      Api.message (fst (Enrich.POST w db body)) = Some "An unexpected error occurred").
Proof.
  destruct (POST_cases w db body)
    as [[(card & msg & ->) _]
       | [(text & c & -> & Hc) | (notFound & errorCode & errorMessage & ->)]];
    cbn [fst snd].
  - discriminate.
  - intros _. repeat split.
  - intros _. split; [reflexivity |]. split; [reflexivity |].
    intros H. now contradiction H.
Qed.

Lemma failed_request_changes_nothing_witness :
  snd (Enrich.POST (Examples.world true 0) Examples.store_with_testchar None)
  = Examples.store_with_testchar
  /\ Api.message (fst (Enrich.POST (Examples.world true 0)
                         Examples.store_with_testchar None))
     = Some "An unexpected error occurred".
Proof.
  destruct (failed_request_changes_nothing (Examples.world true 0)
              Examples.store_with_testchar None) as (Hstore & _ & Hmessage).
  - vm_compute. reflexivity.
  - split; [exact Hstore |]. apply Hmessage. vm_compute. discriminate.
Defined.

(** X12: what a request can do to the cache.  It deletes no row, it
    changes or adds the row of at most one key, and it keeps the
    constraints of the table. *)
Theorem POST_touches_one_row (w : Enrich.World) (db : Cache.Store)
  (body : option Enrich.RequestBody) :
  let db' := snd (Enrich.POST w db body) in
  (exists key, forall k, k <> key -> Cache.rows db' !! k = Cache.rows db !! k)
  /\ (forall k, is_Some (Cache.rows db !! k) -> is_Some (Cache.rows db' !! k))
  /\ (Cache.well_formed db -> Cache.well_formed db').
Proof.
  cbv zeta.
  assert (Hsame : snd (Enrich.POST w db body) = db ->
                  (exists key : Cache.Key, forall k, k <> key ->
                     Cache.rows (snd (Enrich.POST w db body)) !! k = Cache.rows db !! k)
                  /\ (forall k, is_Some (Cache.rows db !! k) ->
                                is_Some (Cache.rows (snd (Enrich.POST w db body)) !! k))
                  /\ (Cache.well_formed db ->
                      Cache.well_formed (snd (Enrich.POST w db body)))).
  { intros ->. split; [exists ("", "", "", ""); reflexivity |]. now split. }
  destruct (POST_cases w db body)
    as [[_ [Heq | (data & r & Hupsert)]]
       | [(text & c & Heq & _) | (notFound & errorCode & errorMessage & Heq)]].
  - now apply Hsame.
  - destruct (upsert_result (Enrich.now w) db data)
      as (db1 & row & Hupsert1 & Hrow & _ & Hframe & _).
    assert (Hdb : db1 = snd (Enrich.POST w db body)) by congruence.
    rewrite <- Hdb. split; [| split].
    + exists (Cache.keyOf (Cache.lookupOf data)). exact Hframe.
    + intros k Hk. destruct (decide (k = Cache.keyOf (Cache.lookupOf data))) as [-> | Hne].
      * rewrite Hrow. now eexists.
      * now rewrite (Hframe k Hne).
    + intros Hwf. eapply upsert_keeps_well_formed; [exact Hwf | exact Hupsert1].
  - apply Hsame. now rewrite Heq.
  - apply Hsame. now rewrite Heq.
Qed.

Lemma POST_touches_one_row_witness :
  Cache.well_formed
    (snd (Enrich.POST (Examples.world true (7 * Examples.hour + 1500))
            (snd (Enrich.POST (Examples.world_found 1500) Examples.empty_store
                    (Some (Examples.request false))))
            (Some (Examples.request false))))
  /\ Cache.updated_at
       <$> Cache.rows (snd (Enrich.POST (Examples.world_found 1500) Examples.empty_store
                              (Some (Examples.request false))))
           !! Examples.testchar_key
     = Some 1000%Z
  /\ (fun row => (Cache.id row, Cache.fetch_status row, Cache.updated_at row))
       <$> Cache.rows
             (snd (Enrich.POST (Examples.world true (7 * Examples.hour + 1500))
                     (snd (Enrich.POST (Examples.world_found 1500) Examples.empty_store
                             (Some (Examples.request false))))
                     (Some (Examples.request false))))
           !! Examples.testchar_key
     = Some (1%Z, Cache.failed, (7 * Examples.hour + 1000)%Z).
Proof.
  split; [| split; vm_compute; reflexivity].
  destruct (POST_touches_one_row (Examples.world true (7 * Examples.hour + 1500))
              (snd (Enrich.POST (Examples.world_found 1500) Examples.empty_store
                      (Some (Examples.request false))))
              (Some (Examples.request false))) as (_ & _ & Hwf2).
  apply Hwf2.
  destruct (POST_touches_one_row (Examples.world_found 1500) Examples.empty_store
              (Some (Examples.request false))) as (_ & _ & Hwf1).
  apply Hwf1. split.
  - intros k row H. cbn in H. now rewrite lookup_empty in H.
  - intros k k' r1 r2 H. cbn in H. now rewrite lookup_empty in H.
Defined.

(** X13: the health check predicts the pre-flight tests of [POST].  [GET]
    always answers 200; when it reports [ok] no request is answered 503,
    and when it does not every request is answered 503 and changes
    nothing. *)
Theorem GET_predicts_preflight (w : Enrich.World) :
  exists health,
    Enrich.GET w = Api.mkResponse 200 true None (Some health)
    /\ Enrich.ok health = Enrich.hasWclToken health && Enrich.hasDb health
    /\ (Enrich.ok health = true ->
        forall db body, Api.status (fst (Enrich.POST w db body)) <> 503%Z)
    /\ (Enrich.ok health = false ->
        forall db body,
          Api.status (fst (Enrich.POST w db body)) = 503%Z
          /\ snd (Enrich.POST w db body) = db).
Proof.
  eexists. split; [reflexivity |]. cbn [Enrich.ok Enrich.hasWclToken Enrich.hasDb].
  split; [reflexivity |]. split.
  - intros Hok. apply andb_true_iff in Hok. destruct Hok as [Hconf Hdb].
    intros db body.
    unfold Enrich.POST, Enrich.POST_slug, Enrich.POST_id, Enrich.onFetchError.
    cbv zeta. rewrite Hconf, Hdb. cbn [negb].
    split_matches; cbn; discriminate.
  - intros Hok db body. unfold Enrich.POST.
    destruct (Enrich.isWarcraftLogsConfigured w); cbn [negb]; [| now split].
    cbn [andb] in Hok. rewrite Hok. cbn [negb]. now split.
Qed.

Lemma GET_predicts_preflight_witness :
  Api.status (fst (Enrich.POST (Examples.world false 0) Examples.empty_store None))
  = 503%Z.
Proof.
  destruct (GET_predicts_preflight (Examples.world false 0))
    as (health & Hget & _ & _ & Hdown).
  injection Hget as <-. apply Hdown. vm_compute. reflexivity.
Defined.

(** ** The handler: what a request leaves for the next one *)

(** The row an upsert leaves when the caller supplies the card, the
    status and the error message. *)
Lemma upsert_row_fields (now : Z) (db : Cache.Store) (data : Cache.UpsertData) :
  Cache.noFields data = false ->
  exists db' row,
    Cache.upsertCacheEntry now db data = Ok (db', Some (Cache.parseRow row))
    /\ Cache.rows db' !! Cache.keyOf (Cache.lookupOf data) = Some row
    /\ (forall k, k <> Cache.keyOf (Cache.lookupOf data) ->
                  Cache.rows db' !! k = Cache.rows db !! k)
    /\ Cache.updated_at row = Cache.DATETIME now
    /\ (forall card, Cache.d_player_card data = Some card ->
                     Cache.player_card row = Some card)
    /\ (forall st, Cache.d_fetch_status data = Some st -> Cache.fetch_status row = st)
    /\ (forall t, Cache.d_wcl_last_fetched_at data = Some (Some t) ->
                  Cache.wcl_last_fetched_at row = Some t)
    /\ (Cache.d_error_message data = Some None -> Cache.error_message row = None)
    /\ (forall m, Cache.d_error_message data = Some (Some m) ->
                  Cache.error_message row = Enrich.nonEmpty (Some m)
                  \/ Cache.error_message row = Some m)
    /\ (Cache.d_player_card data = None ->
        forall old, Cache.rows db !! Cache.keyOf (Cache.lookupOf data) = Some old ->
                    Cache.player_card row = Cache.player_card old)
    /\ (forall old, Cache.rows db !! Cache.keyOf (Cache.lookupOf data) = Some old ->
                    Cache.keyOfRow row = Cache.keyOfRow old)
    /\ (Cache.rows db !! Cache.keyOf (Cache.lookupOf data) = None ->
        Cache.keyOfRow row = Cache.keyOf (Cache.lookupOf data)).
Proof.
  intros Hfields.
  destruct (Cache.rows db !! Cache.keyOf (Cache.lookupOf data)) as [old |] eqn:Hold.
  - destruct (upsert_with_fields now db data old Hold Hfields)
      as (db' & Hupsert & Hrow & Hframe & _).
    exists db', (Cache.applyUpdates now data old).
    split; [exact Hupsert |]. split; [exact Hrow |]. split; [exact Hframe |].
    cbn [Cache.applyUpdates Cache.updated_at Cache.player_card Cache.fetch_status
         Cache.wcl_last_fetched_at Cache.error_message].
    split; [reflexivity |].
    split; [intros card ->; reflexivity |].
    split; [intros st ->; reflexivity |].
    split; [intros t ->; reflexivity |].
    split; [intros ->; reflexivity |].
    split; [intros m ->; now right |].
    split; [intros -> old' [= <-]; reflexivity |].
    split; [intros old' [= <-]; reflexivity | discriminate].
  - unfold Cache.upsertCacheEntry, Cache.findCachedCharacter, Cache.createCacheEntry.
    cbv zeta. rewrite Hold. cbn [fmap option_fmap option_map].
    rewrite <- keyOf_lookupOf, Hold.
    eexists. eexists. split; [reflexivity |]. cbn [Cache.rows].
    rewrite lookup_insert_eq. split; [reflexivity |].
    split; [intros k Hk; now rewrite lookup_insert_ne |].
    cbn [Cache.updated_at Cache.player_card Cache.fetch_status
         Cache.wcl_last_fetched_at Cache.error_message].
    split; [reflexivity |].
    split; [intros card ->; reflexivity |].
    split; [intros st ->; reflexivity |].
    split; [intros t ->; reflexivity |].
    split; [intros ->; reflexivity |].
    split; [intros m ->; now left |].
    split; [intros _ old' [=] |].
    split; [intros old' [=] | reflexivity].
Qed.

Lemma POST_id_form (w : Enrich.World) (db : Cache.Store) (b : Enrich.RequestBody)
  (url characterId originalUrl : string) :
  Enrich.isWarcraftLogsConfigured w = true ->
  Enrich.storeReachable w = true ->
  Enrich.body_warcraftLogsUrl b = Some url ->
  Parser.parseWarcraftLogsCharacterUrl (Enrich.newURL w) (Some url)
  = Ok (Parser.IdForm characterId originalUrl) ->
  Enrich.POST w db (Some b)
  = Enrich.POST_id w db characterId originalUrl
      (default "latest" (Enrich.body_seasonKey b)) (Enrich.body_forceRefresh b)
      (match Enrich.getActiveSeasonConfig w with
       | Ok config => config
       | Throw _ => None
       end)
      (Enrich.updated_at <$> match Enrich.getActiveSeasonConfig w with
                             | Ok config => config
                             | Throw _ => None
                             end).
Proof.
  intros Hconf Hdb Hurl Hparse. unfold Enrich.POST.
  rewrite Hconf, Hdb, Hurl. cbn [negb].
  rewrite (parse_ok_truthy _ _ _ Hparse). cbn [negb].
  now rewrite Hparse.
Qed.

(** A request that finds an entry whose stamp, as [new Date] reads it,
    is less than six hours old. *)
Lemma served_from_cache (w : Enrich.World) (db : Cache.Store) (b : Enrich.RequestBody)
  (url region realm characterName originalUrl : string) (row : Cache.Row) :
  Enrich.isWarcraftLogsConfigured w = true ->
  Enrich.storeReachable w = true ->
  Enrich.body_warcraftLogsUrl b = Some url ->
  Parser.parseWarcraftLogsCharacterUrl (Enrich.newURL w) (Some url)
  = Ok (Parser.Slug region realm characterName originalUrl) ->
  Enrich.body_forceRefresh b = false ->
  Cache.rows db !! (region, realm, characterName,
                    Cache.seasonKeyOf (Some (default "latest" (Enrich.body_seasonKey b))))
  = Some row ->
  (Enrich.now w - Enrich.parseDate w (Cache.updated_at row) < 6 * 3600000)%Z ->
  Enrich.POST w db (Some b)
  = (Api.successResponse
       (Enrich.buildPlayerCardFromCache (Cache.parseRow row) originalUrl
          (Enrich.updated_at <$> match Enrich.getActiveSeasonConfig w with
                                 | Ok config => config
                                 | Throw _ => None
                                 end))
       (Some "Player card returned from cache"), db).
Proof.
  intros Hconf Hdb Hurl Hparse Hforce Hrow Hage.
  rewrite (POST_slug_form w db b url region realm characterName originalUrl)
    by assumption.
  assert (Hfind : Cache.findCachedCharacter db
                    (Cache.mkLookup region realm characterName
                       (Some (default "latest" (Enrich.body_seasonKey b))))
                  = Some (Cache.parseRow row))
    by exact (f_equal (fmap Cache.parseRow) Hrow).
  unfold Enrich.POST_slug. cbv zeta. rewrite Hforce. cbn [negb]. rewrite Hfind.
  assert (Hfresh : Cache.isCacheStale (Enrich.parseDate w) (Enrich.now w)
                     (Some (Cache.parseRow row)) Enrich.CACHE_TTL_HOURS = false).
  { apply not_true_is_false. intros Hstale.
    unfold Cache.isCacheStale in Hstale. apply Qle_bool_iff in Hstale.
    change Enrich.CACHE_TTL_HOURS with (inject_Z 6) in Hstale.
    apply hoursSinceUpdate_le in Hstale.
    cbn [Cache.parseRow Cache.updated_at] in Hstale.
    change (1000 * 60 * 60)%Z with 3600000%Z in Hstale. lia. }
  unfold Enrich.freshEntry. rewrite Hfresh. reflexivity.
Qed.


(** Two ways to know that the stamp of a write at [now w] is less than
    six hours old for a request in [w2]. *)
Lemma fresh_stamp (w w2 : Enrich.World) :
  (Enrich.now w2 - Enrich.parseDate w2 (Cache.DATETIME (Enrich.now w)) < 6 * 3600000)%Z
  \/ (Enrich.parseDate w2 = Cache.parseUTC
      /\ (Enrich.now w2 - Enrich.now w <= 6 * 3600000 - 1000)%Z) ->
  (Enrich.now w2 - Enrich.parseDate w2 (Cache.DATETIME (Enrich.now w)) < 6 * 3600000)%Z.
Proof.
  intros [H | [-> H]]; [exact H |].
  unfold Cache.parseUTC, Cache.parseLocal.
  pose proof (DATETIME_bounds (Enrich.now w)). lia.
Qed.

(** A successful fetch in the slug branch. *)
Lemma POST_slug_enriched (w : Enrich.World) (db : Cache.Store)
  (region realm characterName originalUrl seasonKey : string) (forceRefresh : bool)
  (activeSeasonConfig : option Enrich.SeasonConfig)
  (seasonConfigUpdatedAt : option string) (wclData : Client.ParsedWarcraftLogsData) :
  let card :=
    Enrich.freshCard w originalUrl wclData
      (Enrich.fetchBestBossKill w region realm characterName activeSeasonConfig)
      seasonConfigUpdatedAt in
  let key : Cache.Key := (region, realm, characterName, Cache.seasonKeyOf (Some seasonKey)) in
  Enrich.isWarcraftLogsConfigured w = true ->
  Enrich.freshEntry w
    (if negb forceRefresh
     then Cache.findCachedCharacter db
            (Cache.mkLookup region realm characterName (Some seasonKey))
     else None) = None ->
  Enrich.fetchWarcraftLogsCharacter w region realm characterName = inr wclData ->
  exists db' row,
    Enrich.POST_slug w db region realm characterName originalUrl seasonKey
                     forceRefresh activeSeasonConfig seasonConfigUpdatedAt
    = (Api.successResponse card (Some "Player card enriched successfully"), db')
    /\ Cache.rows db' !! key = Some row
    /\ (forall k, k <> key -> Cache.rows db' !! k = Cache.rows db !! k)
    /\ Cache.updated_at row = Cache.DATETIME (Enrich.now w)
    /\ Cache.player_card row = Some (Enrich.toJson card)
    /\ Cache.fetch_status row = Cache.complete
    /\ Cache.wcl_last_fetched_at row = Some (Enrich.now w)
    /\ Cache.error_message row = None
    /\ (forall old, Cache.rows db !! key = Some old ->
                    Cache.keyOfRow row = Cache.keyOfRow old)
    /\ (Cache.rows db !! key = None -> Cache.keyOfRow row = key).
Proof.
  intros card key Hconf Hfresh Hfetch.
  destruct (upsert_row_fields (Enrich.now w) db
              (Enrich.completeData w wclData region realm characterName seasonKey card)
              eq_refl)
    as (db' & row & Hupsert & Hrow & Hframe & Hupdated & Hcard & Hstatus & Hwcl
        & Herr & _ & _ & Hkeyold & Hkeynew).
  exists db', row. split.
  { unfold Enrich.POST_slug. cbv zeta. rewrite Hfresh, Hconf, Hfetch. cbn [negb].
    fold card. rewrite Hupsert. reflexivity. }
  split; [exact Hrow |]. split; [exact Hframe |]. split; [exact Hupdated |].
  split; [now apply Hcard |]. split; [now apply Hstatus |].
  split; [now apply Hwcl |]. split; [now apply Herr |].
  split; [exact Hkeyold | exact Hkeynew].
Qed.

Lemma stale_after_six_hours (parseDate : Z -> Z) (now : Z) (row : Cache.Row) :
  Cache.isCacheStale parseDate now (Some (Cache.parseRow row)) Enrich.CACHE_TTL_HOURS
  = true
  <-> (6 * 3600000 <= now - parseDate (Cache.updated_at row))%Z.
Proof.
  unfold Cache.isCacheStale. rewrite Qle_bool_iff.
  change Enrich.CACHE_TTL_HOURS with (inject_Z 6).
  rewrite hoursSinceUpdate_le. cbn [Cache.parseRow Cache.updated_at].
  change (1000 * 60 * 60)%Z with 3600000%Z. reflexivity.
Qed.



(** X15: an enriched card is served from the cache while its stamp is
    fresh.  A slug-form request that fetched fresh data stamps the row
    with its time cut to the whole second.  Every later request for the
    same character and season that does not force a refresh and arrives
    less than six hours after the instant that [new Date] makes of that
    stamp in its process is answered from the cache and leaves the store
    alone, whatever the upstream would answer then; in a process whose
    zone is UTC these include every request that arrives no later than
    one second short of six hours after the fetch.  The card it returns
    has the class, spec, best kill and class-spec of the fetched card, the
    status [complete], no error message and the stamp of the row; its
    name, realm and region are the key columns of the row, which for a
    table that meets its constraints are the normalised parts of the
    URL. *)
Theorem enriched_card_is_served_next
  (w w2 : Enrich.World) (db : Cache.Store) (b b2 : Enrich.RequestBody)
  (url url2 region realm characterName originalUrl originalUrl2 : string)
  (wclData : Client.ParsedWarcraftLogsData) :
  let seasonKey := default "latest" (Enrich.body_seasonKey b) in
  let activeSeasonConfig :=
    match Enrich.getActiveSeasonConfig w with
    | Ok config => config
    | Throw _ => None
    end in
  let db' := snd (Enrich.POST w db (Some b)) in
  Cache.well_formed db ->
  Enrich.isWarcraftLogsConfigured w = true ->
  Enrich.storeReachable w = true ->
  Enrich.body_warcraftLogsUrl b = Some url ->
  Parser.parseWarcraftLogsCharacterUrl (Enrich.newURL w) (Some url)
  = Ok (Parser.Slug region realm characterName originalUrl) ->
  Enrich.freshEntry w
    (if negb (Enrich.body_forceRefresh b)
     then Cache.findCachedCharacter db
            (Cache.mkLookup region realm characterName (Some seasonKey))
     else None) = None ->
  Enrich.fetchWarcraftLogsCharacter w region realm characterName = inr wclData ->
  Enrich.isWarcraftLogsConfigured w2 = true ->
  Enrich.storeReachable w2 = true ->
  Enrich.body_warcraftLogsUrl b2 = Some url2 ->
  Parser.parseWarcraftLogsCharacterUrl (Enrich.newURL w2) (Some url2)
  = Ok (Parser.Slug region realm characterName originalUrl2) ->
  default "latest" (Enrich.body_seasonKey b2) = seasonKey ->
  Enrich.body_forceRefresh b2 = false ->
  (Enrich.now w2 - Enrich.parseDate w2 (Cache.DATETIME (Enrich.now w)) < 6 * 3600000)%Z
  \/ (Enrich.parseDate w2 = Cache.parseUTC
      /\ (Enrich.now w2 - Enrich.now w <= 6 * 3600000 - 1000)%Z) ->
  exists card2,
    Enrich.POST w2 db' (Some b2)
    = ({| Api.status := 200;
          Api.success := true;
          Api.message := Some "Player card returned from cache";
          Api.data := Some card2 |}, db')
    /\ Enrich.warcraftLogsUrl card2 = originalUrl2
    /\ Enrich.characterName card2 = characterName
    /\ Enrich.realm card2 = realm
    /\ Enrich.region card2 = region
    /\ Enrich.class card2 = Enrich.nonEmpty (Client.class wclData)
    /\ Enrich.spec card2 = Enrich.nonEmpty (Client.spec wclData)
    /\ Enrich.classSpec card2 = Enrich.nonEmpty (Client.classSpec wclData)
    /\ Enrich.bestKillLatestSeason card2
       = Enrich.fetchBestBossKill w region realm characterName activeSeasonConfig
    /\ Enrich.updatedAt card2 = Cache.DATETIME (Enrich.now w)
    /\ Enrich.fetchStatus card2 = Cache.complete
    /\ Enrich.errorMessage card2 = None.
Proof.
  intros seasonKey activeSeasonConfig db' Hwf Hconf Hdb Hurl Hparse Hfresh Hfetch
         Hconf2 Hdb2 Hurl2 Hparse2 Hseason2 Hforce2 Hage.
  destruct (POST_slug_enriched w db region realm characterName originalUrl seasonKey
              (Enrich.body_forceRefresh b) activeSeasonConfig
              (Enrich.updated_at <$> activeSeasonConfig) wclData Hconf Hfresh Hfetch)
    as (db1 & row & Hpost & Hrow & Hframe & Hupdated & Hcard & Hstatus & Hwcl & Herr
        & Hkeyold & Hkeynew).
  assert (Hdb' : db' = db1).
  { subst db'.
    rewrite (POST_slug_form w db b url region realm characterName originalUrl)
      by assumption.
    fold seasonKey activeSeasonConfig. now rewrite Hpost. }
  rewrite Hdb'.
  assert (Hkey : Cache.keyOfRow row
                 = (region, realm, characterName, Cache.seasonKeyOf (Some seasonKey))).
  { destruct (Cache.rows db !! (region, realm, characterName,
                                Cache.seasonKeyOf (Some seasonKey))) as [old |] eqn:Hold.
    - rewrite (Hkeyold old Hold). destruct Hwf as [Hkeys _].
      apply (Hkeys _ old Hold).
    - exact (Hkeynew Hold). }
  injection Hkey as Hregion Hrealm Hname _.
  eexists. split.
  { apply (served_from_cache w2 db1 b2 url2 region realm characterName originalUrl2 row);
      try assumption.
    - rewrite Hseason2. exact Hrow.
    - rewrite Hupdated. now apply fresh_stamp. }
  cbn [Enrich.buildPlayerCardFromCache Cache.parseRow Cache.player_card
       Cache.character_name Cache.realm Cache.region Cache.updated_at
       Cache.fetch_status Cache.error_message default
       Enrich.warcraftLogsUrl Enrich.characterName Enrich.realm Enrich.region
       Enrich.class Enrich.spec Enrich.classSpec Enrich.bestKillLatestSeason
       Enrich.updatedAt Enrich.fetchStatus Enrich.errorMessage].
  rewrite Hcard, Herr, Hstatus, Hupdated, Hregion, Hrealm, Hname.
  repeat split.
Qed.

Lemma enriched_card_is_served_next_witness :
  exists card2,
    Enrich.POST (Examples.world true (5 * Examples.hour))
      (snd (Enrich.POST (Examples.world_found 1500) Examples.empty_store
              (Some (Examples.request false))))
      (Some (Examples.request false))
    = ({| Api.status := 200;
          Api.success := true;
          Api.message := Some "Player card returned from cache";
          Api.data := Some card2 |},
       snd (Enrich.POST (Examples.world_found 1500) Examples.empty_store
              (Some (Examples.request false))))
    /\ Enrich.class card2 = Some "Rogue"
    /\ Enrich.bestKillLatestSeason card2
       = Some (BestKill.mkBestKill 106 "Sixth" BestKill.Mythic 5)
    /\ Enrich.realm card2 = "area-52"
    /\ Enrich.updatedAt card2 = 1000%Z.
Proof.
  destruct (enriched_card_is_served_next (Examples.world_found 1500)
              (Examples.world true (5 * Examples.hour)) Examples.empty_store
              (Examples.request false) (Examples.request false)
              Examples.url_testchar Examples.url_testchar
              "US" "area-52" "Testchar" Examples.url_testchar Examples.url_testchar
              Examples.parsed_sample)
    as (card2 & Hpost & _ & _ & Hrealm & _ & Hclass & _ & _ & Hkill & Hupdated & _);
    try (vm_compute; reflexivity).
  - split.
    + intros k row H. cbn in H. now rewrite lookup_empty in H.
    + intros k k' r1 r2 H. cbn in H. now rewrite lookup_empty in H.
  - left. vm_compute. reflexivity.
  - exists card2. split; [exact Hpost |]. split; [exact Hclass |].
    split; [exact Hkill |]. split; [exact Hrealm | exact Hupdated].
Defined.

(** X16: a failed fetch is cached too.  When a slug-form request finds an
    entry that [isCacheStale] finds stale and the fetch fails, the entry
    is stamped with the time of the request cut to the whole second; so
    every later request for the same character and season that does not
    force a refresh and arrives less than six hours after the instant
    that [new Date] makes of that stamp in its process (in a process
    whose zone is UTC: no later than one second short of six hours after
    the failed request) is answered from the cache with the status
    [failed] and the error text of the failed fetch, without the upstream
    being asked again. *)
Theorem failed_fetch_is_served_next
  (w w2 : Enrich.World) (db : Cache.Store) (b b2 : Enrich.RequestBody)
  (url url2 region realm characterName originalUrl originalUrl2 : string)
  (old : Cache.Row) (e : Client.JsError) :
  let seasonKey := default "latest" (Enrich.body_seasonKey b) in
  let key : Cache.Key :=
    (region, realm, characterName, Cache.seasonKeyOf (Some seasonKey)) in
  let errorMessage :=
    Enrich.errorMessageOf "Unknown error fetching from Warcraft Logs" e in
  let db' := snd (Enrich.POST w db (Some b)) in
  Enrich.isWarcraftLogsConfigured w = true ->
  Enrich.storeReachable w = true ->
  Enrich.body_warcraftLogsUrl b = Some url ->
  Parser.parseWarcraftLogsCharacterUrl (Enrich.newURL w) (Some url)
  = Ok (Parser.Slug region realm characterName originalUrl) ->
  Enrich.body_forceRefresh b = false ->
  Cache.rows db !! key = Some old ->
  (6 * 3600000 <= Enrich.now w - Enrich.parseDate w (Cache.updated_at old))%Z ->
  Enrich.fetchWarcraftLogsCharacter w region realm characterName = inl e ->
  Enrich.isWarcraftLogsConfigured w2 = true ->
  Enrich.storeReachable w2 = true ->
  Enrich.body_warcraftLogsUrl b2 = Some url2 ->
  Parser.parseWarcraftLogsCharacterUrl (Enrich.newURL w2) (Some url2)
  = Ok (Parser.Slug region realm characterName originalUrl2) ->
  default "latest" (Enrich.body_seasonKey b2) = seasonKey ->
  Enrich.body_forceRefresh b2 = false ->
  (Enrich.now w2 - Enrich.parseDate w2 (Cache.DATETIME (Enrich.now w)) < 6 * 3600000)%Z
  \/ (Enrich.parseDate w2 = Cache.parseUTC
      /\ (Enrich.now w2 - Enrich.now w <= 6 * 3600000 - 1000)%Z) ->
  exists card2,
    Enrich.POST w2 db' (Some b2)
    = ({| Api.status := 200;
          Api.success := true;
          Api.message := Some "Player card returned from cache";
          Api.data := Some card2 |}, db')
    /\ Enrich.fetchStatus card2 = Cache.failed
    /\ Enrich.errorMessage card2 = Enrich.nonEmpty (Some errorMessage)
    /\ Enrich.updatedAt card2 = Cache.DATETIME (Enrich.now w)
    /\ Enrich.class card2
       = Enrich.nonEmpty (Cache.pc_class (default Cache.emptyCard (Cache.player_card old)))
    /\ Enrich.bestKillLatestSeason card2
       = Cache.pc_bestKillLatestSeason (default Cache.emptyCard (Cache.player_card old)).
Proof.
  intros seasonKey key errorMessage db' Hconf Hdb Hurl Hparse Hforce Hold Hstale Hfetch
         Hconf2 Hdb2 Hurl2 Hparse2 Hseason2 Hforce2 Hage.
  assert (Hfind : Cache.findCachedCharacter db
                    (Cache.mkLookup region realm characterName (Some seasonKey))
                  = Some (Cache.parseRow old))
    by exact (f_equal (fmap Cache.parseRow) Hold).
  assert (Hfresh : Enrich.freshEntry w (Some (Cache.parseRow old)) = None).
  { unfold Enrich.freshEntry.
    now rewrite (proj2 (stale_after_six_hours (Enrich.parseDate w) (Enrich.now w) old)
                       Hstale). }
  destruct (upsert_with_fields (Enrich.now w) db
              (Enrich.failedData region realm characterName seasonKey errorMessage)
              old Hold eq_refl)
    as (db1 & Hupsert & Hrow & _).
  assert (Hdb' : db' = db1).
  { subst db'.
    rewrite (POST_slug_form w db b url region realm characterName originalUrl)
      by assumption.
    fold seasonKey.
    rewrite POST_slug_fetch_failed with (e := e);
      [| exact Hconf | rewrite Hforce; cbn [negb]; now rewrite Hfind | exact Hfetch].
    rewrite Hforce. cbn [negb]. rewrite Hfind. unfold Enrich.onFetchError.
    fold errorMessage. now rewrite Hupsert. }
  rewrite Hdb'. eexists. split.
  { apply (served_from_cache w2 db1 b2 url2 region realm characterName originalUrl2
             (Cache.applyUpdates (Enrich.now w)
                (Enrich.failedData region realm characterName seasonKey errorMessage)
                old));
      try assumption.
    - rewrite Hseason2. exact Hrow.
    - cbn [Cache.applyUpdates Cache.updated_at]. now apply fresh_stamp. }
  repeat split.
Qed.

Lemma failed_fetch_is_served_next_witness :
  exists card2,
    Enrich.POST (Examples.world_found (9 * Examples.hour))
      (snd (Enrich.POST (Examples.world true (7 * Examples.hour + 1500))
              Examples.store_with_testchar (Some (Examples.request false))))
      (Some (Examples.request false))
    = ({| Api.status := 200;
          Api.success := true;
          Api.message := Some "Player card returned from cache";
          Api.data := Some card2 |},
       snd (Enrich.POST (Examples.world true (7 * Examples.hour + 1500))
              Examples.store_with_testchar (Some (Examples.request false))))
    /\ Enrich.fetchStatus card2 = Cache.failed
    /\ Enrich.errorMessage card2 = Some "WCL GraphQL request failed: 500"
    /\ Enrich.updatedAt card2 = (7 * Examples.hour + 1000)%Z.
Proof.
  destruct (failed_fetch_is_served_next (Examples.world true (7 * Examples.hour + 1500))
              (Examples.world_found (9 * Examples.hour)) Examples.store_with_testchar
              (Examples.request false) (Examples.request false)
              Examples.url_testchar Examples.url_testchar
              "US" "area-52" "Testchar" Examples.url_testchar Examples.url_testchar
              Examples.testchar_row Examples.request_failed)
    as (card2 & Hpost & Hstatus & Herror & Hupdated & _);
    try (vm_compute; reflexivity).
  - vm_compute. discriminate.
  - right. split; [reflexivity | vm_compute; discriminate].
  - exists card2. split; [exact Hpost |]. split; [exact Hstatus |].
    split; [exact Herror | exact Hupdated].
Defined.

(** ** The handler: references by id *)

(** X17: an id-form request never falls back to the cache.  Whenever the
    upstream lookup by id fails, the request is answered 502 and the store
    is left as it was, whatever it holds.  When the upstream knows no
    character with the id, the message is the notice asking for an
    updated URL: the client's error carries no code, and the notice is
    selected by the words [not found] in its message. *)
Theorem id_form_failure_is_502
  (w : Enrich.World) (db : Cache.Store) (b : Enrich.RequestBody)
  (url characterId originalUrl : string) (e : Client.JsError) :
  Enrich.isWarcraftLogsConfigured w = true ->
  Enrich.storeReachable w = true ->
  Enrich.body_warcraftLogsUrl b = Some url ->
  Parser.parseWarcraftLogsCharacterUrl (Enrich.newURL w) (Some url)
  = Ok (Parser.IdForm characterId originalUrl) ->
  Enrich.fetchWarcraftLogsCharacterById w characterId = inl e ->
  Enrich.POST w db (Some b)
  = ({| Api.status := 502;
        Api.success := false;
        Api.message :=
          Some (Enrich.upstreamErrorMessage Enrich.idNotFoundMessage
                  (Enrich.errorCodeOf e) (Enrich.errorMessageOf "Unknown error" e));
        Api.data := None |}, db)
  /\ (forall (status : Z) (statusText token : string),
        Enrich.tokenExchange w = Client.TokenResponse true status statusText token ->
        Enrich.characterByIdQuery w characterId = Client.QueryAnswer None None ->
        Client.code e = None
        /\ Enrich.upstreamErrorMessage Enrich.idNotFoundMessage
             (Enrich.errorCodeOf e) (Enrich.errorMessageOf "Unknown error" e)
           = Enrich.idNotFoundMessage).
Proof.
  intros Hconf Hdb Hurl Hparse Hfetch. split.
  - rewrite (POST_id_form w db b url characterId originalUrl) by assumption.
    unfold Enrich.POST_id. rewrite Hconf, Hfetch. reflexivity.
  - intros status statusText token Htoken Hquery.
    unfold Enrich.fetchWarcraftLogsCharacterById, Client.fetchWarcraftLogsCharacterById,
      Client.getWarcraftLogsToken in Hfetch.
    apply configured_nonEmpty in Hconf. destruct Hconf as (i & s & Hi & Hs).
    rewrite Hi, Hs, Htoken, Hquery in Hfetch.
    assert (He : e = Client.mkJsError None
                       (Some ("Character with ID " +:+ characterId
                              +:+ " not found on Warcraft Logs")))
      by congruence.
    subst e. split; [reflexivity |].
    assert (Hincludes : Js.includes "not found"
                          ("Character with ID " +:+ characterId
                           +:+ " not found on Warcraft Logs") = true).
    { apply includes_app_r, includes_app_r. vm_compute. reflexivity. }
    unfold Enrich.upstreamErrorMessage, Enrich.errorMessageOf.
    cbn [Client.message from_option id]. rewrite Hincludes. reflexivity.
Qed.

Lemma id_form_failure_is_502_witness :
  Enrich.POST (Examples.world_found 0) Examples.store_with_testchar
              (Some (Examples.request_by_id "12345"))
  = ({| Api.status := 502;
        Api.success := false;
        Api.message := Some Enrich.idNotFoundMessage;
        Api.data := None |}, Examples.store_with_testchar).
Proof.
  destruct (id_form_failure_is_502 (Examples.world_found 0) Examples.store_with_testchar
              (Examples.request_by_id "12345")
              "https://www.warcraftlogs.com/character/id/12345" "12345"
              "https://www.warcraftlogs.com/character/id/12345"
              (Client.mkJsError None
                 (Some "Character with ID 12345 not found on Warcraft Logs")))
    as (Hpost & Hnotice); [vm_compute; reflexivity .. |].
  destruct (Hnotice 200%Z "OK" "token" eq_refl eq_refl) as [_ Hmessage].
  rewrite Hpost, Hmessage. reflexivity.
Defined.

(** ** The best-kill resolver: what a result means *)

Lemma scan_Some_inv (progression : BestKill.Progression)
  (encounterNames : list BestKill.EncounterInfo) (deepestFirst : list Z)
  (b : BestKill.BestKill) :
  BestKill.scan progression encounterNames deepestFirst = Some b ->
  exists deeper shallower e,
    deepestFirst = (deeper ++ BestKill.bossId b :: shallower)%list
    /\ BestKill.orderIndex b = length shallower
    /\ (forall y, In y deeper -> BestKill.hasRankedKill progression y = false)
    /\ BestKill.hasRankedKill progression (BestKill.bossId b) = true
    /\ BestKill.bossName b = BestKill.bossNameOf encounterNames (BestKill.bossId b)
    /\ BestKill.findEncounter progression (BestKill.bossId b) = Some e
    /\ BestKill.hardest_among (BestKill.kills e) (BestKill.bestDifficulty b).
Proof.
  induction deepestFirst as [| x rest IH]; [discriminate |].
  destruct (BestKill.hasRankedKill progression x) eqn:Hranked.
  - destruct (scan_ranked progression encounterNames x rest Hranked)
      as (e & d & Hfind & Hhard & Hscan).
    rewrite Hscan. intros [= <-]. exists [], rest, e.
    cbn [BestKill.bossId BestKill.orderIndex BestKill.bossName BestKill.bestDifficulty].
    split; [reflexivity |]. split; [reflexivity |]. split; [intros y [] |].
    split; [exact Hranked |]. split; [reflexivity |]. split; [exact Hfind | exact Hhard].
  - rewrite (scan_unranked progression encounterNames x rest Hranked).
    intros Hscan. destruct (IH Hscan)
      as (deeper & shallower & e & -> & Hidx & Hdeeper & Hb & Hname & Hfind & Hhard).
    exists (x :: deeper), shallower, e.
    split; [reflexivity |]. split; [exact Hidx |]. split.
    { intros y [<- | Hy]; [exact Hranked | now apply Hdeeper]. }
    split; [exact Hb |]. split; [exact Hname |]. split; [exact Hfind | exact Hhard].
Qed.

Lemma scan_None_inv (progression : BestKill.Progression)
  (encounterNames : list BestKill.EncounterInfo) (deepestFirst : list Z) :
  BestKill.scan progression encounterNames deepestFirst = None ->
  forall x, In x deepestFirst -> BestKill.hasRankedKill progression x = false.
Proof.
  induction deepestFirst as [| x rest IH]; [intros _ y [] |].
  destruct (BestKill.hasRankedKill progression x) eqn:Hranked.
  - destruct (scan_ranked progression encounterNames x rest Hranked)
      as (e & d & _ & _ & Hscan).
    rewrite Hscan. discriminate.
  - rewrite (scan_unranked progression encounterNames x rest Hranked).
    intros Hscan y [<- | Hy]; [exact Hranked | now apply IH].
Qed.

Lemma hasRankedKill_no_encounters (progression : BestKill.Progression) (x : Z) :
  BestKill.encounters progression = [] ->
  BestKill.hasRankedKill progression x = false.
Proof.
  intros H. unfold BestKill.hasRankedKill, BestKill.findEncounter. now rewrite H.
Qed.

(** The resolver's answer, read backwards. *)
Lemma computeBestBossKill_inv
  (progression : BestKill.Progression) (encounterOrder : list Z)
  (encounterNames : list BestKill.EncounterInfo) :
  (BestKill.computeBestBossKill progression encounterOrder encounterNames = None
   <-> forall x, In x encounterOrder -> BestKill.hasRankedKill progression x = false)
  /\ (forall b,
         BestKill.computeBestBossKill progression encounterOrder encounterNames = Some b ->
         encounterOrder !! BestKill.orderIndex b = Some (BestKill.bossId b)
         /\ BestKill.bossName b = BestKill.bossNameOf encounterNames (BestKill.bossId b)
         /\ (exists e,
                BestKill.findEncounter progression (BestKill.bossId b) = Some e
                /\ BestKill.hardest_among (BestKill.kills e) (BestKill.bestDifficulty b))
         /\ (forall j y, (BestKill.orderIndex b < j)%nat -> encounterOrder !! j = Some y ->
                         BestKill.hasRankedKill progression y = false)).
Proof.
  unfold BestKill.computeBestBossKill. split.
  - destruct (length (BestKill.encounters progression) =? 0)%nat eqn:Hempty.
    + split; [| reflexivity]. intros _ x _. apply hasRankedKill_no_encounters.
      apply Nat.eqb_eq in Hempty. now destruct (BestKill.encounters progression).
    + split.
      * intros Hscan x Hx. apply (scan_None_inv _ _ _ Hscan). now apply in_rev in Hx.
      * intros Hnone.
        destruct (BestKill.scan progression encounterNames (rev encounterOrder))
          as [b |] eqn:Hscan; [| reflexivity].
        destruct (scan_Some_inv _ _ _ _ Hscan) as (deeper & shallower & e & Hrev & _ & _ & Hb & _).
        rewrite Hnone in Hb; [discriminate |].
        apply in_rev. rewrite Hrev. apply in_or_app. right. now left.
  - intros b. destruct (length (BestKill.encounters progression) =? 0)%nat;
      [discriminate |].
    intros Hscan.
    destruct (scan_Some_inv _ _ _ _ Hscan)
      as (deeper & shallower & e & Hrev & Hidx & Hdeeper & _ & Hname & Hfind & Hhard).
    assert (Horder : encounterOrder
                     = (rev shallower ++ BestKill.bossId b :: rev deeper)%list).
    { rewrite <- (rev_involutive encounterOrder), Hrev, rev_app_distr.
      cbn [rev]. now rewrite <- app_assoc. }
    assert (Hlen : length (rev shallower) = BestKill.orderIndex b)
      by now rewrite length_rev.
    split; [| split; [exact Hname | split; [now exists e |]]].
    + rewrite Horder, <- Hlen. apply list_lookup_middle. reflexivity.
    + intros j y Hj Hy. apply Hdeeper. apply in_rev.
      rewrite Horder in Hy. rewrite lookup_app_r in Hy by lia.
      rewrite Hlen in Hy. destruct (j - BestKill.orderIndex b)%nat as [| n] eqn:Hn; [lia |].
      cbn [lookup list_lookup] in Hy. apply list_elem_of_lookup_2 in Hy.
      now apply list_elem_of_In.
Qed.

(** X18: what a result of [computeBestBossKill] means.  The answer is
    null exactly when no encounter of the order has a kill of a ranked
    difficulty.  A result names a position of the order and the encounter
    at that position, which has a ranked kill while no encounter at a
    later position has one; its difficulty is the hardest among that
    encounter's kills, and its name is the one of the name table (or
    ['Boss <id>']). *)
Theorem computeBestBossKill_result
  (progression : BestKill.Progression) (encounterOrder : list Z)
  (encounterNames : list BestKill.EncounterInfo) :
  (BestKill.computeBestBossKill progression encounterOrder encounterNames = None
   <-> forall x, In x encounterOrder -> BestKill.hasRankedKill progression x = false)
  /\ (forall b,
         BestKill.computeBestBossKill progression encounterOrder encounterNames = Some b ->
         encounterOrder !! BestKill.orderIndex b = Some (BestKill.bossId b)
         /\ BestKill.bossName b = BestKill.bossNameOf encounterNames (BestKill.bossId b)
         /\ (exists e,
                BestKill.findEncounter progression (BestKill.bossId b) = Some e
                /\ BestKill.hardest_among (BestKill.kills e) (BestKill.bestDifficulty b))
         /\ (forall j y, (BestKill.orderIndex b < j)%nat -> encounterOrder !! j = Some y ->
                         BestKill.hasRankedKill progression y = false)).
Proof.
  exact (computeBestBossKill_inv progression encounterOrder encounterNames).
Qed.

Lemma computeBestBossKill_result_witness :
  Examples.order8 !! 5%nat = Some 106%Z
  /\ BestKill.hasRankedKill Examples.kills_2H_5NM 107 = false.
Proof.
  destruct (computeBestBossKill_result Examples.kills_2H_5NM Examples.order8
              Examples.names8) as [_ Hsome].
  destruct (Hsome (BestKill.mkBestKill 106 "Sixth" BestKill.Mythic 5))
    as (Hidx & _ & _ & Hlater).
  - vm_compute. reflexivity.
  - split; [exact Hidx |]. apply (Hlater 6%nat); [cbn; lia | reflexivity].
Defined.

(** ** The zone-progression fetch *)

Lemma has_In (encounters : list BestKill.Encounter) (encounterId : Z) :
  ZoneProgression.has encounters encounterId = true
  <-> In encounterId (map BestKill.encounterId encounters).
Proof.
  unfold ZoneProgression.has. rewrite existsb_exists, in_map_iff. split.
  - intros (e & He & Heq). exists e. apply Z.eqb_eq in Heq. now split.
  - intros (e & Heq & He). exists e. split; [exact He | now apply Z.eqb_eq].
Qed.

Lemma pushKill_ids (encounterId : Z) (kill : BestKill.Kill)
  (encounters : list BestKill.Encounter) :
  map BestKill.encounterId (ZoneProgression.pushKill encounterId kill encounters)
  = map BestKill.encounterId encounters.
Proof.
  induction encounters as [| e rest IH]; [reflexivity |].
  cbn [ZoneProgression.pushKill].
  destruct (BestKill.encounterId e =? encounterId)%Z; cbn [map BestKill.encounterId];
    [reflexivity | now rewrite IH].
Qed.

Lemma pushKill_fresh (encounterId : Z) (encounterName : string) (kill : BestKill.Kill)
  (encounters : list BestKill.Encounter) :
  ZoneProgression.has encounters encounterId = false ->
  ZoneProgression.pushKill encounterId kill
    (encounters ++ [BestKill.mkEncounter encounterId encounterName []])%list
  = (encounters ++ [BestKill.mkEncounter encounterId encounterName [kill]])%list.
Proof.
  unfold ZoneProgression.has.
  induction encounters as [| e rest IH]; cbn [existsb app ZoneProgression.pushKill].
  - intros _. cbn [BestKill.encounterId]. now rewrite Z.eqb_refl.
  - intros H. apply orb_false_iff in H. destruct H as [-> H]. now rewrite (IH H).
Qed.

Lemma pushKill_Forall (P : BestKill.Encounter -> Prop) (encounterId : Z)
  (kill : BestKill.Kill) (encounters : list BestKill.Encounter) :
  (forall e, P e ->
     P (BestKill.mkEncounter (BestKill.encounterId e) (BestKill.encounterName e)
                             (BestKill.kills e ++ [kill])%list)) ->
  Forall P encounters ->
  Forall P (ZoneProgression.pushKill encounterId kill encounters).
Proof.
  intros Hpush. induction 1 as [| e rest He Hrest IH]; [constructor |].
  cbn [ZoneProgression.pushKill].
  destruct (BestKill.encounterId e =? encounterId)%Z; constructor; auto.
Qed.

Lemma addRanking_collected (zoneDifficulty : Z)
  (done' : list ZoneProgression.ZoneRanking) (encounters : list BestKill.Encounter)
  (ranking : ZoneProgression.ZoneRanking) :
  ZoneProgression.collected zoneDifficulty done' encounters ->
  ZoneProgression.collected zoneDifficulty (done' ++ [ranking])
    (ZoneProgression.addRanking zoneDifficulty encounters ranking).
Proof.
  intros (Hnodup & Hall & Hcomplete). unfold ZoneProgression.addRanking.
  assert (Hmono : forall e : BestKill.Encounter,
             (BestKill.kills e <> []
              /\ Forall (fun k => BestKill.difficulty k = zoneDifficulty
                                  /\ BestKill.killDate k = None) (BestKill.kills e)
              /\ exists r name,
                   In r done'
                   /\ ZoneProgression.counted r = Some (BestKill.encounterId e, name)) ->
             BestKill.kills e <> []
             /\ Forall (fun k => BestKill.difficulty k = zoneDifficulty
                                 /\ BestKill.killDate k = None) (BestKill.kills e)
             /\ exists r name,
                  In r (done' ++ [ranking])
                  /\ ZoneProgression.counted r = Some (BestKill.encounterId e, name)).
  { intros e (Hk & Hd & r & name & Hr & Hc). split; [exact Hk |]. split; [exact Hd |].
    exists r, name. split; [apply in_or_app; now left | exact Hc]. }
  assert (Hall' := List.Forall_impl _ Hmono Hall).
  destruct (ZoneProgression.counted ranking) as [[encounterId encounterName] |] eqn:Hcounted.
  - destruct (ZoneProgression.has encounters encounterId) eqn:Hhas.
    + split; [| split].
      * now rewrite pushKill_ids.
      * apply pushKill_Forall; [| exact Hall'].
        intros e (Hk & Hd & Hr). cbn [BestKill.kills BestKill.encounterId].
        split; [now destruct (BestKill.kills e) |]. split; [| exact Hr].
        apply List.Forall_app. split; [exact Hd |]. constructor; [now split | constructor].
      * intros r id name Hr Hc. rewrite pushKill_ids.
        apply in_app_or in Hr. destruct Hr as [Hr | [<- | []]].
        -- now apply (Hcomplete r id name).
        -- rewrite Hcounted in Hc. injection Hc as <- _. now apply has_In.
    + rewrite pushKill_fresh by exact Hhas. split; [| split].
      * rewrite map_app. cbn [map BestKill.encounterId].
        apply List.NoDup_app; [exact Hnodup | |].
        -- constructor; [intros [] | constructor].
        -- intros x Hx [<- | []]. apply has_In in Hx. congruence.
      * apply List.Forall_app. split; [exact Hall' |]. constructor; [| constructor].
        cbn [BestKill.kills BestKill.encounterId].
        split; [discriminate |]. split; [constructor; [now split | constructor] |].
        exists ranking, encounterName. split; [apply in_or_app; right; now left |].
        exact Hcounted.
      * intros r id name Hr Hc. rewrite map_app. apply in_or_app.
        apply in_app_or in Hr. destruct Hr as [Hr | [<- | []]].
        -- left. now apply (Hcomplete r id name).
        -- rewrite Hcounted in Hc. injection Hc as <- _. right. now left.
  - split; [exact Hnodup |]. split; [exact Hall' |].
    intros r id name Hr Hc. apply in_app_or in Hr. destruct Hr as [Hr | [<- | []]].
    + now apply (Hcomplete r id name).
    + congruence.
Qed.

Lemma fold_addRanking_collected (zoneDifficulty : Z)
  (rankings : list ZoneProgression.ZoneRanking) :
  forall done' encounters,
    ZoneProgression.collected zoneDifficulty done' encounters ->
    ZoneProgression.collected zoneDifficulty (done' ++ rankings)
      (fold_left (ZoneProgression.addRanking zoneDifficulty) rankings encounters).
Proof.
  induction rankings as [| r rest IH]; intros done' encounters H.
  - now rewrite app_nil_r.
  - cbn [fold_left].
    replace (done' ++ r :: rest)%list with ((done' ++ [r]) ++ rest)%list
      by now rewrite <- app_assoc.
    apply IH. now apply addRanking_collected.
Qed.

Lemma progressionOf_collected (zr : ZoneProgression.ZoneRankings) :
  ZoneProgression.collected (ZoneProgression.difficulty zr)
    (default [] (ZoneProgression.rankings zr))
    (BestKill.encounters (ZoneProgression.progressionOf (Some zr))).
Proof.
  assert (Hempty : ZoneProgression.collected (ZoneProgression.difficulty zr) [] []).
  { split; [constructor |]. split; [constructor |]. intros r id name []. }
  unfold ZoneProgression.progressionOf. cbn [BestKill.encounters].
  destruct (ZoneProgression.rankings zr) as [rs |]; [| exact Hempty].
  exact (fold_addRanking_collected _ rs [] [] Hempty).
Qed.

Lemma findEncounter_Some (progression : BestKill.Progression) (encounterId : Z)
  (e : BestKill.Encounter) :
  BestKill.findEncounter progression encounterId = Some e ->
  In e (BestKill.encounters progression) /\ BestKill.encounterId e = encounterId.
Proof.
  unfold BestKill.findEncounter. intros H. apply find_some in H.
  destruct H as [Hin Heq]. split; [exact Hin | now apply Z.eqb_eq].
Qed.

Lemma findEncounter_In (progression : BestKill.Progression) (encounterId : Z) :
  In encounterId (map BestKill.encounterId (BestKill.encounters progression)) ->
  exists e, BestKill.findEncounter progression encounterId = Some e.
Proof.
  unfold BestKill.findEncounter. intros H. apply in_map_iff in H.
  destruct H as (e & Heq & Hin).
  destruct (List.find _ _) as [e' |] eqn:Hfind; [now exists e' |].
  exfalso. apply (List.find_none _ _ Hfind) in Hin. apply Z.eqb_neq in Hin. congruence.
Qed.

(** X19: the progression that [fetchCharacterZoneProgression] returns.
    A failure of the token request or of the query leaves as an error; an
    answer without zone rankings gives the empty progression.  Otherwise
    the encounters have distinct ids, each has at least one kill, every
    kill carries the zone's difficulty and no date, each encounter stems
    from a ranking with an id, a name and a positive kill count, and each
    such ranking has its encounter. *)
Theorem zone_progression_shape
  (clientId clientSecret : option string) (exchange : Client.TokenOutcome)
  (answer : ZoneProgression.ZoneOutcome) (progression : BestKill.Progression) :
  ZoneProgression.fetchCharacterZoneProgression clientId clientSecret exchange answer
  = inr progression ->
  exists zoneRankings,
    answer = ZoneProgression.ZoneAnswer None zoneRankings
    /\ progression = ZoneProgression.progressionOf zoneRankings
    /\ match zoneRankings with
       | None => BestKill.encounters progression = []
       | Some zr =>
           List.NoDup (map BestKill.encounterId (BestKill.encounters progression))
           /\ (forall e, In e (BestKill.encounters progression) ->
                  BestKill.kills e <> []
                  /\ (forall k, In k (BestKill.kills e) ->
                         BestKill.difficulty k = ZoneProgression.difficulty zr
                         /\ BestKill.killDate k = None)
                  /\ exists r name,
                       In r (default [] (ZoneProgression.rankings zr))
                       /\ ZoneProgression.counted r
                          = Some (BestKill.encounterId e, name))
           /\ (forall r encounterId name,
                  In r (default [] (ZoneProgression.rankings zr)) ->
                  ZoneProgression.counted r = Some (encounterId, name) ->
                  exists e,
                    BestKill.findEncounter progression encounterId = Some e)
       end.
Proof.
  unfold ZoneProgression.fetchCharacterZoneProgression.
  destruct (Client.getWarcraftLogsToken clientId clientSecret exchange) as [e | token];
    [discriminate |].
  destruct answer as [| status | [errors |] zoneRankings]; try discriminate.
  intros [= <-]. exists zoneRankings. split; [reflexivity |]. split; [reflexivity |].
  destruct zoneRankings as [zr |]; [| reflexivity].
  destruct (progressionOf_collected zr) as (Hnodup & Hall & Hcomplete).
  split; [exact Hnodup |]. split.
  - intros e He. rewrite List.Forall_forall in Hall.
    destruct (Hall e He) as (Hk & Hd & Hr). split; [exact Hk |]. split; [| exact Hr].
    intros k Hkin. rewrite List.Forall_forall in Hd. now apply Hd.
  - intros r id name Hr Hc. apply findEncounter_In. now apply (Hcomplete r id name).
Qed.

Lemma zone_progression_shape_witness :
  BestKill.encounters (ZoneProgression.progressionOf (Some Examples.zone_sample))
  = [ BestKill.mkEncounter 103 "Third" [BestKill.mkKill 4 None; BestKill.mkKill 4 None];
      BestKill.mkEncounter 106 "Sixth" [BestKill.mkKill 4 None] ]
  /\ List.NoDup
       (map BestKill.encounterId
          (BestKill.encounters (ZoneProgression.progressionOf (Some Examples.zone_sample)))).
Proof.
  split; [vm_compute; reflexivity |].
  destruct (zone_progression_shape (Some "id") (Some "secret")
              (Client.TokenResponse true 200 "OK" "token")
              (ZoneProgression.ZoneAnswer None (Some Examples.zone_sample))
              (ZoneProgression.progressionOf (Some Examples.zone_sample)) eq_refl)
    as (zoneRankings & Hanswer & _ & Hshape).
  injection Hanswer as <-. exact (proj1 Hshape).
Defined.

Lemma hasRankedKill_zone (zr : ZoneProgression.ZoneRankings) (x : Z) :
  BestKill.hasRankedKill (ZoneProgression.progressionOf (Some zr)) x = true
  <-> (exists d, BestKill.DIFFICULTY_MAP (ZoneProgression.difficulty zr) = Some d)
      /\ exists r name,
           In r (default [] (ZoneProgression.rankings zr))
           /\ ZoneProgression.counted r = Some (x, name).
Proof.
  destruct (progressionOf_collected zr) as (Hnodup & Hall & Hcomplete).
  rewrite List.Forall_forall in Hall.
  unfold BestKill.hasRankedKill. split.
  - destruct (BestKill.findEncounter _ x) as [e |] eqn:Hfind; [| discriminate].
    apply findEncounter_Some in Hfind. destruct Hfind as [He <-].
    destruct (Hall e He) as (_ & Hd & Hr). rewrite List.Forall_forall in Hd.
    intros Hex. apply existsb_exists in Hex. destruct Hex as (k & Hk & Hranked).
    destruct (Hd k Hk) as [Hzone _]. rewrite Hzone in Hranked. split; [| exact Hr].
    destruct (BestKill.DIFFICULTY_MAP (ZoneProgression.difficulty zr)) as [d |];
      [now exists d | discriminate].
  - intros [[d Hd] (r & name & Hr & Hc)].
    destruct (findEncounter_In _ x (Hcomplete r x name Hr Hc)) as [e Hfind].
    rewrite Hfind. apply findEncounter_Some in Hfind. destruct Hfind as [He _].
    destruct (Hall e He) as (Hk & Hkills & _). rewrite List.Forall_forall in Hkills.
    destruct (BestKill.kills e) as [| k ks]; [contradiction |].
    cbn [existsb]. destruct (Hkills k (or_introl eq_refl)) as [-> _].
    now rewrite Hd.
Qed.

(** X20: the best kill of a fetched zone progression.  Every kill of a
    zone progression carries the one difficulty of the zone rankings, so
    the ranking Mythic > Heroic > Normal never decides: a best kill is
    always at the zone's difficulty and names the deepest encounter of
    the order that has a ranking with an id, a name and a positive kill
    count; there is none exactly when the zone's difficulty is not one of
    the codes 3, 4, 5 or no encounter of the order has such a ranking. *)
Theorem best_kill_is_at_zone_difficulty
  (zr : ZoneProgression.ZoneRankings) (encounterOrder : list Z)
  (encounterNames : list BestKill.EncounterInfo) :
  let progression := ZoneProgression.progressionOf (Some zr) in
  let rankings := default [] (ZoneProgression.rankings zr) in
  (forall b,
      BestKill.computeBestBossKill progression encounterOrder encounterNames = Some b ->
      BestKill.DIFFICULTY_MAP (ZoneProgression.difficulty zr)
      = Some (BestKill.bestDifficulty b)
      /\ encounterOrder !! BestKill.orderIndex b = Some (BestKill.bossId b)
      /\ (exists r name,
             In r rankings /\ ZoneProgression.counted r = Some (BestKill.bossId b, name))
      /\ (forall j y r name,
             (BestKill.orderIndex b < j)%nat -> encounterOrder !! j = Some y ->
             In r rankings -> ZoneProgression.counted r <> Some (y, name)))
  /\ (BestKill.computeBestBossKill progression encounterOrder encounterNames = None
      <-> BestKill.DIFFICULTY_MAP (ZoneProgression.difficulty zr) = None
          \/ forall x r name,
               In x encounterOrder -> In r rankings ->
               ZoneProgression.counted r <> Some (x, name)).
Proof.
  cbv zeta.
  destruct (computeBestBossKill_inv (ZoneProgression.progressionOf (Some zr))
              encounterOrder encounterNames) as [Hnone Hsome].
  split.
  - intros b Hb. destruct (Hsome b Hb) as (Hidx & _ & (e & Hfind & Hhard) & Hlater).
    assert (Hranked : BestKill.hasRankedKill (ZoneProgression.progressionOf (Some zr))
                        (BestKill.bossId b) = true).
    { destruct (BestKill.hasRankedKill _ (BestKill.bossId b)) eqn:Hr; [reflexivity |].
      exfalso. unfold BestKill.hasRankedKill in Hr. rewrite Hfind in Hr.
      destruct Hhard as [(k & Hk & Hd) _].
      assert (Hex : existsb (fun k => match BestKill.DIFFICULTY_MAP (BestKill.difficulty k) with
                                      | Some _ => true
                                      | None => false
                                      end) (BestKill.kills e) = true).
      { apply existsb_exists. exists k. split; [exact Hk | now rewrite Hd]. }
      congruence. }
    apply hasRankedKill_zone in Hranked. destruct Hranked as [_ Hr].
    split; [| split; [exact Hidx | split; [exact Hr |]]].
    + destruct Hhard as [(k & Hk & Hd) _].
      apply findEncounter_Some in Hfind. destruct Hfind as [He _].
      destruct (progressionOf_collected zr) as (_ & Hall & _).
      rewrite List.Forall_forall in Hall. destruct (Hall e He) as (_ & Hkills & _).
      rewrite List.Forall_forall in Hkills. destruct (Hkills k Hk) as [Hzone _].
      now rewrite <- Hzone.
    + intros j y r name Hj Hy Hrin Hc.
      assert (Hy' := Hlater j y Hj Hy).
      assert (Htrue : BestKill.hasRankedKill (ZoneProgression.progressionOf (Some zr)) y
                      = true).
      { apply hasRankedKill_zone. split; [| now exists r, name].
        destruct (Hsome b Hb) as (_ & _ & (e' & Hfind' & [(k & Hk & Hd) _]) & _).
        apply findEncounter_Some in Hfind'. destruct Hfind' as [He' _].
        destruct (progressionOf_collected zr) as (_ & Hall & _).
        rewrite List.Forall_forall in Hall. destruct (Hall e' He') as (_ & Hkills & _).
        rewrite List.Forall_forall in Hkills. destruct (Hkills k Hk) as [Hzone _].
        exists (BestKill.bestDifficulty b). now rewrite <- Hzone. }
      congruence.
  - rewrite Hnone. split.
    + intros Hall.
      destruct (BestKill.DIFFICULTY_MAP (ZoneProgression.difficulty zr)) as [d |] eqn:Hd;
        [right | now left].
      intros x r name Hx Hr Hc.
      assert (Htrue : BestKill.hasRankedKill (ZoneProgression.progressionOf (Some zr)) x
                      = true).
      { apply hasRankedKill_zone. rewrite Hd. split; [now exists d | now exists r, name]. }
      rewrite (Hall x Hx) in Htrue. discriminate.
    + intros Hcases x Hx.
      destruct (BestKill.hasRankedKill (ZoneProgression.progressionOf (Some zr)) x)
        eqn:Hranked; [| reflexivity].
      apply hasRankedKill_zone in Hranked.
      destruct Hranked as [[d Hd] (r & name & Hr & Hc)].
      destruct Hcases as [Hzone | Hno]; [congruence |].
      exfalso. exact (Hno x r name Hx Hr Hc).
Qed.

Lemma best_kill_is_at_zone_difficulty_witness :
  BestKill.DIFFICULTY_MAP (ZoneProgression.difficulty Examples.zone_sample)
  = Some BestKill.Heroic
  /\ Examples.order8 !! 5%nat = Some 106%Z.
Proof.
  destruct (best_kill_is_at_zone_difficulty Examples.zone_sample Examples.order8
              Examples.names8) as [Hsome _].
  destruct (Hsome (BestKill.mkBestKill 106 "Sixth" BestKill.Heroic 5))
    as (Hzone & Hidx & _).
  - vm_compute. reflexivity.
  - split; [exact Hzone | exact Hidx].
Defined.

(** ** The season-configuration service *)

Section SeasonConfigFacts.

Import SeasonConfigService.

Lemma find_map_pre {A B} (P : B -> bool) (f : A -> B) (l : list A) :
  List.find P (map f l) = option_map f (List.find (fun a => P (f a)) l).
Proof.
  induction l as [| a l IH]; [reflexivity |]. cbn [map List.find].
  destruct (P (f a)); [reflexivity | exact IH].
Qed.

Lemma count_le_map {A} (p : A -> bool) (f : A -> A) (l : list A) :
  (forall a, p (f a) = true -> p a = true) ->
  (length (List.filter p (map f l)) <= length (List.filter p l))%nat.
Proof.
  intros H. induction l as [| a l IH]; [reflexivity |]. cbn [map List.filter].
  destruct (p (f a)) eqn:Hfa.
  - rewrite (H a Hfa). cbn [length]. lia.
  - destruct (p a); cbn [length]; lia.
Qed.

Lemma count_le_filter {A} (p q : A -> bool) (l : list A) :
  (length (List.filter p (List.filter q l)) <= length (List.filter p l))%nat.
Proof.
  induction l as [| a l IH]; [reflexivity |]. cbn [List.filter].
  destruct (q a); cbn [List.filter]; destruct (p a); cbn [length]; lia.
Qed.

Lemma ids_deactivateAll (rows' : list SeasonConfig) :
  map id (deactivateAll rows') = map id rows'.
Proof.
  unfold deactivateAll. rewrite map_map. apply map_ext.
  intros row. now destruct (is_active row).
Qed.

Lemma ids_deactivateOthers (id' : Z) (rows' : list SeasonConfig) :
  map id (deactivateOthers id' rows') = map id rows'.
Proof.
  unfold deactivateOthers. rewrite map_map. apply map_ext.
  intros row. now destruct (is_active row && negb (id row =? id')%Z).
Qed.

Lemma active_deactivateAll (rows' : list SeasonConfig) :
  List.filter is_active (deactivateAll rows') = [].
Proof.
  induction rows' as [| row rest IH]; [reflexivity |].
  cbn [deactivateAll map List.filter]. fold (deactivateAll rest).
  destruct (is_active row) eqn:Hactive; cbn [setActive is_active];
    [exact IH | now rewrite Hactive].
Qed.

Lemma find_fresh_id (rows' : list SeasonConfig) (row : SeasonConfig) :
  Forall (fun r => (id r < id row)%Z) rows' ->
  List.find (fun r => (id r =? id row)%Z) (rows' ++ [row]) = Some row.
Proof.
  induction 1 as [| r rest Hr Hrest IH]; cbn [app List.find].
  - now rewrite Z.eqb_refl.
  - destruct (Z.eqb_spec (id r) (id row)); [lia | exact IH].
Qed.

Lemma Forall_ids (P : Z -> Prop) (rows1 rows2 : list SeasonConfig) :
  map id rows1 = map id rows2 ->
  Forall (fun r => P (id r)) rows2 -> Forall (fun r => P (id r)) rows1.
Proof.
  intros Hids H. apply List.Forall_map. rewrite Hids. now apply List.Forall_map.
Qed.

(** The [UPDATE ... WHERE id = ?] of [updateSeasonConfig]. *)
Lemma ids_update (now : string) (id' : Z) (data : SeasonConfigUpdate)
  (rows' : list SeasonConfig) :
  map id (map (fun row => if (id row =? id')%Z then applyUpdate now data row else row)
              rows')
  = map id rows'.
Proof.
  rewrite map_map. apply map_ext. intros row. now destruct (id row =? id')%Z.
Qed.

Lemma count_id_NoDup (id' : Z) (rows' : list SeasonConfig) (existing : SeasonConfig) :
  List.NoDup (map id rows') ->
  List.find (fun row => (id row =? id')%Z) rows' = Some existing ->
  length (List.filter (fun row => (id row =? id')%Z) rows') = 1%nat.
Proof.
  induction rows' as [| row rest IH]; [discriminate |].
  cbn [map List.find List.filter]. intros Hnodup Hfind.
  apply NoDup_cons_iff in Hnodup. destruct Hnodup as [Hnotin Hnodup].
  destruct (Z.eqb_spec (id row) id') as [Heq | Hne].
  - cbn [length]. f_equal.
    assert (Hnone : List.filter (fun r => (id r =? id')%Z) rest = []).
    { destruct (List.filter _ rest) as [| r rs] eqn:Hf; [reflexivity |].
      exfalso. assert (Hr : In r (List.filter (fun r => (id r =? id')%Z) rest))
        by (rewrite Hf; now left).
      apply filter_In in Hr. destruct Hr as [Hr Hid]. apply Z.eqb_eq in Hid.
      apply Hnotin. rewrite Heq, <- Hid. now apply in_map. }
    now rewrite Hnone.
  - now apply IH.
Qed.

(** After activating the row [id']: a row is active exactly when it is
    that row. *)
Lemma activated_rows (now : string) (id' : Z) (data : SeasonConfigUpdate)
  (rows' : list SeasonConfig) :
  u_is_active data = Some true ->
  forall row,
    In row (map (fun row => if (id row =? id')%Z then applyUpdate now data row else row)
                (deactivateOthers id' rows')) ->
    is_active row = (id row =? id')%Z.
Proof.
  intros Hactive row Hrow. apply in_map_iff in Hrow. destruct Hrow as (r1 & <- & Hr1).
  unfold deactivateOthers in Hr1. apply in_map_iff in Hr1. destruct Hr1 as (r0 & <- & _).
  destruct (Z.eqb_spec (id r0) id') as [Heq | Hne].
  - rewrite andb_false_r. rewrite (proj2 (Z.eqb_eq _ _) Heq).
    cbn [applyUpdate is_active id]. rewrite Hactive.
    cbn [default from_option]. now rewrite (proj2 (Z.eqb_eq _ _) Heq).
  - rewrite andb_true_r.
    assert (Hid : id (if is_active r0 then setActive false r0 else r0) = id r0)
      by now destruct (is_active r0).
    assert (Hinactive : is_active (if is_active r0 then setActive false r0 else r0)
                        = false)
      by now destruct (is_active r0) eqn:H0.
    rewrite Hid, (proj2 (Z.eqb_neq _ _) Hne), Hid, (proj2 (Z.eqb_neq _ _) Hne).
    exact Hinactive.
Qed.

Lemma filter_ext_in' {A} (p q : A -> bool) (l : list A) :
  (forall a, In a l -> p a = q a) -> List.filter p l = List.filter q l.
Proof.
  induction l as [| a l IH]; [reflexivity |]. intros H. cbn [List.filter].
  rewrite (H a (or_introl eq_refl)), IH; [reflexivity |].
  intros b Hb. apply H. now right.
Qed.

Lemma count_ids (id' : Z) (rows1 rows2 : list SeasonConfig) :
  map id rows1 = map id rows2 ->
  length (List.filter (fun row => (id row =? id')%Z) rows1)
  = length (List.filter (fun row => (id row =? id')%Z) rows2).
Proof.
  revert rows2. induction rows1 as [| r1 rest1 IH]; intros [| r2 rest2] H;
    try discriminate; [reflexivity |].
  cbn [map] in H. injection H as Hid Hrest. cbn [List.filter]. rewrite Hid.
  destruct (id r2 =? id')%Z; cbn [length]; now rewrite (IH rest2 Hrest).
Qed.

(** What [createSeasonConfig] does to a table that meets its
    constraints. *)
Lemma create_result (now : string) (t : Table) (data : SeasonConfigCreate) :
  well_formed t ->
  let isActive := default false (c_is_active data) in
  let row :=
    mkSeasonConfig (lastInsertRowid t + 1) (c_tier_name data) (c_wcl_tier_url data)
                   (c_wcl_zone_id data) (c_encounter_order data)
                   (c_encounter_names data) isActive now now in
  createSeasonConfig now t data
  = (mkTable ((if isActive then deactivateAll (rows t) else rows t) ++ [row])%list
             (lastInsertRowid t + 1), Ok row).
Proof.
  intros [Hnodup Hbound]. cbv zeta. unfold createSeasonConfig. cbv zeta.
  unfold getSeasonConfigById. cbn [rows].
  match goal with
  | |- context [List.find _ (?l ++ [?r])%list] =>
      assert (Hfind : List.find (fun row => (id row =? id r)%Z) (l ++ [r])%list = Some r)
  end.
  { apply find_fresh_id. cbn [id].
    apply (Forall_ids (fun i => (i < lastInsertRowid t + 1)%Z) _ (rows t)).
    - destruct (default false (c_is_active data)); [apply ids_deactivateAll | reflexivity].
    - eapply List.Forall_impl; [| exact Hbound]. cbn beta. intros r Hr. lia. }
  cbn [id] in Hfind. rewrite Hfind. reflexivity.
Qed.

Lemma create_keeps_well_formed (now : string) (t : Table) (data : SeasonConfigCreate) :
  well_formed t -> well_formed (fst (createSeasonConfig now t data)).
Proof.
  intros Hwf. rewrite (create_result now t data Hwf). destruct Hwf as [Hnodup Hbound].
  cbn [fst]. unfold well_formed. cbn [rows lastInsertRowid].
  assert (Hids : map id (if default false (c_is_active data)
                         then deactivateAll (rows t) else rows t) = map id (rows t)).
  { destruct (default false (c_is_active data)); [apply ids_deactivateAll | reflexivity]. }
  split.
  - rewrite map_app, Hids. cbn [map id]. apply List.NoDup_app.
    + exact Hnodup.
    + constructor; [intros [] | constructor].
    + intros i Hi [<- | []]. apply in_map_iff in Hi. destruct Hi as (r & Hr & Hin).
      rewrite List.Forall_forall in Hbound. specialize (Hbound r Hin). lia.
  - apply List.Forall_app. split.
    + apply (Forall_ids (fun i => (i <= lastInsertRowid t + 1)%Z) _ (rows t) Hids).
      eapply List.Forall_impl; [| exact Hbound]. cbn beta. intros r Hr. lia.
    + constructor; [cbn [id]; lia | constructor].
Qed.

(** The row [id'] after the two [UPDATE]s of [updateSeasonConfig]. *)
Lemma update_find (now : string) (t : Table) (id' : Z) (data : SeasonConfigUpdate)
  (existing : SeasonConfig) :
  getSeasonConfigById t id' = Some existing ->
  List.find (fun a => (id a =? id')%Z)
    (map (fun row => if (id row =? id')%Z then applyUpdate now data row else row)
         (if default false (u_is_active data)
          then deactivateOthers id' (rows t) else rows t))
  = Some (applyUpdate now data existing).
Proof.
  intros Hfind. rewrite find_map_pre.
  assert (Hpre : forall rows',
             List.find (fun a => (id (if (id a =? id')%Z
                                      then applyUpdate now data a else a) =? id')%Z) rows'
             = List.find (fun a => (id a =? id')%Z) rows').
  { intros rows'. apply find_ext_in. intros x _. now destruct (id x =? id')%Z eqn:E. }
  rewrite Hpre.
  assert (Hfind1 : List.find (fun a => (id a =? id')%Z)
                     (if default false (u_is_active data)
                      then deactivateOthers id' (rows t) else rows t)
                   = Some existing).
  { destruct (default false (u_is_active data)); [| exact Hfind].
    unfold deactivateOthers. rewrite find_map_pre.
    assert (Hpre2 : List.find
                      (fun a => (id (if is_active a && negb (id a =? id')%Z
                                     then setActive false a else a) =? id')%Z) (rows t)
                    = List.find (fun a => (id a =? id')%Z) (rows t)).
    { apply find_ext_in. intros x _.
      now destruct (is_active x && negb (id x =? id')%Z). }
    rewrite Hpre2. unfold getSeasonConfigById in Hfind. rewrite Hfind.
    cbn [option_map]. apply find_some in Hfind. destruct Hfind as [_ Heq].
    now rewrite Heq, andb_false_r. }
  rewrite Hfind1. cbn [option_map].
  apply find_some in Hfind1. destruct Hfind1 as [_ Heq]. now rewrite Heq.
Qed.

(** What [updateSeasonConfig] does to an existing row. *)
Lemma update_result (now : string) (t : Table) (id' : Z) (data : SeasonConfigUpdate)
  (existing : SeasonConfig) :
  getSeasonConfigById t id' = Some existing ->
  let rows1 :=
    if default false (u_is_active data) then deactivateOthers id' (rows t) else rows t in
  updateSeasonConfig now t id' data
  = if noUpdates data then (t, Ok existing)
    else (mkTable (map (fun row => if (id row =? id')%Z
                                   then applyUpdate now data row else row) rows1)
                  (lastInsertRowid t),
          Ok (applyUpdate now data existing)).
Proof.
  intros Hfind. cbv zeta. unfold updateSeasonConfig. rewrite Hfind. cbv zeta.
  destruct (noUpdates data) eqn:Hno.
  - assert (Hactive : u_is_active data = None).
    { unfold noUpdates in Hno.
      destruct (u_tier_name data), (u_wcl_tier_url data), (u_wcl_zone_id data),
        (u_encounter_order data), (u_encounter_names data), (u_is_active data);
        try discriminate; reflexivity. }
    rewrite Hactive. cbn [default from_option]. now destruct t.
  - unfold getSeasonConfigById at 1. cbn [rows].
    now rewrite (update_find now t id' data existing Hfind).
Qed.

Lemma update_keeps_well_formed (now : string) (t : Table) (id' : Z)
  (data : SeasonConfigUpdate) :
  well_formed t -> well_formed (fst (updateSeasonConfig now t id' data)).
Proof.
  intros Hwf. destruct (getSeasonConfigById t id') as [existing |] eqn:Hfind.
  - rewrite (update_result now t id' data existing Hfind).
    destruct (noUpdates data); [exact Hwf |]. cbn [fst].
    destruct Hwf as [Hnodup Hbound]. unfold well_formed. cbn [rows lastInsertRowid].
    assert (Hids : map id (map (fun row => if (id row =? id')%Z
                                           then applyUpdate now data row else row)
                               (if default false (u_is_active data)
                                then deactivateOthers id' (rows t) else rows t))
                   = map id (rows t)).
    { rewrite ids_update.
      destruct (default false (u_is_active data));
        [apply ids_deactivateOthers | reflexivity]. }
    split; [now rewrite Hids |].
    exact (Forall_ids (fun i => (i <= lastInsertRowid t)%Z) _ (rows t) Hids Hbound).
  - unfold updateSeasonConfig. now rewrite Hfind.
Qed.

Lemma delete_keeps_well_formed' (t : Table) (id' : Z) :
  well_formed t -> well_formed (deleteSeasonConfig t id').
Proof.
  intros [Hnodup Hbound]. unfold well_formed, deleteSeasonConfig.
  cbn [rows lastInsertRowid]. split.
  - clear Hbound. induction (rows t) as [| r rest IH]; [constructor |].
    cbn [map] in Hnodup. apply NoDup_cons_iff in Hnodup. destruct Hnodup as [Hnotin Hrest].
    cbn [List.filter]. destruct (negb (id r =? id')%Z); [| now apply IH].
    cbn [map]. constructor; [| now apply IH].
    intros Hin. apply Hnotin. apply in_map_iff in Hin. destruct Hin as (x & Hx & Hxin).
    apply filter_In in Hxin. destruct Hxin as [Hxin _]. rewrite <- Hx. now apply in_map.
  - rewrite List.Forall_forall in Hbound |- *. intros x Hx.
    apply filter_In in Hx. destruct Hx as [Hx _]. now apply Hbound.
Qed.

End SeasonConfigFacts.

Lemma find_app_none {A} (p : A -> bool) (l l' : list A) :
  List.filter p l = [] -> List.find p (l ++ l') = List.find p l'.
Proof.
  induction l as [| a l IH]; [reflexivity |]. cbn [List.filter app List.find].
  destruct (p a); [discriminate | exact IH].
Qed.

Lemma find_deleted (t : SeasonConfigService.Table) (id' : Z) :
  SeasonConfigService.getSeasonConfigById
    (SeasonConfigService.deleteSeasonConfig t id') id' = None.
Proof.
  unfold SeasonConfigService.getSeasonConfigById, SeasonConfigService.deleteSeasonConfig.
  cbn [SeasonConfigService.rows].
  induction (SeasonConfigService.rows t) as [| r rest IH]; [reflexivity |].
  cbn [List.filter]. destruct (SeasonConfigService.id r =? id')%Z eqn:E; cbn [negb];
    [exact IH |]. cbn [List.find]. now rewrite E.
Qed.

(** X21: at most one season configuration is active.  On a table that
    meets its constraints and has at most one active row, creating,
    updating and deleting a configuration leave at most one active row. *)
Theorem single_active_is_kept (now : string) (t : SeasonConfigService.Table) :
  SeasonConfigService.well_formed t ->
  (SeasonConfigService.activeCount t <= 1)%nat ->
  (forall data,
      (SeasonConfigService.activeCount
         (fst (SeasonConfigService.createSeasonConfig now t data)) <= 1)%nat)
  /\ (forall id data,
         (SeasonConfigService.activeCount
            (fst (SeasonConfigService.updateSeasonConfig now t id data)) <= 1)%nat)
  /\ (forall id,
         (SeasonConfigService.activeCount
            (SeasonConfigService.deleteSeasonConfig t id) <= 1)%nat).
Proof.
  intros Hwf Hone. split; [| split].
  - intros data. rewrite (create_result now t data Hwf). cbn [fst].
    unfold SeasonConfigService.activeCount in *. cbn [SeasonConfigService.rows].
    rewrite List.filter_app, length_app. cbn [List.filter SeasonConfigService.is_active].
    destruct (default false (SeasonConfigService.c_is_active data)).
    + now rewrite active_deactivateAll.
    + cbn [length]. lia.
  - intros id' data.
    destruct (SeasonConfigService.getSeasonConfigById t id') as [existing |] eqn:Hfind.
    + rewrite (update_result now t id' data existing Hfind).
      destruct (SeasonConfigService.noUpdates data); [exact Hone |]. cbn [fst].
      unfold SeasonConfigService.activeCount in *. cbn [SeasonConfigService.rows].
      destruct (SeasonConfigService.u_is_active data) as [[] |] eqn:Hactive;
        cbn [default from_option id].
      * rewrite (filter_ext_in' _ (fun row => (SeasonConfigService.id row =? id')%Z) _
                   (activated_rows now id' data (SeasonConfigService.rows t) Hactive)).
        rewrite (count_ids id' _ (SeasonConfigService.rows t)).
        -- destruct Hwf as [Hnodup _].
           now rewrite (count_id_NoDup id' _ existing Hnodup Hfind).
        -- rewrite ids_update. apply ids_deactivateOthers.
      * etransitivity; [apply count_le_map | exact Hone].
        intros a. destruct (SeasonConfigService.id a =? id')%Z; [| tauto].
        cbn [SeasonConfigService.applyUpdate SeasonConfigService.is_active].
        rewrite Hactive. discriminate.
      * etransitivity; [apply count_le_map | exact Hone].
        intros a. destruct (SeasonConfigService.id a =? id')%Z; [| tauto].
        cbn [SeasonConfigService.applyUpdate SeasonConfigService.is_active].
        rewrite Hactive. tauto.
    + unfold SeasonConfigService.updateSeasonConfig. now rewrite Hfind.
  - intros id'. unfold SeasonConfigService.activeCount, SeasonConfigService.deleteSeasonConfig
      in *. cbn [SeasonConfigService.rows].
    etransitivity; [apply count_le_filter | exact Hone].
Qed.

Lemma season_table_well_formed : SeasonConfigService.well_formed Examples.season_table.
Proof.
  split.
  - cbn. repeat constructor; cbn; intuition discriminate.
  - cbn. repeat constructor; cbn; lia.
Qed.

Lemma single_active_is_kept_witness :
  (SeasonConfigService.activeCount
     (fst (SeasonConfigService.createSeasonConfig "2026-01-01 00:00:00"
             Examples.season_table Examples.season_save)) <= 1)%nat.
Proof.
  destruct (single_active_is_kept "2026-01-01 00:00:00" Examples.season_table)
    as (Hcreate & _ & _).
  - exact season_table_well_formed.
  - vm_compute. lia.
  - apply Hcreate.
Defined.

(** X22: the constraints of the season table are kept, and on a table
    that meets them the service finds the row it has just written.
    Creating, updating and deleting keep row ids distinct and bounded by
    the last one handed out; [createSeasonConfig] returns the new row,
    which has the next row id; [updateSeasonConfig] returns the row with
    its id and creation time unchanged, or throws, changing nothing, when
    there is no row with the id; after [deleteSeasonConfig] no row has
    the id. *)
Theorem season_table_constraints_are_kept (now : string)
  (t : SeasonConfigService.Table) :
  SeasonConfigService.well_formed t ->
  (forall data,
      SeasonConfigService.well_formed
        (fst (SeasonConfigService.createSeasonConfig now t data))
      /\ exists c,
           snd (SeasonConfigService.createSeasonConfig now t data) = Ok c
           /\ SeasonConfigService.id c = (SeasonConfigService.lastInsertRowid t + 1)%Z
           /\ SeasonConfigService.getSeasonConfigById
                (fst (SeasonConfigService.createSeasonConfig now t data))
                (SeasonConfigService.id c) = Some c)
  /\ (forall id data,
         SeasonConfigService.well_formed
           (fst (SeasonConfigService.updateSeasonConfig now t id data))
         /\ match SeasonConfigService.getSeasonConfigById t id with
            | Some existing =>
                exists c,
                  snd (SeasonConfigService.updateSeasonConfig now t id data) = Ok c
                  /\ SeasonConfigService.id c = id
                  /\ SeasonConfigService.created_at c
                     = SeasonConfigService.created_at existing
            | None =>
                SeasonConfigService.updateSeasonConfig now t id data
                = (t, Throw ("Season config with id " +:+ Js.string_of_Z id
                             +:+ " not found"))
            end)
  /\ (forall id,
         SeasonConfigService.well_formed (SeasonConfigService.deleteSeasonConfig t id)
         /\ SeasonConfigService.getSeasonConfigById
              (SeasonConfigService.deleteSeasonConfig t id) id = None).
Proof.
  intros Hwf. split; [| split].
  - intros data. split; [now apply create_keeps_well_formed |].
    pose proof (create_result now t data Hwf) as Hcreate. cbv zeta in Hcreate.
    rewrite Hcreate. cbn [fst snd]. eexists. split; [reflexivity |].
    split; [reflexivity |].
    unfold SeasonConfigService.getSeasonConfigById.
    cbn [SeasonConfigService.rows SeasonConfigService.id].
    destruct Hwf as [_ Hbound].
    match goal with
    | |- List.find _ (?l ++ [?r])%list = _ =>
        apply (find_fresh_id l r)
    end.
    cbn [SeasonConfigService.id].
    apply (Forall_ids (fun i => (i < SeasonConfigService.lastInsertRowid t + 1)%Z) _
             (SeasonConfigService.rows t)).
    + destruct (default false (SeasonConfigService.c_is_active data));
        [apply ids_deactivateAll | reflexivity].
    + eapply List.Forall_impl; [| exact Hbound]. cbn beta. intros r Hr. lia.
  - intros id' data. split; [now apply update_keeps_well_formed |].
    destruct (SeasonConfigService.getSeasonConfigById t id') as [existing |] eqn:Hfind.
    + rewrite (update_result now t id' data existing Hfind).
      assert (Hid : SeasonConfigService.id existing = id').
      { unfold SeasonConfigService.getSeasonConfigById in Hfind.
        apply find_some in Hfind. now apply Z.eqb_eq. }
      destruct (SeasonConfigService.noUpdates data); cbn [snd];
        eexists; (split; [reflexivity |]); split; [exact Hid | reflexivity | exact Hid
                                                  | reflexivity].
    + unfold SeasonConfigService.updateSeasonConfig. now rewrite Hfind.
  - intros id'. split; [now apply delete_keeps_well_formed' | apply find_deleted].
Qed.

Lemma season_table_constraints_are_kept_witness :
  SeasonConfigService.well_formed
    (fst (SeasonConfigService.updateSeasonConfig "2026-01-01 00:00:00"
            Examples.season_table 1 Examples.season_activate)).
Proof.
  destruct (season_table_constraints_are_kept "2026-01-01 00:00:00"
              Examples.season_table season_table_well_formed) as (_ & Hupdate & _).
  apply (Hupdate 1%Z Examples.season_activate).
Defined.

(** X23: a configuration that is saved or updated as active becomes the
    active one.  On a table that meets its constraints, after
    [createSeasonConfig] with [is_active] set, as the save route calls it,
    and after [updateSeasonConfig] of an existing row with [is_active]
    set, [getActiveSeasonConfig] returns exactly the configuration the
    call returned, and it is the only active row.  The created
    configuration carries the data given and the current time. *)
Theorem activated_config_is_the_active_one (now : string)
  (t : SeasonConfigService.Table) :
  SeasonConfigService.well_formed t ->
  (forall data,
      SeasonConfigService.c_is_active data = Some true ->
      let t' := fst (SeasonConfigService.createSeasonConfig now t data) in
      exists c,
        snd (SeasonConfigService.createSeasonConfig now t data) = Ok c
        /\ SeasonConfigService.getActiveSeasonConfig t' = Some c
        /\ SeasonConfigService.activeCount t' = 1%nat
        /\ c = SeasonConfigService.mkSeasonConfig
                 (SeasonConfigService.lastInsertRowid t + 1)
                 (SeasonConfigService.c_tier_name data)
                 (SeasonConfigService.c_wcl_tier_url data)
                 (SeasonConfigService.c_wcl_zone_id data)
                 (SeasonConfigService.c_encounter_order data)
                 (SeasonConfigService.c_encounter_names data) true now now)
  /\ (forall id data existing,
         SeasonConfigService.getSeasonConfigById t id = Some existing ->
         SeasonConfigService.u_is_active data = Some true ->
         let t' := fst (SeasonConfigService.updateSeasonConfig now t id data) in
         snd (SeasonConfigService.updateSeasonConfig now t id data)
         = Ok (SeasonConfigService.applyUpdate now data existing)
         /\ SeasonConfigService.getActiveSeasonConfig t'
            = Some (SeasonConfigService.applyUpdate now data existing)
         /\ SeasonConfigService.activeCount t' = 1%nat).
Proof.
  intros Hwf. split.
  - intros data Hactive. cbv zeta.
    pose proof (create_result now t data Hwf) as Hcreate. cbv zeta in Hcreate.
    rewrite Hcreate, Hactive. cbn [fst snd default from_option id].
    eexists. split; [reflexivity |]. split; [| split; [| reflexivity]].
    + unfold SeasonConfigService.getActiveSeasonConfig. cbn [SeasonConfigService.rows].
      rewrite find_app_none by apply active_deactivateAll. reflexivity.
    + unfold SeasonConfigService.activeCount. cbn [SeasonConfigService.rows].
      rewrite List.filter_app, active_deactivateAll. reflexivity.
  - intros id' data existing Hfind Hactive. cbv zeta.
    rewrite (update_result now t id' data existing Hfind).
    assert (Hno : SeasonConfigService.noUpdates data = false).
    { unfold SeasonConfigService.noUpdates. rewrite Hactive.
      now destruct (SeasonConfigService.u_tier_name data),
        (SeasonConfigService.u_wcl_tier_url data),
        (SeasonConfigService.u_wcl_zone_id data),
        (SeasonConfigService.u_encounter_order data),
        (SeasonConfigService.u_encounter_names data). }
    rewrite Hno. cbn [fst snd]. split; [reflexivity |].
    pose proof (activated_rows now id' data (SeasonConfigService.rows t) Hactive) as Hrows.
    pose proof (update_find now t id' data existing Hfind) as Hupdated.
    rewrite Hactive in Hupdated |- *. cbn [default from_option id] in Hupdated |- *.
    split.
    + unfold SeasonConfigService.getActiveSeasonConfig. cbn [SeasonConfigService.rows].
      rewrite (find_ext_in _ (fun row => (SeasonConfigService.id row =? id')%Z) _ Hrows).
      exact Hupdated.
    + unfold SeasonConfigService.activeCount. cbn [SeasonConfigService.rows].
      rewrite (filter_ext_in' _ (fun row => (SeasonConfigService.id row =? id')%Z) _ Hrows).
      rewrite (count_ids id' _ (SeasonConfigService.rows t)).
      * destruct Hwf as [Hnodup _].
        now rewrite (count_id_NoDup id' _ existing Hnodup Hfind).
      * rewrite ids_update. apply ids_deactivateOthers.
Qed.

Lemma activated_config_is_the_active_one_witness :
  exists c,
    snd (SeasonConfigService.createSeasonConfig "2026-01-01 00:00:00"
           Examples.season_table Examples.season_save) = Ok c
    /\ SeasonConfigService.getActiveSeasonConfig
         (fst (SeasonConfigService.createSeasonConfig "2026-01-01 00:00:00"
                 Examples.season_table Examples.season_save)) = Some c
    /\ SeasonConfigService.tier_name c = "New tier"
    /\ SeasonConfigService.id c = 3%Z.
Proof.
  destruct (activated_config_is_the_active_one "2026-01-01 00:00:00"
              Examples.season_table season_table_well_formed) as [Hcreate _].
  destruct (Hcreate Examples.season_save eq_refl) as (c & Hc & Hactive & _ & Heq).
  exists c. split; [exact Hc |]. split; [exact Hactive |]. rewrite Heq. now split.
Defined.

(** ** The handler: references by id, when the upstream knows the character *)



(** ** The client: sparse answers and the reported percentile *)

Lemma getWCLClassName_truthy (classID : Z) :
  Js.truthy (ClassMap.getWCLClassName classID) = true.
Proof.
  unfold ClassMap.getWCLClassName.
  destruct (ClassMap.WCL_CLASS_ID_TO_NAME !! classID) as [name |]; [| reflexivity].
  now destruct (Js.truthy name) eqn:E.
Qed.

Lemma countedSpecs_In (allRankings : list Client.Ranking) (s : string) :
  In s (Spec.countedSpecs allRankings)
  <-> exists r, In r allRankings /\ Client.truthy_spec r = Some s.
Proof.
  unfold Spec.countedSpecs. induction allRankings as [| r rest IH].
  - split; [intros [] | intros (r & [] & _)].
  - cbn [omap list_omap]. fold (@omap list _ _ _ Client.truthy_spec rest).
    destruct (Client.truthy_spec r) as [t |] eqn:Hr.
    + cbn [In]. rewrite IH. split.
      * intros [<- | (r' & Hin & Hs)]; [exists r; split; [now left | exact Hr] |].
        exists r'. split; [now right | exact Hs].
      * intros (r' & [<- | Hin] & Hs); [left; congruence |].
        right. now exists r'.
    + rewrite IH. split.
      * intros (r' & Hin & Hs). exists r'. split; [now right | exact Hs].
      * intros (r' & [<- | Hin] & Hs); [congruence |]. now exists r'.
Qed.

Lemma le_occurrences_total (specs : list string) (a b : string) :
  Spec.le_occurrences specs a b = true \/ Spec.le_occurrences specs b a = true.
Proof.
  unfold Spec.le_occurrences.
  destruct (Nat.le_ge_cases (Spec.occurrences a specs) (Spec.occurrences b specs));
    [left | right]; now apply Nat.leb_le.
Qed.

Lemma le_occurrences_trans (specs : list string) (a b c : string) :
  Spec.le_occurrences specs a b = true -> Spec.le_occurrences specs b c = true ->
  Spec.le_occurrences specs a c = true.
Proof.
  unfold Spec.le_occurrences. intros Hab Hbc.
  apply Nat.leb_le in Hab, Hbc. apply Nat.leb_le. lia.
Qed.

Lemma first_max_In {A} (le : A -> A -> bool) (l : list A) (r : A) :
  Spec.first_max le l = Some r -> In r l.
Proof. unfold Spec.first_max. intros H. now apply find_some in H. Qed.

(** X25: what the normalisation reports when data is missing.  It
    returns whenever no ranking entry carries a kill date beyond the range
    of [Date], and with no best kill whenever no entry carries a rank
    percentile other than zero (in particular when there are no zone
    rankings).  Of what it returns: the spec is absent exactly when no
    ranking entry carries a non-empty spec, and a reported spec is the
    non-empty spec of some entry; the best kill is absent exactly when no
    entry carries a rank percentile other than zero.  The class name is
    never empty, and the class-spec label is the class name alone when
    there is no spec. *)
Theorem normalisation_of_sparse_answers (character : Client.Character) :
  let allRankings := Client.allRankingsOf (Client.ch_zoneRankings character) in
  ((forall r, In r allRankings -> Client.truthy_rankPercent r = None) ->
   exists parsed,
     Client.parseWarcraftLogsResponse character = Ok parsed
     /\ Client.bestKillLatestSeason parsed = None)
  /\ ((forall r d, In r allRankings -> Client.rk_killDate r = Some d ->
                   (Z.abs d <= Js.MAX_TIME_VALUE)%Z) ->
      is_ok (Client.parseWarcraftLogsResponse character) = true)
  /\ forall parsed,
       Client.parseWarcraftLogsResponse character = Ok parsed ->
       (Client.spec parsed = None
        <-> forall r, In r allRankings -> Client.truthy_spec r = None)
       /\ (forall s, Client.spec parsed = Some s ->
             Js.truthy s = true
             /\ exists r, In r allRankings /\ Client.rk_spec r = Some s)
       /\ (Client.bestKillLatestSeason parsed = None
           <-> forall r, In r allRankings -> Client.truthy_rankPercent r = None)
       /\ Client.mostPlayedSpec parsed = Client.spec parsed
       /\ exists className,
            Client.class parsed = Some className
            /\ Js.truthy className = true
            /\ Client.classSpec parsed
               = Some (match Client.spec parsed with
                       | Some s => className +:+ " " +:+ s
                       | None => className
                       end).
Proof.
  cbv zeta.
  set (allRankings := Client.allRankingsOf (Client.ch_zoneRankings character)).
  assert (Hbest : Client.bestKillOf allRankings = None
                  <-> forall r, In r allRankings -> Client.truthy_rankPercent r = None).
  { rewrite bestKillOf_spec. unfold Spec.bestKill. split.
    - intros Hmax r Hr.
      apply first_max_None in Hmax;
        [| exact le_rankPercent_total | exact le_rankPercent_trans].
      destruct (Client.truthy_rankPercent r) as [q |] eqn:Hq; [| reflexivity].
      assert (Hin : In r (List.filter Spec.hasNonzeroRankPercent allRankings)).
      { apply filter_In. split; [exact Hr |].
        unfold Spec.hasNonzeroRankPercent. now rewrite Hq. }
      rewrite Hmax in Hin. destruct Hin.
    - intros Hall.
      assert (Hfilter : List.filter Spec.hasNonzeroRankPercent allRankings = []).
      { destruct (List.filter Spec.hasNonzeroRankPercent allRankings) as [| r rest] eqn:Hf;
          [reflexivity |].
        assert (Hin : In r (List.filter Spec.hasNonzeroRankPercent allRankings))
          by (rewrite Hf; now left).
        apply filter_In in Hin. destruct Hin as [Hr Hnz].
        unfold Spec.hasNonzeroRankPercent in Hnz. now rewrite (Hall r Hr) in Hnz. }
      now rewrite Hfilter. }
  assert (Hreported : forall bestKill reported,
             Client.reportBestKill bestKill = Ok reported ->
             (reported = None <-> bestKill = None)).
  { intros [k |] reported; cbn [Client.reportBestKill].
    - destruct (Client.reportKill k); intros [= <-]; split; discriminate.
    - intros [= <-]. split; reflexivity. }
  split; [| split].
  - intros Hall. apply Hbest in Hall. unfold Client.parseWarcraftLogsResponse.
    fold allRankings. rewrite Hall. cbn [Client.reportBestKill].
    eexists. split; reflexivity.
  - intros Hdates.
    assert (Hok : is_ok (Client.reportBestKill (Client.bestKillOf allRankings)) = true).
    { apply reportBestKill_returns. intros r d Hr. apply Hdates.
      rewrite bestKillOf_spec in Hr. apply first_max_In in Hr.
      now apply filter_In in Hr. }
    unfold Client.parseWarcraftLogsResponse. fold allRankings.
    now destruct (Client.reportBestKill (Client.bestKillOf allRankings)).
  - intros parsed Hparsed. unfold Client.parseWarcraftLogsResponse in Hparsed.
    fold allRankings in Hparsed.
    destruct (Client.reportBestKill (Client.bestKillOf allRankings))
      as [reported | m] eqn:E; [| discriminate].
    injection Hparsed as <-.
    cbn [Client.spec Client.bestKillLatestSeason Client.mostPlayedSpec Client.class
         Client.classSpec].
    rewrite mostPlayedSpecOf_spec. unfold Spec.mostPlayedSpec.
    split; [| split; [| split; [| split]]].
    + split.
      * intros Hnone r Hr.
        apply first_max_None in Hnone;
          [| apply le_occurrences_total | apply le_occurrences_trans].
        destruct (Client.truthy_spec r) as [s |] eqn:Hs; [| reflexivity].
        assert (Hin : In s (Spec.countedSpecs allRankings))
          by (apply countedSpecs_In; now exists r).
        rewrite Hnone in Hin. destruct Hin.
      * intros Hall.
        destruct (Spec.countedSpecs allRankings) as [| s rest] eqn:Hspecs;
          [reflexivity |].
        assert (Hin : In s (Spec.countedSpecs allRankings)) by (rewrite Hspecs; now left).
        apply countedSpecs_In in Hin. destruct Hin as (r & Hr & Hs).
        rewrite (Hall r Hr) in Hs. discriminate.
    + intros s Hs. apply first_max_In, countedSpecs_In in Hs.
      destruct Hs as (r & Hr & Hspec). unfold Client.truthy_spec in Hspec.
      destruct (Client.rk_spec r) as [t |] eqn:Ht; [| discriminate].
      destruct (Js.truthy t) eqn:Htruthy; [| discriminate].
      injection Hspec as <-. split; [exact Htruthy |]. now exists r.
    + rewrite (Hreported _ _ E). exact Hbest.
    + reflexivity.
    + exists (ClassMap.getWCLClassName (Client.ch_classID character)).
      split; [reflexivity |]. split; [apply getWCLClassName_truthy |].
      now destruct (Spec.first_max _ _).
Qed.

Lemma normalisation_of_sparse_answers_witness :
  exists parsed,
    Client.parseWarcraftLogsResponse Examples.character_zero = Ok parsed
    /\ Client.bestKillLatestSeason parsed = None
    /\ Client.mostPlayedSpec parsed = Client.spec parsed.
Proof.
  destruct (normalisation_of_sparse_answers Examples.character_zero)
    as (Hnone & _ & Hparsed).
  destruct Hnone as (parsed & E & Hkill).
  { intros r Hr. vm_compute in Hr. destruct Hr as [<- | []]. reflexivity. }
  exists parsed. split; [exact E |]. split; [exact Hkill |].
  now destruct (Hparsed parsed E) as (_ & _ & _ & Hmost & _).
Defined.

Lemma number_eqb_eq (x y : Js.number) : Js.number_eqb x y = true -> x = y.
Proof.
  destruct x as [s | s | | s m e], y as [s' | s' | | s' m' e'];
    cbn [Js.number_eqb]; try discriminate; try reflexivity.
  - intros H. apply Bool.eqb_prop in H. now subst.
  - intros H. apply Bool.eqb_prop in H. now subst.
  - intros H. apply andb_true_iff in H. destruct H as [H He].
    apply andb_true_iff in H. destruct H as [Hs Hm].
    apply Bool.eqb_prop in Hs. apply Pos.eqb_eq in Hm. apply Z.eqb_eq in He.
    now subst.
Qed.

Lemma number_of_Q_Qeq (p q : Q) : (p == q)%Q -> Js.number_of_Q p = Js.number_of_Q q.
Proof.
  intros H. unfold Js.number_of_Q. now rewrite (Qred_complete p q H).
Qed.

(** The percentiles 0.00, 0.01, ..., 100.00, by evaluation. *)
Lemma round2_hundredths :
  forallb (fun k => Js.number_eqb (Client.round2 (Z.of_nat k # 100))
                                  (Js.number_of_Q (Z.of_nat k # 100)))
          (seq 0 (Z.to_nat 10001))
  = true.
Proof. vm_compute. reflexivity. Qed.

(** X26: the rank percentile of a reported kill is computed in binary64
    arithmetic as [Math.round(x * 100) / 100].  When the entry's number is
    the number nearest to a percentile between 0 and 100 with at most two
    decimals, the report holds that same number.  A percentile with more
    decimals need not go to the nearest hundredth: the number nearest to
    0.015 lies below 0.015 and is reported as 0.02, the number nearest to
    1.005 lies below 1.005 and is reported as 1. *)
Theorem reported_percentile_is_binary64 :
  (forall (bestKill : Client.Ranking) (q : Q) (k : Z) (reported : Client.ReportedKill),
      (0 <= k <= 10000)%Z ->
      Js.number_of_Q q = Js.number_of_Q (k # 100) ->
      Client.rk_rankPercent bestKill = Some q ->
      Client.reportKill bestKill = Ok reported ->
      Client.rep_rankPercent reported = Js.number_of_Q (k # 100))
  /\ (forall p q : Q, (p == q)%Q -> Js.number_of_Q p = Js.number_of_Q q)
  /\ Client.round2 (15 # 1000) = Js.number_of_Q (2 # 100)
  /\ Client.round2 (1005 # 1000) = Js.number_of_Z 1.
Proof.
  split; [| split; [exact number_of_Q_Qeq | split; vm_compute; reflexivity]].
  intros bestKill q k reported Hk Hq Hrank Hreport.
  unfold Client.reportKill in Hreport.
  destruct (Client.killDateOf bestKill) as [killDate | m]; [| discriminate].
  injection Hreport as <-. cbn [Client.rep_rankPercent]. rewrite Hrank.
  assert (Hround : Client.round2 q = Client.round2 (k # 100)).
  { unfold Client.round2. now rewrite Hq. }
  rewrite Hround.
  pose proof round2_hundredths as Hall.
  rewrite forallb_forall in Hall.
  specialize (Hall (Z.to_nat k)).
  rewrite Z2Nat.id in Hall by lia.
  apply number_eqb_eq, Hall, in_seq. lia.
Qed.

Lemma reported_percentile_is_binary64_witness :
  exists reported,
    Client.reportKill Examples.ranking_8735 = Ok reported
    /\ Client.rep_rankPercent reported = Js.number_of_Q (8735 # 100)
    /\ Client.rep_rankPercent reported = S754_finite false 6146709803918950 (-46).
Proof.
  destruct reported_percentile_is_binary64 as (Hreported & _).
  eexists. split; [reflexivity |].
  rewrite (Hreported Examples.ranking_8735 Examples.percent_8735 8735%Z _
             ltac:(lia) ltac:(vm_compute; reflexivity) eq_refl eq_refl).
  split; [reflexivity | vm_compute; reflexivity].
Defined.

(** ** The cache: all seasons of a character *)

Lemma Sorted_map {A B} (R : A -> A -> Prop) (R' : B -> B -> Prop) (f : A -> B)
  (l : list A) :
  (forall a b, R a b -> R' (f a) (f b)) -> Sorted R l -> Sorted R' (map f l).
Proof.
  intros Hf. induction 1 as [| a l Hsorted IH Hhd]; [constructor |].
  cbn [map]. constructor; [exact IH |].
  destruct Hhd as [| b l' Hab]; constructor. now apply Hf.
Qed.

Lemma seasonDesc_total : Total Cache.seasonDesc.
Proof.
  intros a b. unfold Cache.seasonDesc.
  destruct (String.leb_total (Cache.season_key b) (Cache.season_key a)); tauto.
Qed.

Lemma In_rows (db : Cache.Store) (row : Cache.Row) :
  In row (map snd (map_to_list (Cache.rows db)))
  <-> exists k, Cache.rows db !! k = Some row.
Proof.
  rewrite in_map_iff. split.
  - intros ([k row'] & Heq & Hin). cbn [snd] in Heq. subst row'.
    exists k. apply list_elem_of_In in Hin. now apply elem_of_map_to_list in Hin.
  - intros [k Hk]. exists (k, row). split; [reflexivity |].
    apply list_elem_of_In. now apply elem_of_map_to_list.
Qed.

Lemma ofCharacter_true (region realm characterName : string) (row : Cache.Row) :
  Cache.ofCharacter region realm characterName row = true
  <-> Cache.region row = region /\ Cache.realm row = realm
      /\ Cache.character_name row = characterName.
Proof.
  unfold Cache.ofCharacter. rewrite !andb_true_iff, !String.eqb_eq. tauto.
Qed.

Lemma In_findAll (db : Cache.Store) (region realm characterName : string)
  (r : Cache.Row) :
  In r (Cache.findAllSeasonsByCharacter db region realm characterName)
  <-> exists k row,
        Cache.rows db !! k = Some row
        /\ r = Cache.parseRow row
        /\ Cache.region row = region /\ Cache.realm row = realm
        /\ Cache.character_name row = characterName.
Proof.
  unfold Cache.findAllSeasonsByCharacter. rewrite in_map_iff.
  assert (Hperm := merge_sort_Permutation Cache.seasonDesc
                     (List.filter (Cache.ofCharacter region realm characterName)
                                  (map snd (map_to_list (Cache.rows db))))).
  split.
  - intros (row & <- & Hin). apply (Permutation_in _ Hperm) in Hin.
    apply filter_In in Hin. destruct Hin as [Hin Hof].
    apply In_rows in Hin. destruct Hin as [k Hk]. apply ofCharacter_true in Hof.
    exists k, row. now split.
  - intros (k & row & Hk & -> & Hof). exists row. split; [reflexivity |].
    apply (Permutation_in _ (Permutation_sym Hperm)). apply filter_In. split.
    + apply In_rows. now exists k.
    + now apply ofCharacter_true.
Qed.

(** X27: [findAllSeasonsByCharacter] returns the entries of the character
    in descending order of the season key: exactly the rows whose region,
    realm and character name are the ones asked for, each with its card
    parsed.  On a table that meets its constraints it agrees with the
    lookup by season: what [findCachedCharacter] finds for some season of
    the character is among the entries, and every entry is what
    [findCachedCharacter] finds for the entry's own season. *)
Theorem all_seasons_are_found_in_order (db : Cache.Store)
  (region realm characterName : string) :
  let found := Cache.findAllSeasonsByCharacter db region realm characterName in
  Sorted Cache.seasonDesc found
  /\ (forall r,
        In r found
        <-> exists k row,
              Cache.rows db !! k = Some row
              /\ r = Cache.parseRow row
              /\ Cache.region row = region /\ Cache.realm row = realm
              /\ Cache.character_name row = characterName)
  /\ (Cache.well_formed db ->
      forall season r,
        Cache.findCachedCharacter db
          (Cache.mkLookup region realm characterName season) = Some r ->
        In r found)
  /\ (Cache.well_formed db ->
      forall r,
        In r found -> Js.truthy (Cache.season_key r) = true ->
        Cache.findCachedCharacter db
          (Cache.mkLookup region realm characterName (Some (Cache.season_key r)))
        = Some r).
Proof.
  cbv zeta. split; [| split; [| split]].
  - unfold Cache.findAllSeasonsByCharacter.
    apply (Sorted_map Cache.seasonDesc); [now intros a b |].
    apply Sorted_merge_sort. exact seasonDesc_total.
  - intros r. apply In_findAll.
  - intros [Hkeys _] season r Hfind.
    apply findCachedCharacter_Some in Hfind. destruct Hfind as (row & Hrow & ->).
    apply In_findAll. destruct (Hkeys _ row Hrow) as [Hkey _].
    unfold Cache.keyOfRow, Cache.keyOf in Hkey. cbn in Hkey.
    injection Hkey as Hregion Hrealm Hname _.
    exists (Cache.keyOf (Cache.mkLookup region realm characterName season)), row.
    now split.
  - intros [Hkeys _] r Hin Htruthy. apply In_findAll in Hin.
    destruct Hin as (k & row & Hk & -> & Hregion & Hrealm & Hname).
    destruct (Hkeys k row Hk) as [Hkey _].
    unfold Cache.findCachedCharacter, Cache.keyOf.
    cbn [Cache.l_region Cache.l_realm Cache.l_character_name Cache.l_season_key
         Cache.parseRow Cache.season_key].
    cbn [Cache.parseRow Cache.season_key] in Htruthy.
    assert (Hseason : Cache.seasonKeyOf (Some (Cache.season_key row))
                      = Cache.season_key row)
      by (unfold Cache.seasonKeyOf; now rewrite Htruthy).
    assert (Hk' : k = (region, realm, characterName,
                       Cache.seasonKeyOf (Some (Cache.season_key row)))).
    { rewrite Hseason, <- Hkey, <- Hregion, <- Hrealm, <- Hname. reflexivity. }
    rewrite <- Hk'. now rewrite Hk.
Qed.

Lemma all_seasons_are_found_in_order_witness :
  Cache.findAllSeasonsByCharacter Examples.store_two_seasons "US" "area-52" "Testchar"
  = [Cache.parseRow Examples.testchar_row_s1; Cache.parseRow Examples.testchar_row]
  /\ Sorted Cache.seasonDesc
       (Cache.findAllSeasonsByCharacter Examples.store_two_seasons
          "US" "area-52" "Testchar").
Proof.
  split; [vm_compute; reflexivity |].
  exact (proj1 (all_seasons_are_found_in_order Examples.store_two_seasons
                  "US" "area-52" "Testchar")).
Defined.

(** ** The handler: forced refresh *)

(** X28: a forced refresh never answers from the cache.  When
    [forceRefresh] is set, a successful answer always carries a card
    built from a fetch made for this request: its status is [complete],
    it has no error message and its time is the time of the request.
    Every other outcome is an error. *)
Theorem forced_refresh_never_serves_cache (w : Enrich.World) (db : Cache.Store)
  (b : Enrich.RequestBody) :
  Enrich.body_forceRefresh b = true ->
  Api.success (fst (Enrich.POST w db (Some b))) = true ->
  exists card,
    fst (Enrich.POST w db (Some b))
    = Api.mkResponse 200 true (Some "Player card enriched successfully") (Some card)
    /\ Enrich.fetchStatus card = Cache.complete
    /\ Enrich.errorMessage card = None
    /\ Enrich.updatedAt card = Enrich.now w.
Proof.
  intros Hforce.
  unfold Enrich.POST, Enrich.POST_slug, Enrich.POST_id, Enrich.onFetchError.
  cbv zeta. rewrite Hforce. cbn [negb Enrich.freshEntry].
  split_matches; cbn [fst Api.success Api.errorResponse Enrich.upstreamErrorResponse];
    try discriminate; intros _; eexists; (split; [reflexivity |]); now repeat split.
Qed.

Lemma forced_refresh_never_serves_cache_witness :
  exists card,
    fst (Enrich.POST (Examples.world_found (5 * Examples.hour))
           Examples.store_with_testchar (Some (Examples.request true)))
    = Api.mkResponse 200 true (Some "Player card enriched successfully") (Some card)
    /\ Enrich.updatedAt card = (5 * Examples.hour)%Z.
Proof.
  destruct (forced_refresh_never_serves_cache (Examples.world_found (5 * Examples.hour))
              Examples.store_with_testchar (Examples.request true) eq_refl)
    as (card & Hpost & _ & _ & Hupdated).
  - vm_compute. reflexivity.
  - exists card. split; [exact Hpost | exact Hupdated].
Defined.
